(** * Daily journal: entry store and statistics

    A shallow embedding of the persistence and analytics code of
    [src/app/page.tsx] (component [DailyJournal]), and the properties its
    specification states about them; then the handlers that edit the
    working entry, the theme and the values the page displays, with
    properties read off the code.

    Conventions.
    - The declared TypeScript interfaces ([Todo], [JournalEntry]) are records.
    - Values that come out of [JSON.parse] have type [any] in the source and
      are values of [JSValue] here; nothing in the source validates them
      beyond the check in [importData].
    - JavaScript numbers are rationals ([Q]): a number is the real value
      of the double it is.  Counts and ratings are integers.
    - The runtime is a parameter: [JSON.parse], [JSON.stringify] and [Date]
      for the store operations, the rounding of arithmetic results to
      doubles for the statistics.  Module [Runtime] gives one to compute
      with. *)

From Stdlib Require Import ZArith QArith Qround Qabs Qpower Qreduction Lqa Lia.
From Stdlib Require Import Ascii String Sorting.Sorted.
From stdpp Require Import base option list sorting gmap strings pretty.

Set Warnings "-register-all,-clear-no-such-hyp".
Local Open Scope Z_scope.

(** ** JavaScript values *)

Module JS.

(** A JavaScript value as the code can observe it: the JSON values, plus
    [undefined] (a missing property) and built-in functions (reading
    [entries] on an array yields [Array.prototype.entries]). *)
Inductive JSValue : Type :=
| JSUndefined
| JSNull
| JSBoolean (b : bool)
| JSNumber (n : Q)
| JSString (s : string)
| JSArray (items : list JSValue)
| JSObject (props : list (string * JSValue))
| JSFunction.

Inductive JSError : Type :=
| SyntaxError            (* JSON.parse on malformed text *)
| TypeError              (* property read on null or undefined *)
| Error (message : string).

(** Abrupt or normal completion of an expression. *)
Inductive Completion (A : Type) : Type :=
| Normal (a : A)
| Throw (e : JSError).
Arguments Normal {A} a.
Arguments Throw {A} e.

Definition bind {A B} (c : Completion A) (k : A → Completion B) : Completion B :=
  match c with
  | Normal a => k a
  | Throw e => Throw e
  end.

(** [items.filter(p)] with a callback that may throw: the first exception
    aborts the traversal. *)
Fixpoint filterC {A} (p : A → Completion bool) (l : list A) : Completion (list A) :=
  match l with
  | [] => Normal []
  | x :: l' =>
      bind (p x) (λ keep, bind (filterC p l') (λ ys, Normal (if keep then x :: ys else ys)))
  end.

(** Own property [k] of an object; [undefined] when absent.  [props] lists
    the own properties, each key once. *)
Fixpoint ownProp (k : string) (props : list (string * JSValue)) : JSValue :=
  match props with
  | [] => JSUndefined
  | (k', v) :: rest => if String.eqb k k' then v else ownProp k rest
  end.

(** [v.entries].  No prototype but [Array.prototype] has a property of
    that name. *)
Definition get_entries (v : JSValue) : Completion JSValue :=
  match v with
  | JSUndefined | JSNull => Throw TypeError
  | JSObject props => Normal (ownProp "entries" props)
  | JSArray _ => Normal JSFunction
  | _ => Normal JSUndefined
  end.

(** [v.date].  No prototype has a property of that name. *)
Definition get_date (v : JSValue) : Completion JSValue :=
  match v with
  | JSUndefined | JSNull => Throw TypeError
  | JSObject props => Normal (ownProp "date" props)
  | _ => Normal JSUndefined
  end.

(** ToBoolean. *)
Definition truthy (v : JSValue) : bool :=
  match v with
  | JSUndefined | JSNull => false
  | JSBoolean b => b
  | JSNumber n => negb (Qeq_bool n 0)
  | JSString s => negb (String.eqb s "")
  | JSArray _ | JSObject _ | JSFunction => true
  end.

Definition Array_isArray (v : JSValue) : bool :=
  match v with
  | JSArray _ => true
  | _ => false
  end.

(** [S.has(v)] for a [Set] whose members are all strings: SameValueZero
    equates [v] with a member only if [v] is that string. *)
Definition Set_has (S : gset string) (v : JSValue) : bool :=
  match v with
  | JSString s => bool_decide (s ∈ S)
  | _ => false
  end.

(** [Math.round]: the nearest integer, ties towards +infinity. *)
Definition Math_round (x : Q) : Z := Qfloor (x + (1 # 2))%Q.

(** [Number(x.toFixed(1))]: [toFixed] drops the sign, takes the integer [n]
    with [n / 10] nearest to the magnitude (the larger [n] on a tie) and
    puts the sign back. *)
Definition toFixed1 (x : Q) : Q :=
  if Qle_bool 0 x then (Qfloor (x * 10 + (1 # 2)) # 10)%Q
  else (- (Qfloor (- x * 10 + (1 # 2)) # 10))%Q.

(** [Array.prototype.sort] with a comparator.  A comparator result of NaN
    ([None]) counts as [+0].  The sort is stable; it is written here as
    insertion from the right, which for a consistent comparator gives the
    one order every stable sort gives. *)
Definition SortCompare {A} (comparator : A → A → option Z) (x y : A) : Z :=
  default 0 (comparator x y).

Fixpoint sort_insert {A} (comparator : A → A → option Z) (x : A) (l : list A) : list A :=
  match l with
  | [] => [x]
  | y :: l' =>
      if SortCompare comparator x y <=? 0 then x :: y :: l'
      else y :: sort_insert comparator x l'
  end.

Definition Array_sort {A} (comparator : A → A → option Z) (l : list A) : list A :=
  foldr (sort_insert comparator) [] l.

(** The order the sort establishes between neighbours: the comparator does
    not put [x] strictly after [y]. *)
Definition SortBefore {A} (comparator : A → A → option Z) (x y : A) : Prop :=
  SortCompare comparator x y <= 0.

(** [l.slice(-n)]: the last [n] elements, all of them if there are fewer. *)
Definition slice_last {A} (n : nat) (l : list A) : list A :=
  drop (length l - n)%nat l.

(** [l.findIndex(p)], [None] standing for [-1]. *)
Definition findIndex {A} (p : A → bool) (l : list A) : option nat :=
  fst <$> list_find (λ x, p x = true) l.

End JS.
Import JS.

#[export] Instance Completion_ret : MRet Completion := @Normal.
#[export] Instance Completion_bind : MBind Completion := λ A B k c, bind c k.

(** ** Data model (interfaces [Todo] and [JournalEntry]) *)

Inductive Priority : Type := high | medium | low.

Record Todo : Type := {
  text : string;
  completed : bool;
  priority : Priority
}.

Record Ratings : Type := {
  overall : Z;
  energy : Z;
  productivity : Z;
  mood : Z
}.

Record JournalEntry : Type := {
  date : string;
  timestamp : string;
  todos : list Todo;
  mainGoal : string;
  accomplishments : string;
  goodThings : string;
  grateful : string;
  kindness : string;
  ratings : Ratings;
  lessons : string;
  improvements : string;
  challenges : string;
  emotions : string;
  futureImprovements : string;
  tomorrowGoals : string;
  affirmation : string
}.

(** [initialEntry]; its date and timestamp are read from the clock when the
    module is loaded. *)
Definition initialEntry (today now : string) : JournalEntry := {|
  date := today;
  timestamp := now;
  todos := [];
  mainGoal := "";
  accomplishments := "";
  goodThings := "";
  grateful := "";
  kindness := "";
  ratings := {| overall := 0; energy := 0; productivity := 0; mood := 0 |};
  lessons := "";
  improvements := "";
  challenges := "";
  emotions := "";
  futureImprovements := "";
  tomorrowGoals := "";
  affirmation := ""
|}.

(** [{ ...entry, timestamp: now }] *)
Definition withTimestamp (entry : JournalEntry) (now : string) : JournalEntry := {|
  date := date entry;
  timestamp := now;
  todos := todos entry;
  mainGoal := mainGoal entry;
  accomplishments := accomplishments entry;
  goodThings := goodThings entry;
  grateful := grateful entry;
  kindness := kindness entry;
  ratings := ratings entry;
  lessons := lessons entry;
  improvements := improvements entry;
  challenges := challenges entry;
  emotions := emotions entry;
  futureImprovements := futureImprovements entry;
  tomorrowGoals := tomorrowGoals entry;
  affirmation := affirmation entry
|}.

(** The data model's range for a rating: 0 (unrated) to 5. *)
Definition rating_in_range (r : Z) : Prop := 0 <= r <= 5.

Definition ratings_in_range (e : JournalEntry) : Prop :=
  rating_in_range (overall (ratings e)) ∧ rating_in_range (energy (ratings e)) ∧
  rating_in_range (productivity (ratings e)) ∧ rating_in_range (mood (ratings e)).

(** *** Typed records as JavaScript objects

    A record of the declared type is the object with the interface's
    properties, in the order of the object literal that creates it. *)

Definition Priority_toJS (p : Priority) : JSValue :=
  JSString match p with high => "high" | medium => "medium" | low => "low" end.

Definition Todo_toJS (t : Todo) : JSValue :=
  JSObject [("text", JSString (text t));
            ("completed", JSBoolean (completed t));
            ("priority", Priority_toJS (priority t))].

Definition Ratings_toJS (r : Ratings) : JSValue :=
  JSObject [("overall", JSNumber (inject_Z (overall r)));
            ("energy", JSNumber (inject_Z (energy r)));
            ("productivity", JSNumber (inject_Z (productivity r)));
            ("mood", JSNumber (inject_Z (mood r)))].

Definition toJS (e : JournalEntry) : JSValue :=
  JSObject [("date", JSString (date e));
            ("timestamp", JSString (timestamp e));
            ("todos", JSArray (Todo_toJS <$> todos e));
            ("mainGoal", JSString (mainGoal e));
            ("accomplishments", JSString (accomplishments e));
            ("goodThings", JSString (goodThings e));
            ("grateful", JSString (grateful e));
            ("kindness", JSString (kindness e));
            ("ratings", Ratings_toJS (ratings e));
            ("lessons", JSString (lessons e));
            ("improvements", JSString (improvements e));
            ("challenges", JSString (challenges e));
            ("emotions", JSString (emotions e));
            ("futureImprovements", JSString (futureImprovements e));
            ("tomorrowGoals", JSString (tomorrowGoals e));
            ("affirmation", JSString (affirmation e))].

(** ** Stats engine

    The runtime's arithmetic enters through [double], the rounding of a real
    result to the nearest IEEE 754 binary64 number: [x / y] and [x * y] on
    JavaScript numbers are [double] of the exact quotient and product, and
    [x + y] in the sums of the insights window is [double] of the exact sum.
    The counts of todos and, for ratings in their range, the sums of the
    rating averages are integers far below 2^53: they are added exactly. *)

Module Stats.
Section Arithmetic.

Variable double : Q → Q.

Definition Number_div (x y : Q) : Q := double (x / y).
Definition Number_mul (x y : Q) : Q := double (x * y).
Definition Number_add (x y : Q) : Q := double (x + y).
Definition Number_of_nat (n : nat) : Q := inject_Z (Z.of_nat n).

Record ProductivityStats : Type := {
  total : nat;
  completedCount : nat;
  completionRate : Z;
  highPriority : nat;
  completedHigh : nat;
  highPriorityRate : Z
}.

Definition isHigh (t : Todo) : bool :=
  match priority t with high => true | _ => false end.

(** [Math.round((part / whole) * 100)] *)
Definition percent (part whole : nat) : Z :=
  Math_round (Number_mul (Number_div (Number_of_nat part) (Number_of_nat whole)) 100).

(** [getProductivityStats], lines 261-275, for the working entry. *)
Definition getProductivityStats (entry : JournalEntry) : ProductivityStats :=
  let total := length (todos entry) in
  let completedCount := length (List.filter completed (todos entry)) in
  let highPriority := length (List.filter isHigh (todos entry)) in
  let completedHigh :=
    length (List.filter (λ todo, isHigh todo && completed todo) (todos entry)) in
  {| total := total;
     completedCount := completedCount;
     completionRate := if (0 <? total)%nat then percent completedCount total else 0;
     highPriority := highPriority;
     completedHigh := completedHigh;
     highPriorityRate :=
       if (0 <? highPriority)%nat then percent completedHigh highPriority else 0 |}.

Record Averages : Type := {
  avgOverall : Q;
  avgEnergy : Q;
  avgProductivity : Q;
  avgMood : Q
}.

Definition isRated (e : JournalEntry) : bool :=
  (0 <? overall (ratings e)) || (0 <? energy (ratings e)) ||
  (0 <? productivity (ratings e)) || (0 <? mood (ratings e)).

(** [l.reduce((sum, e) => sum + f(e), 0)] *)
Definition sumOf {A} (f : A → Z) (l : list A) : Z :=
  foldl (λ sum e, sum + f e) 0 l.

(** [Number((l.reduce(...) / l.length).toFixed(1))]: [toFixed] yields a
    numeral with one decimal, [Number] the double nearest to it. *)
Definition average1 (f : JournalEntry → Z) (l : list JournalEntry) : Q :=
  double (toFixed1 (Number_div (inject_Z (sumOf f l)) (Number_of_nat (length l)))).

(** The rating-averages block, lines 853-872; [None] is the [null] it
    returns when no entry is rated. *)
Definition ratingAverages (savedEntries : list JournalEntry) (entry : JournalEntry)
  : option Averages :=
  let allEntries := List.filter isRated (savedEntries ++ [entry]) in
  if (length allEntries =? 0)%nat then None
  else Some {| avgOverall := average1 (λ e, overall (ratings e)) allEntries;
               avgEnergy := average1 (λ e, energy (ratings e)) allEntries;
               avgProductivity := average1 (λ e, productivity (ratings e)) allEntries;
               avgMood := average1 (λ e, mood (ratings e)) allEntries |}.

(** The messages of the insights block, in the order the code pushes them. *)
Inductive Insight : Type :=
| GreatSpirits          (* "You've been in great spirits lately! ..." *)
| SelfCare              (* "Consider focusing on self-care ..." *)
| ExcellentCompletion   (* "Excellent task completion rate! ..." *)
| BreakDownTasks        (* "Try breaking down larger tasks ..." *)
| StrongProductivity    (* "Your productivity has been strong. ..." *)
| Streak (days : nat)   (* "Amazing! You've maintained a <days>-day journaling streak." *)
| KeepJournaling.       (* "Keep journaling to unlock personalized insights ..." *)

(** [x || 0] on a number: on a rating, and on a sum. *)
Definition orZero (x : Z) : Z := if x =? 0 then 0 else x.
Definition Number_orZero (x : Q) : Q := if Qeq_bool x 0 then 0%Q else x.

(** [recentEntries.reduce((sum, e) => sum + (e.ratings.mood || 0), 0)
     / recentEntries.length]: every addition yields a double. *)
Definition windowAvgMood (recentEntries : list JournalEntry) : Q :=
  let moodSum :=
    foldl (λ sum e, Number_add sum (inject_Z (orZero (mood (ratings e)))))
          0%Q recentEntries in
  Number_div moodSum (Number_of_nat (length recentEntries)).

(** [sum + e.ratings.productivity || 0] parses as
    [(sum + e.ratings.productivity) || 0]. *)
Definition windowAvgProductivity (recentEntries : list JournalEntry) : Q :=
  let productivitySum :=
    foldl (λ sum e, Number_orZero (Number_add sum (inject_Z (productivity (ratings e)))))
          0%Q recentEntries in
  Number_div productivitySum (Number_of_nat (length recentEntries)).

Definition windowTotalTasks (recentEntries : list JournalEntry) : Z :=
  sumOf (λ e, Z.of_nat (length (todos e))) recentEntries.

Definition windowCompletedTasks (recentEntries : list JournalEntry) : Z :=
  sumOf (λ e, Z.of_nat (length (List.filter completed (todos e)))) recentEntries.

Definition windowCompletionRate (recentEntries : list JournalEntry) : Q :=
  let totalTasks := windowTotalTasks recentEntries in
  let completedTasks := windowCompletedTasks recentEntries in
  if 0 <? totalTasks
  then Number_mul (Number_div (inject_Z completedTasks) (inject_Z totalTasks)) 100
  else 0%Q.

(** The insights block, lines 1025-1067. *)
Definition insights (savedEntries : list JournalEntry) : list Insight :=
  let recentEntries := slice_last 7 savedEntries in
  let insights :=
    if (0 <? length recentEntries)%nat then
      let avgMood := windowAvgMood recentEntries in
      let avgProductivity := windowAvgProductivity recentEntries in
      let completionRate := windowCompletionRate recentEntries in
      (if Qle_bool 4 avgMood then [GreatSpirits]
       else if Qle_bool avgMood 2 then [SelfCare] else [])
      ++ (if Qle_bool 80 completionRate then [ExcellentCompletion]
          else if Qle_bool completionRate 50 then [BreakDownTasks] else [])
      ++ (if Qle_bool 4 avgProductivity then [StrongProductivity] else [])
      ++ (let streakDays := length savedEntries in
          if (7 <=? streakDays)%nat then [Streak streakDays] else [])
    else [] in
  if (length insights =? 0)%nat then [KeepJournaling] else insights.

(** *** Vocabulary of the properties *)

(** [r] is an integer nearest to [x]; on a tie either neighbour is. *)
Definition nearestInteger (r : Z) (x : Q) : Prop :=
  (Qabs (inject_Z r - x) <= 1 # 2)%Q.

(** [x] lies half-way between two integers. *)
Definition halfway (x : Q) : Prop := ∃ k : Z, (x == inject_Z k + (1 # 2))%Q.

(** [a] is the number written with one decimal, [n / 10], for a numeral
    nearest to [x]; on a tie either neighbour is. *)
Definition roundedToTenth (a : Q) (x : Q) : Prop :=
  ∃ n : Z, a = double (n # 10) ∧ (Qabs ((n # 10) - x) <= 1 # 20)%Q.

(** The entries with a rating other than 0. *)
Definition someRating (e : JournalEntry) : Prop :=
  overall (ratings e) ≠ 0 ∨ energy (ratings e) ≠ 0 ∨
  productivity (ratings e) ≠ 0 ∨ mood (ratings e) ≠ 0.

End Arithmetic.
End Stats.

(** ** A concrete runtime

    The store operations below take the runtime's [JSON.parse],
    [JSON.stringify] and [Date] as parameters.  This module provides one
    runtime to run them on: a reader and printer for JSON without [\u]
    escapes and exponents, and the time value of ISO [YYYY-MM-DD] dates. *)

Module Runtime.

Definition quote : ascii := "034"%char.
Definition backslash : ascii := "092"%char.

Definition isSpace (c : ascii) : bool :=
  let n := nat_of_ascii c in
  (n =? 32)%nat || (n =? 9)%nat || (n =? 10)%nat || (n =? 13)%nat.

Definition digitOf (c : ascii) : option Z :=
  let n := Z.of_nat (nat_of_ascii c) in
  if (48 <=? n) && (n <=? 57) then Some (n - 48) else None.

Fixpoint skipSpace (s : list ascii) : list ascii :=
  match s with
  | c :: s' => if isSpace c then skipSpace s' else s
  | [] => []
  end.

(** Digits at the head of [s]: their value, their number, and the rest. *)
Fixpoint readDigits (acc : Z) (count : nat) (s : list ascii) : Z * nat * list ascii :=
  match s with
  | c :: s' =>
      match digitOf c with
      | Some d => readDigits (acc * 10 + d) (S count) s'
      | None => (acc, count, s)
      end
  | [] => (acc, count, s)
  end.

Definition readNumber (s : list ascii) : option (Q * list ascii) :=
  let '(negative, s1) :=
    match s with
    | "-"%char :: s' => (true, s')
    | _ => (false, s)
    end in
  let '(whole, n, s2) := readDigits 0 0 s1 in
  if (n =? 0)%nat then None else
  let '(magnitude, s3) :=
    match s2 with
    | "."%char :: s' =>
        let '(frac, k, s'') := readDigits 0 0 s' in
        ((inject_Z whole + inject_Z frac / inject_Z (10 ^ Z.of_nat k))%Q, s'')
    | _ => (inject_Z whole, s2)
    end in
  Some (Qred (if negative then (- magnitude)%Q else magnitude), s3).

(** The characters of a string literal after its opening quote. *)
Fixpoint readString (s : list ascii) : option (list ascii * list ascii) :=
  match s with
  | [] => None
  | c :: s' =>
      if Ascii.eqb c quote then Some ([], s')
      else if Ascii.eqb c backslash then
        match s' with
        | e :: s'' =>
            let unescaped :=
              if Ascii.eqb e quote then Some quote
              else if Ascii.eqb e backslash then Some backslash
              else if Ascii.eqb e "/" then Some "/"%char
              else if Ascii.eqb e "n" then Some "010"%char
              else if Ascii.eqb e "t" then Some "009"%char
              else if Ascii.eqb e "r" then Some "013"%char
              else None in
            match unescaped, readString s'' with
            | Some u, Some (cs, rest) => Some (u :: cs, rest)
            | _, _ => None
            end
        | [] => None
        end
      else if (nat_of_ascii c <? 32)%nat then None
      else match readString s' with
           | Some (cs, rest) => Some (c :: cs, rest)
           | None => None
           end
  end.

Definition Reader : Type := list ascii → option (JSValue * list ascii).

(** Elements of an array after the first, up to the closing bracket. *)
Fixpoint readElements (value : Reader) (fuel : nat) (s : list ascii)
  : option (list JSValue * list ascii) :=
  match fuel with
  | O => None
  | S fuel' =>
      match skipSpace s with
      | "]"%char :: rest => Some ([], rest)
      | ","%char :: rest =>
          match value rest with
          | Some (v, rest') =>
              match readElements value fuel' rest' with
              | Some (vs, rest'') => Some (v :: vs, rest'')
              | None => None
              end
          | None => None
          end
      | _ => None
      end
  end.

Definition readMember (value : Reader) (s : list ascii)
  : option ((string * JSValue) * list ascii) :=
  match skipSpace s with
  | c :: s1 =>
      if Ascii.eqb c quote then
        match readString s1 with
        | Some (k, s2) =>
            match skipSpace s2 with
            | ":"%char :: s3 =>
                match value s3 with
                | Some (v, rest) => Some ((string_of_list_ascii k, v), rest)
                | None => None
                end
            | _ => None
            end
        | None => None
        end
      else None
  | [] => None
  end.

(** Members of an object after the first, up to the closing brace. *)
Fixpoint readMembers (value : Reader) (fuel : nat) (s : list ascii)
  : option (list (string * JSValue) * list ascii) :=
  match fuel with
  | O => None
  | S fuel' =>
      match skipSpace s with
      | "}"%char :: rest => Some ([], rest)
      | ","%char :: rest =>
          match readMember value rest with
          | Some (m, rest') =>
              match readMembers value fuel' rest' with
              | Some (ms, rest'') => Some (m :: ms, rest'')
              | None => None
              end
          | None => None
          end
      | _ => None
      end
  end.

(** A later member replaces an earlier one with the same key. *)
Fixpoint setProp (k : string) (v : JSValue) (props : list (string * JSValue))
  : list (string * JSValue) :=
  match props with
  | [] => [(k, v)]
  | (k', v') :: rest =>
      if String.eqb k k' then (k, v) :: rest else (k', v') :: setProp k v rest
  end.

Definition objectOf (members : list (string * JSValue)) : JSValue :=
  JSObject (foldl (λ props m, setProp (fst m) (snd m) props) [] members).

Fixpoint readValue (fuel : nat) (s : list ascii) : option (JSValue * list ascii) :=
  match fuel with
  | O => None
  | S fuel' =>
      match skipSpace s with
      | "n"%char :: "u"%char :: "l"%char :: "l"%char :: rest => Some (JSNull, rest)
      | "t"%char :: "r"%char :: "u"%char :: "e"%char :: rest => Some (JSBoolean true, rest)
      | "f"%char :: "a"%char :: "l"%char :: "s"%char :: "e"%char :: rest =>
          Some (JSBoolean false, rest)
      | "["%char :: s1 =>
          match skipSpace s1 with
          | "]"%char :: rest => Some (JSArray [], rest)
          | _ =>
              match readValue fuel' s1 with
              | Some (v, s2) =>
                  match readElements (readValue fuel') fuel' s2 with
                  | Some (vs, rest) => Some (JSArray (v :: vs), rest)
                  | None => None
                  end
              | None => None
              end
          end
      | "{"%char :: s1 =>
          match skipSpace s1 with
          | "}"%char :: rest => Some (JSObject [], rest)
          | _ =>
              match readMember (readValue fuel') s1 with
              | Some (m, s2) =>
                  match readMembers (readValue fuel') fuel' s2 with
                  | Some (ms, rest) => Some (objectOf (m :: ms), rest)
                  | None => None
                  end
              | None => None
              end
          end
      | c :: s1 =>
          if Ascii.eqb c quote then
            match readString s1 with
            | Some (cs, rest) => Some (JSString (string_of_list_ascii cs), rest)
            | None => None
            end
          else
            match readNumber (c :: s1) with
            | Some (n, rest) => Some (JSNumber n, rest)
            | None => None
            end
      | [] => None
      end
  end.

(** [JSON.parse]: [None] is a [SyntaxError]. *)
Definition parse (text : string) : option JSValue :=
  let s := list_ascii_of_string text in
  match readValue (S (length s)) s with
  | Some (v, rest) =>
      match skipSpace rest with
      | [] => Some v
      | _ => None
      end
  | None => None
  end.

Fixpoint escape (s : string) : string :=
  match s with
  | EmptyString => EmptyString
  | String c s' =>
      if Ascii.eqb c quote then String backslash (String quote (escape s'))
      else if Ascii.eqb c backslash then String backslash (String backslash (escape s'))
      else if Ascii.eqb c "010" then String backslash (String "n" (escape s'))
      else if Ascii.eqb c "009" then String backslash (String "t" (escape s'))
      else if Ascii.eqb c "013" then String backslash (String "r" (escape s'))
      else String c (escape s')
  end.

Definition quoted (s : string) : string :=
  String quote (escape s +:+ String quote EmptyString).

Definition commaSep (parts : list string) : string :=
  match parts with
  | [] => ""
  | p :: ps => foldl (λ acc q, acc +:+ "," +:+ q) p ps
  end.

(** [JSON.stringify] without indentation; [undefined], functions and
    non-integral numbers are written as [null]. *)
Fixpoint print (v : JSValue) : string :=
  match v with
  | JSUndefined | JSNull | JSFunction => "null"
  | JSBoolean b => if b then "true" else "false"
  | JSNumber n => if (Qden n =? 1)%positive then pretty (Qnum n) else "null"
  | JSString s => quoted s
  | JSArray items => "[" +:+ commaSep (print <$> items) +:+ "]"
  | JSObject props =>
      "{" +:+ commaSep ((λ kv, quoted (fst kv) +:+ ":" +:+ print (snd kv)) <$> props) +:+ "}"
  end.

Definition stringify (v : JSValue) (indent : nat) : string := print v.

(** Days from 1970-01-01 to the civil date [y]-[m]-[d]. *)
Definition daysFromCivil (y m d : Z) : Z :=
  let y' := if m <=? 2 then y - 1 else y in
  let era := y' / 400 in
  let yoe := y' - era * 400 in
  let doy := (153 * (if 2 <? m then m - 3 else m + 9) + 2) / 5 + d - 1 in
  let doe := yoe * 365 + yoe / 4 - yoe / 100 + doy in
  era * 146097 + doe - 719468.

Definition daysInMonth (y m : Z) : Z :=
  if m =? 2 then
    if ((y mod 4 =? 0) && negb (y mod 100 =? 0)) || (y mod 400 =? 0) then 29 else 28
  else if (m =? 4) || (m =? 6) || (m =? 9) || (m =? 11) then 30
  else 31.

(** [new Date(v).getTime()] for a string [v] of the form [YYYY-MM-DD] that
    names a calendar day: midnight UTC, in milliseconds.  Every other
    argument is an invalid date here ([None], the runtime's NaN). *)
Definition getTime (v : JSValue) : option Z :=
  match v with
  | JSString s =>
      match list_ascii_of_string s with
      | [y1; y2; y3; y4; "-"%char; m1; m2; "-"%char; d1; d2] =>
          match digitOf y1, digitOf y2, digitOf y3, digitOf y4,
                digitOf m1, digitOf m2, digitOf d1, digitOf d2 with
          | Some a, Some b, Some c, Some d, Some e, Some f, Some g, Some h =>
              let y := a * 1000 + b * 100 + c * 10 + d in
              let m := e * 10 + f in
              let day := g * 10 + h in
              if (1 <=? m) && (m <=? 12) && (1 <=? day) && (day <=? daysInMonth y m)
              then Some (daysFromCivil y m day * 86400000)
              else None
          | _, _, _, _, _, _, _, _ => None
          end
      | _ => None
      end
  | _ => None
  end.

(** Rounding to the nearest binary64 number, ties to even, for magnitudes
    in the normal range (no overflow, no subnormals): a positive [a] is
    scaled by a power of two into the interval from 2^52 to 2^53, rounded
    to an integer there, and scaled back. *)
Definition roundHalfEven (s : Q) : Z :=
  let f := Qfloor s in
  match (s - inject_Z f ?= 1 # 2)%Q with
  | Lt => f
  | Gt => f + 1
  | Eq => if Z.even f then f else f + 1
  end.

Definition exponent (a : Q) : Z :=
  let e0 := Z.log2 (Qnum a) - Z.log2 (Zpos (Qden a)) - 53 in
  if Qle_bool (inject_Z (2 ^ 53)) (a / 2 ^ e0)%Q then e0 + 1 else e0.

Definition roundPositive (a : Q) : Q :=
  (inject_Z (roundHalfEven (a / 2 ^ exponent a)) * 2 ^ exponent a)%Q.

Definition double (x : Q) : Q :=
  let x := Qred x in
  if Qeq_bool x 0 then 0%Q
  else if Qle_bool 0 x then Qred (roundPositive x)
  else Qred (- roundPositive (- x))%Q.

End Runtime.

(** ** Entry store *)

Module Store.
Section WithRuntime.

(** [JSON.parse(text)]; [None] is a [SyntaxError]. *)
Variable JSON_parse : string → option JSValue.
(** [JSON.stringify(value, null, indent)] *)
Variable JSON_stringify : JSValue → nat → string.
(** [new Date(v).getTime()]; [None] is NaN, the time of an invalid date. *)
Variable Date_getTime : JSValue → option Z.

Definition parseJSON (text : string) : Completion JSValue :=
  match JSON_parse text with
  | Some v => Normal v
  | None => Throw SyntaxError
  end.

(** *** Load (the mount effect, lines 104-114)

    The result is the state after the effect: [savedEntries], initially
    [[]], and [isDarkMode], initially [true].  A [Throw] leaves the effect
    through an exception. *)
Definition load (saved savedTheme : option string) : Completion (JSValue * bool) :=
  savedEntries ←
    match saved with
    | Some text => if truthy (JSString text) then parseJSON text else Normal (JSArray [])
    | None => Normal (JSArray [])
    end;
  let isDarkMode :=
    match savedTheme with
    | Some theme => if truthy (JSString theme) then String.eqb theme "dark" else true
    | None => true
    end in
  Normal (savedEntries, isDarkMode).

(** *** Upsert ([saveEntry], lines 160-183) *)

Inductive SaveOutcome : Type :=
| Declined                                  (* [return] after [window.confirm] said no *)
| Saved (newEntries : list JournalEntry)    (* [setSavedEntries(newEntries)] *)
        (written : string).                 (* [localStorage.setItem("journalEntries", ...)] *)

Definition entriesJSON (entries : list JournalEntry) : JSValue :=
  JSArray (toJS <$> entries).

(** [now] is the clock's [toLocaleString()], [confirmOverwrite] the answer
    [window.confirm] gives if it is asked.  After a save the working entry
    is reset to [initialEntry] and an alert is shown; neither touches the
    store. *)
Definition saveEntry (entry : JournalEntry) (now : string) (confirmOverwrite : bool)
    (savedEntries : list JournalEntry) : SaveOutcome :=
  let updatedEntry := withTimestamp entry now in
  let existingIndex := findIndex (λ e, String.eqb (date e) (date entry)) savedEntries in
  let newEntries :=
    match existingIndex with
    | Some i => if confirmOverwrite then Some (<[i := updatedEntry]> savedEntries) else None
    | None => Some (savedEntries ++ [updatedEntry])
    end in
  match newEntries with
  | Some newEntries => Saved newEntries (JSON_stringify (entriesJSON newEntries) 0)
  | None => Declined
  end.

(** The store after a save: unchanged when the overwrite is declined. *)
Definition afterSave (savedEntries : list JournalEntry) (o : SaveOutcome) : list JournalEntry :=
  match o with
  | Declined => savedEntries
  | Saved newEntries _ => newEntries
  end.

(** *** Export ([exportData], lines 185-203) *)

Record Download : Type := {
  fileName : string;
  content : string
}.

(** [isoString.split("T")[0]] *)
Fixpoint beforeT (s : string) : string :=
  match s with
  | EmptyString => EmptyString
  | String c s' => if Ascii.eqb c "T" then EmptyString else String c (beforeT s')
  end.

Definition dataToExport (exportDate : string) (savedEntries : list JournalEntry) : JSValue :=
  JSObject [("exportDate", JSString exportDate);
            ("totalEntries", JSNumber (inject_Z (Z.of_nat (length savedEntries))));
            ("entries", entriesJSON savedEntries)].

(** [exportDate] and [fileDate] are the two readings of the clock, both as
    [toISOString()]. *)
Definition exportData (exportDate fileDate : string) (savedEntries : list JournalEntry)
  : Download :=
  {| fileName := "journal-entries-" +:+ beforeT fileDate +:+ ".json";
     content := JSON_stringify (dataToExport exportDate savedEntries) 2 |}.

(** *** Import ([importData], the [onload] handler, lines 210-234) *)

Inductive ImportOutcome : Type :=
| ImportFailed                            (* [catch]: the error alert; nothing is set or written *)
| Imported (mergedEntries : list JSValue) (* [setSavedEntries(mergedEntries)] *)
           (written : string)             (* [localStorage.setItem("journalEntries", ...)] *)
           (imported skipped : nat).      (* the two counts of the success alert *)

(** [new Date(a.date).getTime()].  The sort only sees values whose [date]
    has been read before, so the read does not throw there. *)
Definition timeOf (a : JSValue) : option Z :=
  match get_date a with
  | Normal d => Date_getTime d
  | Throw _ => None
  end.

(** [(a, b) => new Date(a.date).getTime() - new Date(b.date).getTime()] *)
Definition byDate (a b : JSValue) : option Z :=
  ta ← timeOf a; tb ← timeOf b; Some (ta - tb).

Definition arrayItems (v : JSValue) : list JSValue :=
  match v with
  | JSArray items => items
  | _ => []
  end.

(** The body of the [try] block. *)
Definition tryImport (savedEntries : list JournalEntry) (fileText : string)
  : Completion (list JSValue * nat * nat) :=
  importedData ← parseJSON fileText;
  entries ← get_entries importedData;
  if negb (truthy entries) || negb (Array_isArray entries)
  then Throw (Error "Invalid file format")
  else
    let existingDates : gset string := list_to_set (date <$> savedEntries) in
    newEntries ←
      filterC (λ entry, d ← get_date entry; Normal (negb (Set_has existingDates d)))
              (arrayItems entries);
    let mergedEntries := Array_sort byDate ((toJS <$> savedEntries) ++ newEntries) in
    Normal (mergedEntries, length newEntries,
            (length (arrayItems entries) - length newEntries)%nat).

Definition importData (savedEntries : list JournalEntry) (fileText : string)
  : ImportOutcome :=
  match tryImport savedEntries fileText with
  | Normal (mergedEntries, imported, skipped) =>
      Imported mergedEntries (JSON_stringify (JSArray mergedEntries) 0) imported skipped
  | Throw _ => ImportFailed
  end.

(** The store after an import, as JavaScript values: unchanged when the
    import fails. *)
Definition afterImport (savedEntries : list JournalEntry) (o : ImportOutcome)
  : list JSValue :=
  match o with
  | ImportFailed => toJS <$> savedEntries
  | Imported mergedEntries _ _ _ => mergedEntries
  end.

(** *** Vocabulary of the properties *)

(** A run of saves: each step is the working entry, the clock and the
    answer to the overwrite question. *)
Definition saveAll (steps : list (JournalEntry * string * bool))
    (savedEntries : list JournalEntry) : list JournalEntry :=
  foldl (λ saved '(entry, now, confirmOverwrite),
           afterSave saved (saveEntry entry now confirmOverwrite saved))
        savedEntries steps.

(** [v.date] is the string [D]. *)
Definition hasDate (D : string) (v : JSValue) : bool :=
  match get_date v with
  | Normal (JSString s) => String.eqb s D
  | _ => false
  end.

(** [v.date] can be read: [v] is neither [null] nor [undefined]. *)
Definition readable (v : JSValue) : bool :=
  match v with
  | JSUndefined | JSNull => false
  | _ => true
  end.

(** [v.date] is a string that is the date of a stored entry. *)
Definition collides (savedEntries : list JournalEntry) (v : JSValue) : bool :=
  match get_date v with
  | Normal (JSString s) => bool_decide (s ∈ date <$> savedEntries)
  | _ => false
  end.

(** The entries of a payload that do not collide. *)
Definition newItems (savedEntries : list JournalEntry) (items : list JSValue)
  : list JSValue :=
  List.filter (λ v, negb (collides savedEntries v)) items.

(** The value is an object with a property [entries] that is an array. *)
Definition hasEntriesArray (v : JSValue) : bool :=
  match v with
  | JSObject props => Array_isArray (ownProp "entries" props)
  | _ => false
  end.

(** Both values have a valid date, and the first is not later. *)
Definition notLater (a b : JSValue) : Prop :=
  ∃ ta tb, timeOf a = Some ta ∧ timeOf b = Some tb ∧ ta <= tb.

End WithRuntime.
End Store.

(** ** Sample data

    The entry of the specification's scenario, a store and three files. *)

Module Sample.

(** Saved on 2024-01-01 with mood 5 and the single todo "A", completed and
    of high priority. *)
Definition jan1 : JournalEntry := {|
  date := "2024-01-01";
  timestamp := "1/1/2024, 9:00:00 PM";
  todos := [{| text := "A"; completed := true; priority := high |}];
  mainGoal := "Ship the release";
  accomplishments := "";
  goodThings := "";
  grateful := "";
  kindness := "";
  ratings := {| overall := 0; energy := 0; productivity := 0; mood := 5 |};
  lessons := "";
  improvements := "";
  challenges := "";
  emotions := "";
  futureImprovements := "";
  tomorrowGoals := "";
  affirmation := ""
|}.

(** Another entry under the same date, with other content. *)
Definition jan1' : JournalEntry := {|
  date := "2024-01-01";
  timestamp := "1/1/2024, 11:30:00 PM";
  todos := [];
  mainGoal := "Rest";
  accomplishments := "";
  goodThings := "";
  grateful := "";
  kindness := "";
  ratings := {| overall := 2; energy := 1; productivity := 0; mood := 2 |};
  lessons := "";
  improvements := "";
  challenges := "";
  emotions := "";
  futureImprovements := "";
  tomorrowGoals := "";
  affirmation := ""
|}.

Definition jan2 : JournalEntry := {|
  date := "2024-01-02";
  timestamp := "1/2/2024, 8:15:00 PM";
  todos := [{| text := "B"; completed := false; priority := low |}];
  mainGoal := "";
  accomplishments := "";
  goodThings := "";
  grateful := "";
  kindness := "";
  ratings := {| overall := 4; energy := 3; productivity := 4; mood := 4 |};
  lessons := "";
  improvements := "";
  challenges := "";
  emotions := "";
  futureImprovements := "";
  tomorrowGoals := "";
  affirmation := ""
|}.

(** An entry of 2024-01-04 with [done] completed and [open] open todos of
    low priority. *)
Definition withTasks (done open : nat) : JournalEntry := {|
  date := "2024-01-04";
  timestamp := "1/4/2024, 9:00:00 PM";
  todos := replicate done {| text := "done"; completed := true; priority := low |}
           ++ replicate open {| text := "open"; completed := false; priority := low |};
  mainGoal := "";
  accomplishments := "";
  goodThings := "";
  grateful := "";
  kindness := "";
  ratings := {| overall := 0; energy := 0; productivity := 0; mood := 0 |};
  lessons := "";
  improvements := "";
  challenges := "";
  emotions := "";
  futureImprovements := "";
  tomorrowGoals := "";
  affirmation := ""
|}.

(** An export that holds the other entry of 2024-01-01 and the entry of
    2024-01-02. *)
Definition mixedDocument : JSValue :=
  JSObject [("exportDate", JSString "2024-01-03T10:00:00.000Z");
            ("totalEntries", JSNumber 2);
            ("entries", JSArray [toJS jan1'; toJS jan2])].

Definition mixedFile : string := Runtime.print mixedDocument.

(** A file with two entries under one date. *)
Definition twinDocument : JSValue :=
  JSObject [("entries", JSArray [toJS jan1; toJS jan1'])].

Definition twinFile : string := Runtime.print twinDocument.

(** The text [{"foo": 1}]. *)
Definition fooFile : string :=
  "{" +:+ String Runtime.quote ("foo" +:+ String Runtime.quote ": 1}").

End Sample.


(** ** The working entry

    The handlers of [DailyJournal] that edit the entry being written
    (lines 129-158 and the text inputs), each as the function it passes to
    [setEntry], and the component [StarRating] (lines 63-94). *)

Module Editor.

(** A character of a [string] is a code unit below 256.  Of the white space
    and the line terminators that [String.prototype.trim] strips, these are
    TAB, LF, VT, FF, CR, SP and NBSP. *)
Definition isWhiteSpace (c : ascii) : bool :=
  let n := nat_of_ascii c in
  ((9 <=? n) && (n <=? 13) || (n =? 32) || (n =? 160))%nat.

Fixpoint trimStart (s : string) : string :=
  match s with
  | EmptyString => EmptyString
  | String c s' => if isWhiteSpace c then trimStart s' else s
  end.

Fixpoint trimEnd (s : string) : string :=
  match s with
  | EmptyString => EmptyString
  | String c s' =>
      match trimEnd s' with
      | EmptyString => if isWhiteSpace c then EmptyString else String c EmptyString
      | rest => String c rest
      end
  end.

(** [s.trim()] *)
Definition trim (s : string) : string := trimEnd (trimStart s).

(** [{ ...prev, todos: newTodos }] *)
Definition withTodos (prev : JournalEntry) (newTodos : list Todo) : JournalEntry := {|
  date := date prev;
  timestamp := timestamp prev;
  todos := newTodos;
  mainGoal := mainGoal prev;
  accomplishments := accomplishments prev;
  goodThings := goodThings prev;
  grateful := grateful prev;
  kindness := kindness prev;
  ratings := ratings prev;
  lessons := lessons prev;
  improvements := improvements prev;
  challenges := challenges prev;
  emotions := emotions prev;
  futureImprovements := futureImprovements prev;
  tomorrowGoals := tomorrowGoals prev;
  affirmation := affirmation prev
|}.

(** [{ ...prev, ratings: newRatings }] *)
Definition withRatings (prev : JournalEntry) (newRatings : Ratings) : JournalEntry := {|
  date := date prev;
  timestamp := timestamp prev;
  todos := todos prev;
  mainGoal := mainGoal prev;
  accomplishments := accomplishments prev;
  goodThings := goodThings prev;
  grateful := grateful prev;
  kindness := kindness prev;
  ratings := newRatings;
  lessons := lessons prev;
  improvements := improvements prev;
  challenges := challenges prev;
  emotions := emotions prev;
  futureImprovements := futureImprovements prev;
  tomorrowGoals := tomorrowGoals prev;
  affirmation := affirmation prev
|}.

(** [addTodo], lines 129-137.  The result is the entry and the text of the
    input field after the call. *)
Definition addTodo (newTodo : string) (todoPriority : Priority) (prev : JournalEntry)
  : JournalEntry * string :=
  if truthy (JSString (trim newTodo))
  then (withTodos prev
          (todos prev ++ [{| text := newTodo; completed := false; priority := todoPriority |}]),
        "")
  else (prev, newTodo).

(** [{ ...todo, completed: !todo.completed }] *)
Definition toggled (todo : Todo) : Todo :=
  {| text := text todo; completed := negb (completed todo); priority := priority todo |}.

(** [toggleTodo], lines 139-144.  [index] is a number; [i === index] holds
    for the one position it is equal to, if any. *)
Definition toggleTodo (index : Z) (prev : JournalEntry) : JournalEntry :=
  withTodos prev
    (imap (λ i todo, if Z.of_nat i =? index then toggled todo else todo) (todos prev)).

(** [l.filter((x, i) => p(x, i))], the positions counted from [i]. *)
Fixpoint filter_from {A} (p : A → nat → bool) (i : nat) (l : list A) : list A :=
  match l with
  | [] => []
  | x :: l' => if p x i then x :: filter_from p (S i) l' else filter_from p (S i) l'
  end.

(** [removeTodo], lines 146-151. *)
Definition removeTodo (index : Z) (prev : JournalEntry) : JournalEntry :=
  withTodos prev (filter_from (λ _ i, negb (Z.of_nat i =? index)) 0 (todos prev)).

(** [keyof JournalEntry["ratings"]] *)
Inductive RatingKey : Type := key_overall | key_energy | key_productivity | key_mood.

#[export] Instance RatingKey_eq_dec : EqDecision RatingKey.
Proof. solve_decision. Defined.

(** [{ ...ratings, [type]: rating }] *)
Definition setRating (r : Ratings) (type : RatingKey) (rating : Z) : Ratings :=
  match type with
  | key_overall =>
      {| overall := rating; energy := energy r;
         productivity := productivity r; mood := mood r |}
  | key_energy =>
      {| overall := overall r; energy := rating;
         productivity := productivity r; mood := mood r |}
  | key_productivity =>
      {| overall := overall r; energy := energy r;
         productivity := rating; mood := mood r |}
  | key_mood =>
      {| overall := overall r; energy := energy r;
         productivity := productivity r; mood := rating |}
  end.

(** [ratings[type]] *)
Definition getRating (r : Ratings) (type : RatingKey) : Z :=
  match type with
  | key_overall => overall r
  | key_energy => energy r
  | key_productivity => productivity r
  | key_mood => mood r
  end.

(** [updateRating], lines 153-158. *)
Definition updateRating (type : RatingKey) (rating : Z) (prev : JournalEntry) : JournalEntry :=
  withRatings prev (setRating (ratings prev) type rating).

(** The text inputs: [setEntry((prev) => ({ ...prev, <field>: e.target.value }))]. *)
Inductive TextField : Type :=
| field_mainGoal | field_accomplishments | field_goodThings | field_grateful
| field_kindness | field_lessons | field_improvements | field_challenges
| field_emotions | field_futureImprovements | field_tomorrowGoals | field_affirmation.

#[export] Instance TextField_eq_dec : EqDecision TextField.
Proof. solve_decision. Defined.

Definition setText (field : TextField) (value : string) (prev : JournalEntry) : JournalEntry :=
  let put f old := if decide (field = f) then value else old in
  {| date := date prev;
     timestamp := timestamp prev;
     todos := todos prev;
     mainGoal := put field_mainGoal (mainGoal prev);
     accomplishments := put field_accomplishments (accomplishments prev);
     goodThings := put field_goodThings (goodThings prev);
     grateful := put field_grateful (grateful prev);
     kindness := put field_kindness (kindness prev);
     ratings := ratings prev;
     lessons := put field_lessons (lessons prev);
     improvements := put field_improvements (improvements prev);
     challenges := put field_challenges (challenges prev);
     emotions := put field_emotions (emotions prev);
     futureImprovements := put field_futureImprovements (futureImprovements prev);
     tomorrowGoals := put field_tomorrowGoals (tomorrowGoals prev);
     affirmation := put field_affirmation (affirmation prev) |}.

(** *** [StarRating], lines 63-94 *)

Definition stars : list Z := [1; 2; 3; 4; 5].

(** The stars drawn filled: those with [star <= rating]. *)
Definition filledStars (rating : Z) : list Z :=
  List.filter (λ star, star <=? rating) stars.

(** *** Vocabulary of the properties *)

(** What the user can do to the working entry: add a todo from the input
    field, tick or delete a todo row, click a star, type into a text
    field. *)
Inductive Action : Type :=
| AddTodo (newTodo : string) (todoPriority : Priority)
| ToggleTodo (index : Z)
| RemoveTodo (index : Z)
| ClickStar (type : RatingKey) (star : Z)
| TypeText (field : TextField) (value : string).

Definition act (prev : JournalEntry) (a : Action) : JournalEntry :=
  match a with
  | AddTodo newTodo todoPriority => (addTodo newTodo todoPriority prev).1
  | ToggleTodo index => toggleTodo index prev
  | RemoveTodo index => removeTodo index prev
  | ClickStar type star => updateRating type star prev
  | TypeText field value => setText field value prev
  end.

(** The stars a [StarRating] offers to click. *)
Definition offered (a : Action) : Prop :=
  match a with
  | ClickStar _ star => star ∈ stars
  | _ => True
  end.

Definition edit (actions : list Action) (entry : JournalEntry) : JournalEntry :=
  foldl act entry actions.

(** The text has no character but white space. *)
Definition blank (s : string) : Prop :=
  Forall (λ c, isWhiteSpace c = true) (list_ascii_of_string s).

End Editor.

(** ** Theme and storage

    The two keys of [localStorage] the component uses, the theme effect
    (lines 116-123), [toggleTheme] (lines 125-127) and [clearAllData]
    (lines 240-246). *)

Module Page.

(** [localStorage.getItem(key)] for the two keys; [None] is [null]. *)
Record LocalStorage : Type := {
  journalEntries : option string;
  journalTheme : option string
}.

(** [localStorage.setItem("journalEntries", written)], the write of
    [saveEntry] (line 179) and of [importData] (line 226). *)
Definition setEntries (written : string) (storage : LocalStorage) : LocalStorage :=
  {| journalEntries := Some written; journalTheme := journalTheme storage |}.

(** The mount effect reads both keys. *)
Definition mount (JSON_parse : string → option JSValue) (storage : LocalStorage)
  : Completion (JSValue * bool) :=
  Store.load JSON_parse (journalEntries storage) (journalTheme storage).

(** The theme effect, run after every change of [isDarkMode]: whether the
    document element has the class [dark], and the storage. *)
Definition themeEffect (isDarkMode : bool) (storage : LocalStorage) : bool * LocalStorage :=
  (isDarkMode,
   {| journalEntries := journalEntries storage;
      journalTheme := Some (if isDarkMode then "dark" else "light") |}).

Definition toggleTheme (isDarkMode : bool) : bool := negb isDarkMode.

(** What [clearAllData] leaves: the storage, [savedEntries], [entry] and
    [showClearConfirm].  [initialEntry] is the constant of the module. *)
Record Cleared : Type := {
  storage : LocalStorage;
  savedEntries : list JournalEntry;
  entry : JournalEntry;
  showClearConfirm : bool
}.

Definition clearAllData (initialEntry : JournalEntry) (storage : LocalStorage) : Cleared :=
  {| storage := {| journalEntries := None; journalTheme := journalTheme storage |};
     savedEntries := [];
     entry := initialEntry;
     showClearConfirm := false |}.

End Page.

(** ** What is displayed

    The values the render computes from the working entry and the store:
    the todo list by priority (lines 509-651), the stars of the analytics
    card and the recent trends (lines 875-1017), the recent entries (lines
    1148-1186). *)

Module View.
Section Arithmetic.

Variable double : Q → Q.

(** [getPriorityColor], lines 248-259. *)
Definition getPriorityColor (priority : string) : string :=
  if String.eqb priority "high" then "bg-red-500/20 text-red-300 border-red-500/30"
  else if String.eqb priority "medium" then "bg-amber-500/20 text-amber-300 border-amber-500/30"
  else if String.eqb priority "low" then "bg-green-500/20 text-green-300 border-green-500/30"
  else "bg-muted/20 text-muted-foreground border-muted/30".

(** [todo.priority === P] *)
Definition hasPriority (P : Priority) (todo : Todo) : bool :=
  match priority todo, P with
  | high, high | medium, medium | low, low => true
  | _, _ => false
  end.

(** The rows of a group, each with the index its checkbox and its delete
    button pass to [toggleTodo] and [removeTodo]:
    [entry.todos.map((todo, index) => ({ todo, index })).filter(({ todo }) => todo.priority === P)]. *)
Definition groupRows (P : Priority) (todos : list Todo) : list (Todo * nat) :=
  List.filter (λ row, hasPriority P row.1) (imap (λ index todo, (todo, index)) todos).

(** [entry.todos.filter((todo) => todo.priority === P).length > 0 && ...]:
    the group with its heading, or nothing. *)
Definition group (P : Priority) (todos : list Todo) : option (list (Todo * nat)) :=
  if (0 <? length (List.filter (hasPriority P) todos))%nat
  then Some (groupRows P todos) else None.

Inductive TodoList : Type :=
| NoTasksYet
| Groups (highGroup mediumGroup lowGroup : option (list (Todo * nat))).

Definition todoList (entry : JournalEntry) : TodoList :=
  if (length (todos entry) =? 0)%nat then NoTasksYet
  else Groups (group high (todos entry)) (group medium (todos entry))
              (group low (todos entry)).

(** The stars of an average in the analytics card: [star <= Math.round(avg)]. *)
Definition averageStars (avg : Q) : list Z := Editor.filledStars (Math_round avg).

(** The completion rate of a row of the task completion trend. *)
Definition trendCompletionRate (savedEntry : JournalEntry) : Z :=
  if (0 <? length (todos savedEntry))%nat
  then Stats.percent double (length (List.filter completed (todos savedEntry)))
                            (length (todos savedEntry))
  else 0.

(** [savedEntries.slice(-7).map(...)], the rate of each row. *)
Definition completionTrend (savedEntries : list JournalEntry) : list Z :=
  trendCompletionRate <$> slice_last 7 savedEntries.

(** The mood trend: the filled stars and the number [ratings.mood || 0] of
    each row. *)
Definition moodTrend (savedEntries : list JournalEntry) : list (list Z * Z) :=
  (λ savedEntry, (Editor.filledStars (mood (ratings savedEntry)),
                  Stats.orZero (mood (ratings savedEntry))))
  <$> slice_last 7 savedEntries.

(** A row of the recent entries. *)
Record RecentRow : Type := {
  rowDate : string;
  rowTimestamp : string;
  rowGoal : string;                  (* [mainGoal || "No main goal set"] *)
  rowCompleted : nat;
  rowTotal : nat;
  rowHighCompleted : option nat      (* the badge, shown when the count is above 0 *)
}.

Definition recentRow (savedEntry : JournalEntry) : RecentRow :=
  let highCompleted :=
    length (List.filter (λ t, Stats.isHigh t && completed t) (todos savedEntry)) in
  {| rowDate := date savedEntry;
     rowTimestamp := timestamp savedEntry;
     rowGoal := if truthy (JSString (mainGoal savedEntry)) then mainGoal savedEntry
                else "No main goal set";
     rowCompleted := length (List.filter completed (todos savedEntry));
     rowTotal := length (todos savedEntry);
     rowHighCompleted := if (0 <? highCompleted)%nat then Some highCompleted else None |}.

(** [savedEntries.slice(-5).reverse().map(...)], shown when the store is
    not empty. *)
Definition recentEntries (savedEntries : list JournalEntry) : option (list RecentRow) :=
  if (0 <? length savedEntries)%nat
  then Some (recentRow <$> reverse (slice_last 5 savedEntries))
  else None.

End Arithmetic.
End View.


(** * Properties *)

(** ** The built-ins *)

Module JSFacts.

(** A filter whose callback never throws is the plain filter. *)
Lemma filterC_total {A} (p : A → Completion bool) (q : A → bool) (l : list A) :
  (∀ x, x ∈ l → p x = Normal (q x)) →
  filterC p l = Normal (List.filter q l).
Proof.
  induction l as [|x l IH]; intros Hp; simpl; [done|].
  rewrite (Hp x) by left. simpl.
  rewrite IH by (intros y Hy; apply Hp; by right).
  simpl. by destruct (q x).
Qed.

(** A filter whose callback throws on some element throws. *)
Lemma filterC_throws {A} (p : A → Completion bool) (l : list A) x e :
  x ∈ l → p x = Throw e → ∃ e', filterC p l = Throw e'.
Proof.
  induction l as [|y l IH]; intros Hin Hx; [by apply elem_of_nil in Hin|].
  apply elem_of_cons in Hin as [->|Hin]; simpl.
  - rewrite Hx. simpl. eauto.
  - destruct (p y) as [b|e0]; simpl; [|eauto].
    destruct (IH Hin Hx) as [e' ->]. simpl. eauto.
Qed.

Lemma sort_insert_Permutation {A} (cmp : A → A → option Z) x (l : list A) :
  sort_insert cmp x l ≡ₚ x :: l.
Proof.
  induction l as [|y l IH]; simpl; [done|].
  destruct (SortCompare cmp x y <=? 0); [done|].
  rewrite IH. apply Permutation_swap.
Qed.

(** Sorting rearranges; it neither drops nor adds an element. *)
Lemma Array_sort_Permutation {A} (cmp : A → A → option Z) (l : list A) :
  Array_sort cmp l ≡ₚ l.
Proof.
  induction l as [|x l IH]; simpl; [done|].
  rewrite sort_insert_Permutation. by f_equiv.
Qed.

Section Sorted.
Context {A : Type} (cmp : A → A → option Z).

Local Abbreviation before := (SortBefore cmp).

(** The comparator never puts two values strictly after each other. *)
Hypothesis cmp_total : ∀ x y, 0 < SortCompare cmp x y → SortCompare cmp y x <= 0.

Lemma sort_insert_HdRel x y l :
  before y x → HdRel before y l → HdRel before y (sort_insert cmp x l).
Proof.
  intros Hyx Hl. destruct l as [|z l]; simpl; [by constructor|].
  destruct (SortCompare cmp x z <=? 0); constructor; [done|].
  by inversion Hl.
Qed.

Lemma sort_insert_Sorted x l :
  Sorted before l → Sorted before (sort_insert cmp x l).
Proof.
  induction 1 as [|y l Hl IH Hhd]; simpl; [by repeat constructor|].
  destruct (SortCompare cmp x y <=? 0) eqn:Hxy.
  - apply Z.leb_le in Hxy. by repeat constructor.
  - apply Z.leb_gt in Hxy. constructor; [done|].
    apply sort_insert_HdRel; [|done]. by apply cmp_total.
Qed.

Lemma Array_sort_Sorted l : Sorted before (Array_sort cmp l).
Proof.
  induction l as [|x l IH]; simpl; [constructor|].
  by apply sort_insert_Sorted.
Qed.

End Sorted.

(** A locally sorted list whose elements all satisfy [P] is sorted for any
    relation that the neighbour order implies on [P]. *)
Lemma Sorted_Forall_impl {A} (R S : A → A → Prop) (P : A → Prop) (l : list A) :
  (∀ x y, P x → P y → R x y → S x y) →
  Forall P l → Sorted R l → Sorted S l.
Proof.
  intros HRS HP Hs. induction Hs as [|x l Hl IH Hhd]; [constructor|].
  apply Forall_cons in HP as [Hx HP]. constructor; [by apply IH|].
  destruct Hhd as [|y l' Hxy]; constructor.
  apply Forall_cons in HP as [Hy _]. by apply HRS.
Qed.

Lemma ownProp_date_toJS e : get_date (toJS e) = Normal (JSString (date e)).
Proof. reflexivity. Qed.

End JSFacts.

(** ** The entry store *)

Module StoreFacts.
Import JSFacts Store.

Section WithRuntime.

Variable JSON_parse : string → option JSValue.
Variable JSON_stringify : JSValue → nat → string.
Variable Date_getTime : JSValue → option Z.

Local Abbreviation load := (Store.load JSON_parse).
Local Abbreviation saveEntry := (Store.saveEntry JSON_stringify).
Local Abbreviation saveAll := (Store.saveAll JSON_stringify).
Local Abbreviation exportData := (Store.exportData JSON_stringify).
Local Abbreviation tryImport := (Store.tryImport JSON_parse Date_getTime).
Local Abbreviation importData := (Store.importData JSON_parse JSON_stringify Date_getTime).
Local Abbreviation timeOf := (Store.timeOf Date_getTime).
Local Abbreviation byDate := (Store.byDate Date_getTime).
Local Abbreviation notLater := (Store.notLater Date_getTime).

(** *** Lemmas on import *)

Lemma get_date_readable v : readable v = true → ∃ d, get_date v = Normal d.
Proof. destruct v; simpl; try discriminate; eauto. Qed.

Lemma get_date_unreadable v : readable v = false → get_date v = Throw TypeError.
Proof. by destruct v. Qed.

Lemma byDate_total x y :
  0 < SortCompare byDate x y → SortCompare byDate y x <= 0.
Proof.
  unfold SortCompare, Store.byDate.
  destruct (timeOf x), (timeOf y); simpl; lia.
Qed.

Lemma byDate_notLater x y :
  is_Some (timeOf x) → is_Some (timeOf y) → SortBefore byDate x y → notLater x y.
Proof.
  intros [tx Hx] [ty Hy]. unfold SortBefore, SortCompare, Store.byDate.
  rewrite Hx, Hy. simpl. intros H. exists tx, ty. repeat split; [done..|lia].
Qed.

#[local] Instance notLater_trans : Transitive notLater.
Proof.
  intros x y z (tx & ty & Hx & Hy & Hxy) (ty' & tz & Hy' & Hz & Hyz).
  exists tx, tz. repeat split; [done..|]. rewrite Hy in Hy'. injection Hy' as <-. lia.
Qed.

(** The filter callback of [importData] on a value whose [date] can be
    read: keep the value unless its date is a stored one. *)
Lemma import_callback savedEntries v :
  readable v = true →
  (d ← get_date v;
   Normal (negb (Set_has (list_to_set (date <$> savedEntries)) d)))
  = Normal (negb (collides savedEntries v)).
Proof.
  intros Hv. unfold collides.
  destruct (get_date_readable v Hv) as [d ->]. simpl.
  destruct d; simpl; try done.
  do 2 f_equal. apply bool_decide_ext. by rewrite elem_of_list_to_set.
Qed.

Lemma tryImport_readable savedEntries fileText importedData items :
  JSON_parse fileText = Some importedData →
  get_entries importedData = Normal (JSArray items) →
  Forall (λ v, readable v = true) items →
  tryImport savedEntries fileText
  = Normal (Array_sort byDate ((toJS <$> savedEntries) ++ newItems savedEntries items),
            length (newItems savedEntries items),
            (length items - length (newItems savedEntries items))%nat).
Proof.
  intros Hparse Hentries Hitems.
  unfold Store.tryImport, parseJSON. rewrite Hparse. simpl.
  rewrite Hentries. simpl.
  rewrite (filterC_total _ (λ v, negb (collides savedEntries v))).
  - reflexivity.
  - intros v Hv. apply import_callback.
    by apply (proj1 (Forall_forall _ _) Hitems).
Qed.

(** The outcome of such an import. *)
Lemma importData_readable savedEntries fileText importedData items :
  JSON_parse fileText = Some importedData →
  get_entries importedData = Normal (JSArray items) →
  Forall (λ v, readable v = true) items →
  let mergedEntries :=
    Array_sort byDate ((toJS <$> savedEntries) ++ newItems savedEntries items) in
  importData savedEntries fileText
  = Imported mergedEntries (JSON_stringify (JSArray mergedEntries) 0)
             (length (newItems savedEntries items))
             (length items - length (newItems savedEntries items))%nat ∧
  mergedEntries ≡ₚ (toJS <$> savedEntries) ++ newItems savedEntries items.
Proof.
  intros Hparse Hentries Hitems. split; [|apply Array_sort_Permutation].
  unfold Store.importData.
  by rewrite (tryImport_readable _ _ _ _ Hparse Hentries Hitems).
Qed.

Lemma newItems_length savedEntries items :
  (length (newItems savedEntries items) <= length items)%nat.
Proof. apply List.filter_length_le. Qed.

Lemma filter_elem_of {A} (p : A → bool) (l : list A) x :
  x ∈ List.filter p l ↔ x ∈ l ∧ p x = true.
Proof. rewrite !list_elem_of_In. apply filter_In. Qed.

Lemma filter_Permutation {A} (p : A → bool) (l1 l2 : list A) :
  l1 ≡ₚ l2 → List.filter p l1 ≡ₚ List.filter p l2.
Proof.
  induction 1 as [|x l1 l2 _ IH|x y l|l1 l2 l3 _ IH1 _ IH2]; simpl.
  - done.
  - destruct (p x); by rewrite IH.
  - destruct (p x), (p y); try done. apply Permutation_swap.
  - by rewrite IH1.
Qed.

Lemma filter_none {A} (p : A → bool) (l : list A) :
  (∀ x, x ∈ l → p x = false) → List.filter p l = [].
Proof.
  induction l as [|x l IH]; intros H; simpl; [done|].
  rewrite (H x) by left. apply IH. intros y Hy. apply H. by right.
Qed.

Lemma hasDate_toJS D e : hasDate D (toJS e) = String.eqb (date e) D.
Proof. reflexivity. Qed.

Lemma filter_hasDate_toJS D (l : list JournalEntry) :
  List.filter (hasDate D) (toJS <$> l)
  = toJS <$> List.filter (λ e, String.eqb (date e) D) l.
Proof.
  induction l as [|e l IH]; [done|].
  rewrite fmap_cons. cbn [List.filter]. rewrite hasDate_toJS, IH.
  by destruct (String.eqb (date e) D).
Qed.

(** A value under a stored date collides. *)
Lemma hasDate_collides savedEntries D v :
  D ∈ date <$> savedEntries → hasDate D v = true → collides savedEntries v = true.
Proof.
  unfold hasDate, collides. intros HD.
  destruct (get_date v) as [[]|]; try discriminate.
  intros ->%String.eqb_eq. by apply bool_decide_eq_true.
Qed.

(** A value under a date that is not stored does not collide. *)
Lemma hasDate_fresh savedEntries D v :
  D ∉ date <$> savedEntries → hasDate D v = true → collides savedEntries v = false.
Proof.
  unfold hasDate, collides. intros HD.
  destruct (get_date v) as [[]|]; try discriminate.
  intros ->%String.eqb_eq. by apply bool_decide_eq_false.
Qed.

Lemma timeOf_toJS e : timeOf (toJS e) = Date_getTime (JSString (date e)).
Proof. reflexivity. Qed.

(** *** Import *)


(** C10.  Import looks for duplicates only among the stored dates, not
    within the payload: when two or more entries of the payload share a date
    [D] that no stored entry has, all of them are added, and the store
    after the import holds as many entries under [D] as the payload, so
    more than one. *)
Theorem importData_keeps_payload_duplicates savedEntries fileText importedData items D :
  JSON_parse fileText = Some importedData →
  get_entries importedData = Normal (JSArray items) →
  Forall (λ v, readable v = true) items →
  D ∉ date <$> savedEntries →
  (2 <= length (List.filter (hasDate D) items))%nat →
  ∃ mergedEntries written imported skipped,
    importData savedEntries fileText = Imported mergedEntries written imported skipped ∧
    (∀ v, v ∈ items → hasDate D v = true → v ∈ mergedEntries) ∧
    List.filter (hasDate D) mergedEntries ≡ₚ List.filter (hasDate D) items ∧
    (2 <= length (List.filter (hasDate D) mergedEntries))%nat.
Proof.
  intros Hparse Hentries Hitems HD Htwo.
  destruct (importData_readable savedEntries _ _ _ Hparse Hentries Hitems) as [Hout Hperm].
  set (merged := Array_sort byDate ((toJS <$> savedEntries) ++ newItems savedEntries items))
    in *.
  assert (Hsame : List.filter (hasDate D) merged ≡ₚ List.filter (hasDate D) items).
  { rewrite (filter_Permutation _ _ _ Hperm), List.filter_app, filter_hasDate_toJS.
    rewrite (filter_none (λ e, String.eqb (date e) D)).
    - simpl. unfold newItems. clear -HD.
      induction items as [|v items IH]; simpl; [done|].
      destruct (hasDate D v) eqn:Hv.
      + rewrite (hasDate_fresh _ _ _ HD Hv). simpl. rewrite Hv. by f_equiv.
      + destruct (negb (collides savedEntries v)); simpl; [rewrite Hv|]; done.
    - intros e He. apply String.eqb_neq. intros <-. apply HD. by apply list_elem_of_fmap_2. }
  eexists merged, _, _, _. repeat apply conj; [exact Hout| |done|].
  - intros v Hv HDv. rewrite Hperm. apply elem_of_app. right.
    apply filter_elem_of. split; [done|]. by rewrite (hasDate_fresh _ D).
  - by rewrite Hsame.
Qed.

(** C5.  A file that is not JSON, or whose value is not an object with an
    [entries] property that is an array, is rejected: the [try] block throws
    at the parse, at the read of [entries] or at the format check, all
    before the merge, and the store is left as it was. *)
Theorem importData_rejects_bad_format savedEntries fileText :
  JSON_parse fileText = None ∨
  (∃ importedData, JSON_parse fileText = Some importedData ∧
                   hasEntriesArray importedData = false) →
  (tryImport savedEntries fileText = Throw SyntaxError ∨
   tryImport savedEntries fileText = Throw TypeError ∨
   tryImport savedEntries fileText = Throw (Error "Invalid file format")) ∧
  importData savedEntries fileText = ImportFailed ∧
  afterImport savedEntries (importData savedEntries fileText) = toJS <$> savedEntries.
Proof.
  intros Hbad.
  assert (Hthrow : tryImport savedEntries fileText = Throw SyntaxError ∨
                   tryImport savedEntries fileText = Throw TypeError ∨
                   tryImport savedEntries fileText = Throw (Error "Invalid file format")).
  { unfold Store.tryImport, parseJSON.
    destruct Hbad as [-> | (importedData & -> & Hshape)]; [by left|]. simpl.
    destruct importedData as [| |b|n|s|l|props|]; simpl; auto.
    simpl in Hshape.
    destruct (ownProp "entries" props) as [| |b|n|s|l|props'|]; simpl; try discriminate; auto.
    - destruct b; auto.
    - destruct (Qeq_bool n 0); auto.
    - destruct (String.eqb s ""); auto. }
  split; [done|].
  assert (Hfail : importData savedEntries fileText = ImportFailed).
  { unfold Store.importData. by destruct Hthrow as [-> | [-> | ->]]. }
  by rewrite Hfail.
Qed.

(** The format check lets through exactly the values [hasEntriesArray]
    describes. *)
Lemma format_check_passes importedData :
  hasEntriesArray importedData = true ↔
  ∃ items, get_entries importedData = Normal (JSArray items).
Proof.
  split.
  - destruct importedData as [| |b|n|s|l|props|]; simpl; try discriminate.
    destruct (ownProp "entries" props); simpl; try discriminate. eauto.
  - intros [items H]. destruct importedData as [| |b|n|s|l|props|]; simpl in *; try discriminate.
    injection H as ->. done.
Qed.

(** An [entries] array with an element whose [date] cannot be read
    ([null]) makes the import fail as well. *)
Lemma importData_unreadable_entry savedEntries fileText importedData items v :
  JSON_parse fileText = Some importedData →
  get_entries importedData = Normal (JSArray items) →
  v ∈ items → readable v = false →
  importData savedEntries fileText = ImportFailed.
Proof.
  intros Hparse Hentries Hv Hnull.
  unfold Store.importData, Store.tryImport, parseJSON.
  rewrite Hparse. simpl. rewrite Hentries. simpl.
  edestruct (filterC_throws
    (λ entry, d ← get_date entry;
       Normal (negb (Set_has (list_to_set (date <$> savedEntries)) d))) items v)
    as [e' He']; [done| |].
  - rewrite (get_date_unreadable _ Hnull). reflexivity.
  - cbv zeta in He' |- *. by rewrite He'.
Qed.

(** C6.  Exporting a store and importing the exported file into an empty
    store gives a store with exactly the exported entries, possibly in
    another order, whatever the export date and count in the file: all
    are counted as imported, none as skipped.  The file is read back by a
    [JSON.parse] that inverts [JSON.stringify] on the exported document. *)
Theorem export_import_roundtrip savedEntries exportDate fileDate :
  JSON_parse (content (exportData exportDate fileDate savedEntries))
  = Some (dataToExport exportDate savedEntries) →
  ∃ mergedEntries written,
    importData [] (content (exportData exportDate fileDate savedEntries))
    = Imported mergedEntries written (length savedEntries) 0 ∧
    mergedEntries ≡ₚ toJS <$> savedEntries ∧
    length mergedEntries = length savedEntries.
Proof.
  intros Hparse.
  assert (Hread : Forall (λ v, readable v = true) (toJS <$> savedEntries)).
  { apply Forall_forall. by intros v (e & -> & _)%list_elem_of_fmap. }
  destruct (importData_readable [] _ _ (toJS <$> savedEntries) Hparse eq_refl Hread)
    as [Hout Hperm].
  assert (Hall : newItems [] (toJS <$> savedEntries) = toJS <$> savedEntries).
  { unfold newItems. clear. induction savedEntries as [|e l IH]; [done|].
    rewrite fmap_cons. cbn [List.filter]. unfold collides at 1.
    rewrite ownProp_date_toJS. simpl. by rewrite IH. }
  rewrite Hall in Hout, Hperm. simpl in Hperm.
  rewrite length_fmap, Nat.sub_diag in Hout.
  eexists _, _. repeat apply conj; [exact Hout|done|].
  by rewrite Hperm, length_fmap.
Qed.

(** *** Upsert *)

Lemma findIndex_Some {A} (p : A → bool) (l : list A) i :
  findIndex p l = Some i ↔
  ∃ x, l !! i = Some x ∧ p x = true ∧ ∀ j y, l !! j = Some y → (j < i)%nat → p y = false.
Proof.
  unfold findIndex. split.
  - destruct (list_find _ l) as [[i' x]|] eqn:Hfind; [|discriminate].
    simpl. intros [= <-]. apply list_find_Some in Hfind as (Hi & Hx & Hbefore).
    exists x. repeat split; [done..|]. intros j y Hj Hlt.
    apply not_true_is_false. by apply (Hbefore j y).
  - intros (x & Hi & Hx & Hbefore).
    assert (list_find (λ x, p x = true) l = Some (i, x)) as ->; [|done].
    apply list_find_Some. repeat split; [done..|]. intros j y Hj Hlt.
    by rewrite (Hbefore j y Hj Hlt).
Qed.

Lemma findIndex_None {A} (p : A → bool) (l : list A) :
  findIndex p l = None ↔ ∀ x, x ∈ l → p x = false.
Proof.
  unfold findIndex. rewrite fmap_None, list_find_None, Forall_forall.
  split; intros H x Hx; [apply not_true_is_false | rewrite (H x Hx)]; auto.
Qed.

(** [findIndex] finds an entry under the date exactly when the date is a
    stored one. *)
Lemma findIndex_date (savedEntries : list JournalEntry) D :
  D ∈ date <$> savedEntries ↔
  is_Some (findIndex (λ e, String.eqb (date e) D) savedEntries).
Proof.
  split.
  - intros (e & -> & He)%list_elem_of_fmap.
    destruct (findIndex _ savedEntries) eqn:Hfind; [done|].
    pose proof (proj1 (findIndex_None _ _) Hfind e He) as Hne. simpl in Hne.
    by rewrite String.eqb_refl in Hne.
  - intros [i (e & Hi & He & _)%findIndex_Some].
    apply String.eqb_eq in He as <-.
    apply list_elem_of_fmap_2. by apply list_elem_of_lookup_2 in Hi.
Qed.

Lemma withTimestamp_date entry now : date (withTimestamp entry now) = date entry.
Proof. reflexivity. Qed.

Lemma withTimestamp_timestamp entry now : timestamp (withTimestamp entry now) = now.
Proof. reflexivity. Qed.

(** The saved entry differs from the working entry in the timestamp only:
    putting the old timestamp back gives the working entry. *)
Lemma withTimestamp_restore entry now :
  withTimestamp (withTimestamp entry now) (timestamp entry) = entry.
Proof. by destruct entry. Qed.

(** A save under a stored date, confirmed: the first entry under that date
    is replaced where it stands. *)
Lemma saveEntry_existing savedEntries entry now :
  date entry ∈ date <$> savedEntries →
  ∃ i old,
    savedEntries !! i = Some old ∧ date old = date entry ∧
    (∀ j e, savedEntries !! j = Some e → (j < i)%nat → date e ≠ date entry) ∧
    saveEntry entry now true savedEntries
    = Saved (<[i := withTimestamp entry now]> savedEntries)
            (JSON_stringify (entriesJSON (<[i := withTimestamp entry now]> savedEntries)) 0) ∧
    saveEntry entry now false savedEntries = Declined.
Proof.
  intros [i Hfind]%findIndex_date.
  pose proof Hfind as (old & Hi & Hold & Hbefore)%findIndex_Some.
  exists i, old. repeat apply conj.
  - done.
  - by apply String.eqb_eq.
  - intros j e Hj Hlt. apply String.eqb_neq. by apply (Hbefore j e).
  - unfold Store.saveEntry. by rewrite Hfind.
  - unfold Store.saveEntry. by rewrite Hfind.
Qed.

(** A save under a date that is not stored: the entry is appended, and the
    overwrite question is not asked. *)
Lemma saveEntry_fresh savedEntries entry now confirmOverwrite :
  date entry ∉ date <$> savedEntries →
  saveEntry entry now confirmOverwrite savedEntries
  = Saved (savedEntries ++ [withTimestamp entry now])
          (JSON_stringify (entriesJSON (savedEntries ++ [withTimestamp entry now])) 0).
Proof.
  intros Hfresh. unfold Store.saveEntry.
  destruct (findIndex _ savedEntries) eqn:Hfind; [|done].
  destruct Hfresh. apply findIndex_date. by rewrite Hfind.
Qed.

(** One save keeps the dates of the store distinct. *)
Lemma saveEntry_NoDup savedEntries entry now confirmOverwrite :
  NoDup (date <$> savedEntries) →
  NoDup (date <$> afterSave savedEntries (saveEntry entry now confirmOverwrite savedEntries)).
Proof.
  intros Hnodup.
  destruct (decide (date entry ∈ date <$> savedEntries)) as [Hin|Hfresh].
  - destruct (saveEntry_existing _ _ now Hin) as (i & old & Hi & Hold & _ & Hyes & Hno).
    destruct confirmOverwrite; [rewrite Hyes | rewrite Hno]; simpl; [|done].
    rewrite list_fmap_insert, withTimestamp_date, <- Hold.
    rewrite list_insert_id; [done|]. by rewrite list_lookup_fmap, Hi.
  - rewrite (saveEntry_fresh _ _ _ _ Hfresh). simpl.
    rewrite fmap_app. simpl. apply NoDup_app. repeat split; [done| |apply NoDup_singleton].
    intros D HD ->%list_elem_of_singleton. by apply Hfresh.
Qed.

(** C2.  Starting from a store without two entries under one date, no run of
    saves produces such a store.  A save under a stored date replaces the
    entry under that date where it stands, if the overwrite is confirmed,
    and leaves the store alone if it is declined; a save under a new date
    appends one entry. *)
Theorem saveEntry_no_duplicate_dates savedEntries :
  NoDup (date <$> savedEntries) →
  (∀ steps, NoDup (date <$> saveAll steps savedEntries)) ∧
  (∀ entry now, date entry ∈ date <$> savedEntries →
     ∃ i old, savedEntries !! i = Some old ∧ date old = date entry ∧
       afterSave savedEntries (saveEntry entry now true savedEntries)
       = <[i := withTimestamp entry now]> savedEntries ∧
       afterSave savedEntries (saveEntry entry now false savedEntries) = savedEntries) ∧
  (∀ entry now confirmOverwrite, date entry ∉ date <$> savedEntries →
     afterSave savedEntries (saveEntry entry now confirmOverwrite savedEntries)
     = savedEntries ++ [withTimestamp entry now]).
Proof.
  intros Hnodup. repeat apply conj.
  - intros steps. revert savedEntries Hnodup.
    induction steps as [|[[entry now] confirmOverwrite] steps IH]; intros saved Hnodup; [done|].
    apply IH. by apply saveEntry_NoDup.
  - intros entry now Hin.
    destruct (saveEntry_existing _ _ now Hin) as (i & old & Hi & Hold & _ & -> & ->).
    by exists i, old.
  - intros entry now c Hfresh. by rewrite (saveEntry_fresh _ _ _ _ Hfresh).
Qed.

(** C3, as amended.  In a store that holds exactly one entry under the date
    of the working entry, a confirmed save leaves exactly one entry under
    that date; it is the working entry with the new timestamp and nothing
    else changed; it stands where the old entry stood; every other position
    of the store is as before. *)
Theorem saveEntry_overwrite savedEntries entry now old :
  List.filter (λ e, String.eqb (date e) (date entry)) savedEntries = [old] →
  ∃ i newEntries written,
    saveEntry entry now true savedEntries = Saved newEntries written ∧
    savedEntries !! i = Some old ∧
    newEntries !! i = Some (withTimestamp entry now) ∧
    withTimestamp (withTimestamp entry now) (timestamp entry) = entry ∧
    timestamp (withTimestamp entry now) = now ∧
    List.filter (λ e, String.eqb (date e) (date entry)) newEntries
    = [withTimestamp entry now] ∧
    length newEntries = length savedEntries ∧
    (∀ j, j ≠ i → newEntries !! j = savedEntries !! j).
Proof.
  intros Honce.
  assert (Hold : old ∈ savedEntries ∧ String.eqb (date old) (date entry) = true).
  { apply (filter_elem_of (λ e, String.eqb (date e) (date entry))).
    rewrite Honce. by left. }
  destruct Hold as [Hin Hold]. apply String.eqb_eq in Hold.
  assert (Hstored : date entry ∈ date <$> savedEntries).
  { rewrite <- Hold. by apply list_elem_of_fmap_2. }
  destruct (saveEntry_existing _ _ now Hstored) as (i & x & Hi & Hx & Hbefore & Hyes & _).
  assert (Hlt : (i < length savedEntries)%nat) by by eapply lookup_lt_Some.
  assert (Hsplit : savedEntries = take i savedEntries ++ x :: drop (S i) savedEntries)
    by by rewrite take_drop_middle.
  assert (Hhead : List.filter (λ e, String.eqb (date e) (date entry)) (take i savedEntries) = []).
  { apply filter_none. intros e (j & Hj)%list_elem_of_lookup_1.
    apply String.eqb_neq. apply lookup_take_Some in Hj as [Hj Hji]. by apply (Hbefore j e). }
  rewrite Hsplit, List.filter_app, Hhead in Honce. simpl in Honce.
  rewrite Hx, String.eqb_refl in Honce. injection Honce as -> Htail.
  eexists i, (<[i := withTimestamp entry now]> savedEntries), _.
  repeat apply conj.
  - exact Hyes.
  - done.
  - by apply list_lookup_insert_eq.
  - apply withTimestamp_restore.
  - done.
  - rewrite insert_take_drop by done.
    rewrite List.filter_app, Hhead. simpl.
    by rewrite String.eqb_refl, Htail.
  - apply length_insert.
  - intros j Hj. by apply list_lookup_insert_ne.
Qed.

(** A store without duplicate dates holds exactly one entry under each of
    its dates. *)
Lemma NoDup_date_once savedEntries D :
  NoDup (date <$> savedEntries) → D ∈ date <$> savedEntries →
  ∃ old, List.filter (λ e, String.eqb (date e) D) savedEntries = [old].
Proof.
  induction savedEntries as [|e l IH]; simpl; intros Hnodup HD.
  - by apply elem_of_nil in HD.
  - apply NoDup_cons in Hnodup as [He Hl].
    destruct (String.eqb (date e) D) eqn:HeD.
    + apply String.eqb_eq in HeD as <-. exists e. f_equal.
      apply filter_none. intros e' He'. apply String.eqb_neq. intros Heq.
      apply He. rewrite <- Heq. by apply list_elem_of_fmap_2.
    + apply IH; [done|]. apply elem_of_cons in HD as [->|HD]; [|done].
      by rewrite String.eqb_refl in HeD.
Qed.

(** *** Load *)

(** Stored text that is not JSON makes the mount effect throw. *)
Lemma load_malformed text savedTheme :
  text ≠ "" → JSON_parse text = None →
  load (Some text) savedTheme = Throw SyntaxError.
Proof.
  intros Hne Hparse. unfold Store.load, parseJSON. simpl.
  destruct (String.eqb_spec text ""); [done|]. simpl. by rewrite Hparse.
Qed.

(** Stored text that is JSON becomes the store, whatever value it is. *)
Lemma load_any_value text savedTheme v :
  text ≠ "" → JSON_parse text = Some v →
  ∃ isDarkMode, load (Some text) savedTheme = Normal (v, isDarkMode).
Proof.
  intros Hne Hparse. unfold Store.load, parseJSON. simpl.
  destruct (String.eqb_spec text ""); [done|]. simpl. rewrite Hparse. simpl. eauto.
Qed.

(** With nothing stored the store stays empty and the theme dark. *)
Lemma load_absent : load None None = Normal (JSArray [], true).
Proof. reflexivity. Qed.

End WithRuntime.
End StoreFacts.

(** ** The stats engine *)

Module StatsFacts.
Import Stats.

Section Arithmetic.

Variable double : Q → Q.

(** What the statements need of the rounding to doubles: it respects
    equality of rationals, it leaves the integers up to 2^53 as they are,
    and in the range from 2^-64 to 2^64 its relative error is at most
    2^-53. *)
Hypothesis double_proper : ∀ x y : Q, (x == y)%Q → (double x == double y)%Q.
Hypothesis double_integer :
  ∀ z : Z, Z.abs z <= 2 ^ 53 → (double (inject_Z z) == inject_Z z)%Q.
Hypothesis double_accurate :
  ∀ x : Q, (1 # 2 ^ 64 <= x)%Q → (x <= inject_Z (2 ^ 64))%Q →
           (Qabs (double x - x) <= x * (1 # 2 ^ 53))%Q.

Local Abbreviation percent := (Stats.percent double).
Local Abbreviation getProductivityStats := (Stats.getProductivityStats double).
Local Abbreviation average1 := (Stats.average1 double).
Local Abbreviation ratingAverages := (Stats.ratingAverages double).
Local Abbreviation roundedToTenth := (Stats.roundedToTenth double).
Local Abbreviation insights := (Stats.insights double).

Lemma double_zero : (double 0 == 0)%Q.
Proof. apply (double_integer 0). done. Qed.

Lemma Math_round_comp x y : (x == y)%Q → Math_round x = Math_round y.
Proof. intros H. unfold Math_round. apply Qfloor_comp. by rewrite H. Qed.

Lemma Math_round_integer z : Math_round (inject_Z z) = z.
Proof.
  unfold Math_round.
  pose proof (Qfloor_le (inject_Z z + (1 # 2))) as Hle.
  pose proof (Qlt_floor (inject_Z z + (1 # 2))) as Hlt.
  set (f := Qfloor (inject_Z z + (1 # 2))) in *.
  assert (Hf : (inject_Z f <= inject_Z z + (1 # 2))%Q) by exact Hle.
  assert (Hf' : (inject_Z z + (1 # 2) < inject_Z (f + 1))%Q) by exact Hlt.
  rewrite inject_Z_plus in Hf'. change (inject_Z 1) with 1%Q in Hf'.
  assert (f < z + 1).
  { rewrite Zlt_Qlt, inject_Z_plus. change (inject_Z 1) with 1%Q. lra. }
  assert (z < f + 1).
  { rewrite Zlt_Qlt, inject_Z_plus. change (inject_Z 1) with 1%Q. lra. }
  lia.
Qed.

Lemma Math_round_bounds x :
  (inject_Z (Math_round x) <= x + (1 # 2))%Q ∧
  (x + (1 # 2) < inject_Z (Math_round x) + 1)%Q.
Proof.
  unfold Math_round. split; [apply Qfloor_le|].
  rewrite <- (inject_Z_plus _ 1). apply Qlt_floor.
Qed.

Lemma inject_nat_pos n : (0 < n)%nat → (0 < Number_of_nat n)%Q.
Proof.
  intros H. unfold Number_of_nat. change 0%Q with (inject_Z 0).
  rewrite <- Zlt_Qlt. lia.
Qed.

(** The arithmetic behind "nearest": a value [R] within [1/2] of [p],
    itself within 2^-34 of [x], is within [1/2 + 1/(4 T)] of [x] for every
    [T] below 2^32. *)
Lemma close_to_half (p x R T : Q) :
  (0 < T)%Q → (T < 4294967296)%Q →
  (- (1 # 17179869184) <= p - x)%Q → (p - x <= 1 # 17179869184)%Q →
  (R <= p + (1 # 2))%Q → (p + (1 # 2) < R + 1)%Q →
  (2 * R * T <= 2 * (x * T) + T + (1 # 2))%Q ∧
  (2 * (x * T) - T - (1 # 2) <= 2 * R * T)%Q.
Proof.
  intros HT HT32 Hp1 Hp2 Hlo Hhi.
  assert (0 <= (p + (1 # 2) - R) * T)%Q by nra.
  assert (0 <= ((1 # 17179869184) - (p - x)) * T)%Q by nra.
  assert (0 <= (R + 1 - (p + (1 # 2))) * T)%Q by nra.
  assert (0 <= ((p - x) + (1 # 17179869184)) * T)%Q by nra.
  split; nra.
Qed.

(** An integer is nearest to the quotient [n / t] once it is within [1/2]
    of a value that close to the quotient: the quotient is a multiple of
    [1 / t], and no such multiple lies strictly between a half-integer and
    a point less than [1 / (2 t)] away from it. *)
Lemma nearest_of_close (r n t : Z) (p : Q) :
  0 < t → t < 2 ^ 32 →
  (Qabs (p - inject_Z n / inject_Z t) <= 1 # 17179869184)%Q →
  (inject_Z r <= p + (1 # 2))%Q → (p + (1 # 2) < inject_Z r + 1)%Q →
  nearestInteger r (inject_Z n / inject_Z t).
Proof.
  intros Ht Ht32 Hp Hlo Hhi. unfold nearestInteger.
  assert (HT : (0 < inject_Z t)%Q) by (change 0%Q with (inject_Z 0); by rewrite <- Zlt_Qlt).
  assert (HT32 : (inject_Z t < 4294967296)%Q)
    by (change 4294967296%Q with (inject_Z (2 ^ 32)); by rewrite <- Zlt_Qlt).
  assert (Hx : (inject_Z n / inject_Z t * inject_Z t == inject_Z n)%Q) by (field; lra).
  apply Qabs_Qle_condition in Hp as [Hp1 Hp2].
  destruct (close_to_half _ _ _ _ HT HT32 Hp1 Hp2 Hlo Hhi) as [Hup Hdown].
  rewrite Hx in Hup, Hdown.
  assert (Hup' : 2 * r * t <= 2 * n + t).
  { assert (2 * r * t < 2 * n + t + 1); [|lia].
    rewrite Zlt_Qlt, !inject_Z_plus, !inject_Z_mult.
    change (inject_Z 2) with 2%Q. change (inject_Z 1) with 1%Q. lra. }
  assert (Hdown' : 2 * n - t <= 2 * r * t).
  { assert (2 * n + - t - 1 < 2 * r * t); [|lia].
    rewrite Zlt_Qlt. unfold Z.sub.
    rewrite !inject_Z_plus, !inject_Z_opp, !inject_Z_mult.
    change (inject_Z 2) with 2%Q. change (inject_Z 1) with 1%Q. lra. }
  assert (HupQ : (inject_Z (2 * r * t) <= inject_Z (2 * n + t))%Q) by by rewrite <- Zle_Qle.
  assert (HdownQ : (inject_Z (2 * n - t) <= inject_Z (2 * r * t))%Q) by by rewrite <- Zle_Qle.
  unfold Z.sub in HdownQ. rewrite inject_Z_plus, inject_Z_opp in HdownQ.
  rewrite !inject_Z_plus, !inject_Z_mult in HupQ.
  rewrite !inject_Z_mult in HdownQ.
  change (inject_Z 2) with 2%Q in *.
  apply Qabs_Qle_condition.
  revert Hx HupQ HdownQ HT. clear.
  set (x := (inject_Z n / inject_Z t)%Q).
  generalize x (inject_Z r) (inject_Z t) (inject_Z n). clear.
  intros x R T N Hx Hup Hdown HT.
  assert (R * T <= (x + (1 # 2)) * T)%Q by nra.
  assert ((x - (1 # 2)) * T <= R * T)%Q by nra.
  split; nra.
Qed.

(** [double_accurate] with its constants written out. *)
Lemma double_error x :
  (1 # 18446744073709551616 <= x)%Q → (x <= 18446744073709551616)%Q →
  (- (x * (1 # 9007199254740992)) <= double x - x)%Q ∧
  (double x - x <= x * (1 # 9007199254740992))%Q.
Proof.
  intros Hlo Hhi. apply Qabs_Qle_condition.
  exact (double_accurate x Hlo Hhi).
Qed.

Lemma double_of_zero x : (x == 0)%Q → (double x == 0)%Q.
Proof. intros H. rewrite (double_proper _ _ H). apply double_zero. Qed.

(** *** Task statistics *)

(** [percent part whole] is an integer nearest to the percentage. *)
Lemma percent_nearest (part whole : nat) :
  (0 < whole)%nat → (part <= whole)%nat → Z.of_nat whole < 2 ^ 32 →
  nearestInteger (percent part whole)
                 (inject_Z (100 * Z.of_nat part) / inject_Z (Z.of_nat whole)).
Proof.
  intros Hpos Hle H32. unfold Stats.percent, Number_mul, Number_div, Number_of_nat.
  set (C := inject_Z (Z.of_nat part)). set (T := inject_Z (Z.of_nat whole)).
  assert (HT : (0 < T)%Q) by (subst T; change 0%Q with (inject_Z 0); rewrite <- Zlt_Qlt; lia).
  assert (HT32 : (T < 4294967296)%Q)
    by (subst T; change 4294967296%Q with (inject_Z (2 ^ 32)); by rewrite <- Zlt_Qlt).
  assert (HC0 : (0 <= C)%Q) by (subst C; change 0%Q with (inject_Z 0); rewrite <- Zle_Qle; lia).
  assert (HCT : (C <= T)%Q) by (subst C T; rewrite <- Zle_Qle; lia).
  assert (Hq : (C / T * T == C)%Q) by (field; lra).
  assert (Hn : (inject_Z (100 * Z.of_nat part) / T == 100 * (C / T))%Q).
  { rewrite inject_Z_mult. fold C. change (inject_Z 100) with 100%Q. field. lra. }
  destruct (Math_round_bounds (double (double (C / T) * 100))) as [Hlo Hhi].
  apply (nearest_of_close _ _ _ (double (double (C / T) * 100))); [lia|done| |done..].
  fold T. rewrite Hn.
  destruct (decide (part = 0%nat)) as [->|Hpart].
  - assert (Hz : (C / T == 0)%Q) by (unfold Qdiv; apply Qmult_0_l).
    assert (Hz' : (double (C / T) * 100 == 0)%Q) by (rewrite (double_of_zero _ Hz); lra).
    rewrite (double_of_zero _ Hz'), Hz. done.
  - assert (HC1 : (1 <= C)%Q) by (subst C; change 1%Q with (inject_Z 1); rewrite <- Zle_Qle; lia).
    revert Hq. generalize (C / T)%Q. intros q Hq.
    assert (Hq0 : (1 # 4294967296 <= q)%Q) by nra.
    assert (Hq1 : (q <= 1)%Q) by nra.
    destruct (double_error q) as [Hd1 Hd2]; [lra..|].
    destruct (double_error (double q * 100)) as [He1 He2]; [lra..|].
    apply Qabs_Qle_condition. split; lra.
Qed.

Lemma percent_of_nothing (whole : nat) : percent 0 whole = 0.
Proof.
  unfold Stats.percent, Number_mul, Number_div, Number_of_nat.
  rewrite <- (Math_round_integer 0). apply Math_round_comp.
  apply double_of_zero.
  assert (H : (double (inject_Z (Z.of_nat 0) / inject_Z (Z.of_nat whole)) == 0)%Q).
  { apply double_of_zero. unfold Qdiv. apply Qmult_0_l. }
  rewrite H. apply Qmult_0_l.
Qed.

Lemma percent_of_all (whole : nat) :
  (0 < whole)%nat → Z.of_nat whole < 2 ^ 32 → percent whole whole = 100.
Proof.
  intros Hpos H32. unfold Stats.percent, Number_mul, Number_div, Number_of_nat.
  rewrite <- (Math_round_integer 100). apply Math_round_comp.
  assert (HT : (0 < inject_Z (Z.of_nat whole))%Q)
    by (change 0%Q with (inject_Z 0); rewrite <- Zlt_Qlt; lia).
  assert (H1 : (double (inject_Z (Z.of_nat whole) / inject_Z (Z.of_nat whole)) == 1)%Q).
  { rewrite (double_proper _ (inject_Z 1)); [by apply double_integer|]. simpl. field. lra. }
  rewrite (double_proper _ (inject_Z 100)); [by apply double_integer|].
  rewrite H1. reflexivity.
Qed.

(** A percentage lies between 0 and 100. *)
Lemma percent_range (part whole : nat) :
  (0 < whole)%nat → (part <= whole)%nat → Z.of_nat whole < 2 ^ 32 →
  0 <= percent part whole <= 100.
Proof.
  intros Hpos Hle H32.
  pose proof (percent_nearest part whole Hpos Hle H32) as Hnear.
  unfold nearestInteger in Hnear. apply Qabs_Qle_condition in Hnear as [H1 H2].
  set (r := percent part whole) in *.
  assert (HT : (0 < inject_Z (Z.of_nat whole))%Q)
    by (change 0%Q with (inject_Z 0); rewrite <- Zlt_Qlt; lia).
  assert (HC0 : (0 <= inject_Z (Z.of_nat part))%Q)
    by (change 0%Q with (inject_Z 0); rewrite <- Zle_Qle; lia).
  assert (HCT : (inject_Z (Z.of_nat part) <= inject_Z (Z.of_nat whole))%Q)
    by (rewrite <- Zle_Qle; lia).
  rewrite inject_Z_mult in H1, H2. change (inject_Z 100) with 100%Q in *.
  assert (Hq : (inject_Z (Z.of_nat part) / inject_Z (Z.of_nat whole)
                * inject_Z (Z.of_nat whole) == inject_Z (Z.of_nat part))%Q) by (field; lra).
  assert (Hx : (100 * inject_Z (Z.of_nat part) / inject_Z (Z.of_nat whole)
                == 100 * (inject_Z (Z.of_nat part) / inject_Z (Z.of_nat whole)))%Q)
    by (field; lra).
  rewrite Hx in H1, H2.
  revert Hq H1 H2. generalize (inject_Z (Z.of_nat part) / inject_Z (Z.of_nat whole))%Q.
  intros q Hq H1 H2.
  assert (0 <= q)%Q by nra. assert (q <= 1)%Q by nra.
  split.
  - assert (-1 < r); [|lia]. rewrite Zlt_Qlt. change (inject_Z (-1)) with (-1)%Q. lra.
  - assert (r < 101); [|lia]. rewrite Zlt_Qlt. change (inject_Z 101) with 101%Q. lra.
Qed.

Lemma filter_and_length {A} (p q : A → bool) (l : list A) :
  (length (List.filter (λ x, p x && q x) l) <= length (List.filter p l))%nat.
Proof.
  induction l as [|x l IH]; simpl; [done|].
  destruct (p x), (q x); simpl; lia.
Qed.

(** An integer nearest to [x] is [Math.round] of [x], the nearest integer
    with ties upwards, unless [x] lies half-way between two integers; then
    it can be the integer below as well. *)
Lemma nearest_Math_round (r : Z) (x : Q) :
  nearestInteger r x → r = Math_round x ∨ (r = Math_round x - 1 ∧ halfway x).
Proof.
  unfold nearestInteger. intros [H1 H2]%Qabs_Qle_condition.
  destruct (Math_round_bounds x) as [Hlo Hhi].
  set (m := Math_round x) in *.
  assert (Hup : r < m + 1).
  { rewrite Zlt_Qlt, inject_Z_plus. change (inject_Z 1) with 1%Q. lra. }
  assert (Hdown : m - 2 < r).
  { rewrite Zlt_Qlt. unfold Z.sub. rewrite inject_Z_plus.
    change (inject_Z (- (2))) with (-2)%Q. lra. }
  destruct (decide (r = m)) as [->|Hne]; [by left|right].
  assert (Hr : r = m - 1) by lia. split; [done|]. exists r.
  assert (Hm : (inject_Z m == inject_Z r + 1)%Q).
  { rewrite Hr. unfold Z.sub. rewrite inject_Z_plus.
    change (inject_Z (- (1))) with (-1)%Q. lra. }
  lra.
Qed.

(** A percentage in terms of rounding: it is [Math.round] of the exact
    percentage, except that on an exact percentage half-way between two
    integers it can be the integer below. *)
Lemma percent_round (part whole : nat) :
  (0 < whole)%nat → (part <= whole)%nat → Z.of_nat whole < 2 ^ 32 →
  let x := (inject_Z (100 * Z.of_nat part) / inject_Z (Z.of_nat whole))%Q in
  nearestInteger (percent part whole) x ∧
  (¬ halfway x → percent part whole = Math_round x) ∧
  (halfway x → percent part whole = Math_round x ∨ percent part whole = Math_round x - 1).
Proof.
  intros Hpos Hle H32 x.
  pose proof (percent_nearest part whole Hpos Hle H32) as Hnear. fold x in Hnear.
  split; [done|].
  destruct (nearest_Math_round _ _ Hnear) as [Heq|[Heq Hhalf]].
  - split; [done|]. by left.
  - split; [done|]. by right.
Qed.

(** C7, as amended.  For an entry (with fewer than 2^32 todos, as every
    array) the statistics count the todos of the entry: all of them, the
    completed ones, those of high priority, and those of high priority
    that are completed.  [completionRate] is 0 when there is no todo and
    otherwise an integer nearest to 100 * completed / total: it is that
    percentage rounded to the nearest integer, except when the percentage
    lies exactly half-way between two integers, where it is the integer
    above or the integer below (the quotient and the product are doubles,
    and their rounding decides).  The same holds of [highPriorityRate] and
    the high-priority counts.  Both rates are integers from 0 to 100, so
    never NaN or undefined.  For the single todo "A", completed and of high
    priority, the statistics are 1, 1, 100, 1, 1, 100. *)
Theorem getProductivityStats_rates entry :
  Z.of_nat (length (todos entry)) < 2 ^ 32 →
  let stats := getProductivityStats entry in
  let percentage (part whole : nat) :=
    (inject_Z (100 * Z.of_nat part) / inject_Z (Z.of_nat whole))%Q in
  (∀ todo, isHigh todo = true ↔ priority todo = high) ∧
  total stats = length (todos entry) ∧
  completedCount stats = length (List.filter completed (todos entry)) ∧
  highPriority stats = length (List.filter isHigh (todos entry)) ∧
  completedHigh stats
  = length (List.filter (λ todo, isHigh todo && completed todo) (todos entry)) ∧
  (total stats = 0%nat → completionRate stats = 0) ∧
  ((0 < total stats)%nat →
   let x := percentage (completedCount stats) (total stats) in
   nearestInteger (completionRate stats) x ∧
   (¬ halfway x → completionRate stats = Math_round x) ∧
   (halfway x →
    completionRate stats = Math_round x ∨ completionRate stats = Math_round x - 1)) ∧
  (highPriority stats = 0%nat → highPriorityRate stats = 0) ∧
  ((0 < highPriority stats)%nat →
   let x := percentage (completedHigh stats) (highPriority stats) in
   nearestInteger (highPriorityRate stats) x ∧
   (¬ halfway x → highPriorityRate stats = Math_round x) ∧
   (halfway x →
    highPriorityRate stats = Math_round x ∨ highPriorityRate stats = Math_round x - 1)) ∧
  0 <= completionRate stats <= 100 ∧
  0 <= highPriorityRate stats <= 100 ∧
  (todos entry = [{| text := "A"; completed := true; priority := high |}] →
   stats = {| total := 1; completedCount := 1; completionRate := 100;
              highPriority := 1; completedHigh := 1; highPriorityRate := 100 |}).
Proof.
  intros H32. unfold Stats.getProductivityStats.
  cbn [total completedCount completionRate highPriority completedHigh highPriorityRate].
  pose proof (List.filter_length_le completed (todos entry)) as Hc.
  pose proof (List.filter_length_le isHigh (todos entry)) as Hh.
  pose proof (filter_and_length isHigh completed (todos entry)) as Hch.
  assert (Hrange1 :
    0 <= (if (0 <? length (todos entry))%nat
          then percent (length (List.filter completed (todos entry))) (length (todos entry))
          else 0) <= 100).
  { destruct (0 <? length (todos entry))%nat eqn:Hpos; [|done].
    apply Nat.ltb_lt in Hpos. by apply percent_range. }
  assert (Hrange2 :
    0 <= (if (0 <? length (List.filter isHigh (todos entry)))%nat
          then percent (length (List.filter (λ todo, isHigh todo && completed todo)
                                            (todos entry)))
                       (length (List.filter isHigh (todos entry)))
          else 0) <= 100).
  { destruct (0 <? length (List.filter isHigh (todos entry)))%nat eqn:Hpos; [|done].
    apply Nat.ltb_lt in Hpos. apply percent_range; [done..|lia]. }
  refine (conj _ (conj eq_refl (conj eq_refl (conj eq_refl (conj eq_refl
            (conj _ (conj _ (conj _ (conj _ (conj Hrange1 (conj Hrange2 _))))))))))).
  - intros todo. unfold isHigh. destruct (priority todo); split; congruence.
  - by intros ->.
  - intros Hpos. rewrite (proj2 (Nat.ltb_lt _ _) Hpos). by apply percent_round.
  - by intros ->.
  - intros Hpos. rewrite (proj2 (Nat.ltb_lt _ _) Hpos). apply percent_round; [done..|lia].
  - intros ->. simpl.
    assert (H11 : percent 1 1 = 100) by (apply percent_of_all; [lia|done]).
    by rewrite H11.
Qed.

(** *** Rating averages *)

Lemma foldl_sum {A} (f : A → Z) (l : list A) (a : Z) :
  foldl (λ sum e, sum + f e) a l = a + sumOf f l.
Proof.
  unfold sumOf. revert a. induction l as [|x l IH]; intros a; simpl; [lia|].
  rewrite IH, (IH (0 + f x)). lia.
Qed.

Lemma sumOf_cons {A} (f : A → Z) x (l : list A) : sumOf f (x :: l) = f x + sumOf f l.
Proof. unfold sumOf at 1. simpl. by rewrite foldl_sum. Qed.

Lemma sumOf_range {A} (f : A → Z) (l : list A) :
  Forall (λ e, 0 <= f e <= 5) l → 0 <= sumOf f l <= 5 * Z.of_nat (length l).
Proof.
  induction 1 as [|x l Hx _ IH]; [done|].
  rewrite sumOf_cons, length_cons. lia.
Qed.

(** An entry is in the averaged population exactly when one of its ratings
    is above 0; for ratings in range that is: other than 0. *)
Lemma isRated_someRating e :
  ratings_in_range e → isRated e = true ↔ someRating e.
Proof.
  unfold ratings_in_range, rating_in_range, isRated, someRating.
  rewrite !orb_true_iff, !Z.ltb_lt. lia.
Qed.

(** [toFixed1] on a number that is not negative. *)
Lemma toFixed1_nonneg x :
  (0 <= x)%Q → toFixed1 x = (Qfloor (x * 10 + (1 # 2)) # 10)%Q.
Proof. intros H. unfold toFixed1. by rewrite (proj2 (Qle_bool_iff 0 x) H). Qed.

(** The mean of values from 0 to 5 over fewer than 2^32 entries, as the
    code computes and rounds it, is a one-decimal number nearest to the
    mean. *)
Lemma average1_rounded (f : JournalEntry → Z) (l : list JournalEntry) :
  (0 < length l)%nat → Z.of_nat (length l) < 2 ^ 32 →
  Forall (λ e, 0 <= f e <= 5) l →
  roundedToTenth (average1 f l) (inject_Z (sumOf f l) / inject_Z (Z.of_nat (length l))).
Proof.
  intros Hpos H32 Hrange. unfold Stats.average1, Number_div, Number_of_nat.
  pose proof (sumOf_range f l Hrange) as [HS0 HS5].
  set (S := sumOf f l) in *. set (L := Z.of_nat (length l)) in *.
  assert (HL : (0 < inject_Z L)%Q) by (change 0%Q with (inject_Z 0); rewrite <- Zlt_Qlt; lia).
  assert (HL32 : (inject_Z L < 4294967296)%Q)
    by (change 4294967296%Q with (inject_Z (2 ^ 32)); by rewrite <- Zlt_Qlt).
  assert (HSQ0 : (0 <= inject_Z S)%Q) by (change 0%Q with (inject_Z 0); by rewrite <- Zle_Qle).
  assert (HSQ5 : (inject_Z S <= 5 * inject_Z L)%Q).
  { change 5%Q with (inject_Z 5). by rewrite <- inject_Z_mult, <- Zle_Qle. }
  assert (Hq : (inject_Z S / inject_Z L * inject_Z L == inject_Z S)%Q) by (field; lra).
  set (q := (inject_Z S / inject_Z L)%Q) in *.
  (* the computed quotient is not negative and within 5 * 2^-53 of [q] *)
  assert (Hq' : (0 <= double q)%Q ∧
                (- (5 # 9007199254740992) <= double q - q)%Q ∧
                (double q - q <= 5 # 9007199254740992)%Q).
  { destruct (decide (S = 0)) as [HS|HS].
    - assert (Hz : (q == 0)%Q) by (unfold q; rewrite HS; unfold Qdiv; apply Qmult_0_l).
      rewrite (double_of_zero _ Hz), Hz. repeat split; lra.
    - assert (HS1 : (1 <= inject_Z S)%Q)
        by (change 1%Q with (inject_Z 1); rewrite <- Zle_Qle; lia).
      assert (Hq0 : (1 # 4294967296 <= q)%Q) by nra.
      assert (Hq5 : (q <= 5)%Q) by nra.
      destruct (double_error q) as [Hd1 Hd2]; [lra..|].
      repeat split; lra. }
  destruct Hq' as (Hnonneg & Herr1 & Herr2).
  rewrite (toFixed1_nonneg _ Hnonneg).
  set (n := Qfloor (double q * 10 + (1 # 2))).
  exists n. split; [done|].
  assert (Hnear : nearestInteger n (inject_Z (10 * S) / inject_Z L)).
  { apply (nearest_of_close _ _ _ (double q * 10)); [lia|done| | |].
    - assert (Hn : (inject_Z (10 * S) / inject_Z L == 10 * q)%Q).
      { rewrite inject_Z_mult. change (inject_Z 10) with 10%Q. unfold q. field. lra. }
      rewrite Hn. apply Qabs_Qle_condition. split; lra.
    - apply Qfloor_le.
    - pose proof (Qlt_floor (double q * 10 + (1 # 2))) as Hlt.
      rewrite inject_Z_plus in Hlt. exact Hlt. }
  unfold nearestInteger in Hnear.
  assert (Hn : (inject_Z (10 * S) / inject_Z L == 10 * q)%Q).
  { rewrite inject_Z_mult. change (inject_Z 10) with 10%Q. unfold q. field. lra. }
  rewrite Hn in Hnear.
  apply Qabs_Qle_condition in Hnear as [H1 H2]. apply Qabs_Qle_condition.
  assert (Hn10 : ((n # 10) == inject_Z n * (1 # 10))%Q).
  { unfold Qeq, Qmult, inject_Z. simpl. lia. }
  rewrite Hn10. split; lra.
Qed.


(** *** Insights *)

Lemma orZero_id x : orZero x = x.
Proof. unfold orZero. destruct (Z.eqb_spec x 0); lia. Qed.

Lemma foldl_ext_Z {A} (f g : Z → A → Z) (l : list A) a :
  (∀ s e, f s e = g s e) → foldl f a l = foldl g a l.
Proof.
  intros Hfg. revert a. induction l as [|x l IH]; intros a; simpl; [done|].
  by rewrite Hfg, IH.
Qed.

Lemma Number_orZero_id x : (Number_orZero x == x)%Q.
Proof.
  unfold Number_orZero. destruct (Qeq_bool x 0) eqn:H; [|reflexivity].
  apply Qeq_bool_iff in H. by rewrite H.
Qed.

(** Ratings from 0 to 5 added one by one as doubles give their exact sum:
    every partial sum is an integer below 2^53. *)
Lemma fold_ratings_exact (g : Q → JournalEntry → Q) (f : JournalEntry → Z)
    (l : list JournalEntry) :
  (∀ a e, (g a e == double (a + inject_Z (f e)))%Q) →
  Forall (λ e, 0 <= f e <= 5) l →
  ∀ (a : Q) (z : Z),
    (a == inject_Z z)%Q → 0 <= z → z + 5 * Z.of_nat (length l) <= 2 ^ 53 →
    (foldl g a l == inject_Z (z + sumOf f l))%Q.
Proof.
  intros Hg. induction 1 as [|x l Hx _ IH]; intros a z Ha Hz Hbound.
  - simpl. unfold sumOf. simpl. by rewrite Z.add_0_r.
  - simpl. rewrite length_cons in Hbound.
    rewrite sumOf_cons, Z.add_assoc. apply IH; [|lia..].
    rewrite Hg. rewrite (double_proper _ (inject_Z (z + f x))).
    + apply double_integer. lia.
    + by rewrite Ha, inject_Z_plus.
Qed.

(** The two averages of the window are the sums of the ratings over the
    window divided by its size: the [|| 0] guards change nothing on
    numbers, and for ratings in their range the additions are exact. *)
Lemma windowAvgMood_mean recentEntries :
  Forall ratings_in_range recentEntries → Z.of_nat (length recentEntries) < 2 ^ 32 →
  (windowAvgMood double recentEntries
   == Number_div double (inject_Z (sumOf (λ e, mood (ratings e)) recentEntries))
                        (Number_of_nat (length recentEntries)))%Q.
Proof.
  intros Hrange H32. unfold windowAvgMood, Number_div. apply double_proper.
  rewrite (fold_ratings_exact _ (λ e, mood (ratings e)) recentEntries) with (z := 0);
    [done| |..|done|done|lia].
  - intros a e. unfold Number_add. by rewrite orZero_id.
  - eapply Forall_impl; [exact Hrange|]. by intros e (_ & _ & _ & H).
Qed.

Lemma windowAvgProductivity_mean recentEntries :
  Forall ratings_in_range recentEntries → Z.of_nat (length recentEntries) < 2 ^ 32 →
  (windowAvgProductivity double recentEntries
   == Number_div double (inject_Z (sumOf (λ e, productivity (ratings e)) recentEntries))
                        (Number_of_nat (length recentEntries)))%Q.
Proof.
  intros Hrange H32. unfold windowAvgProductivity, Number_div. apply double_proper.
  rewrite (fold_ratings_exact _ (λ e, productivity (ratings e)) recentEntries) with (z := 0);
    [done| |..|done|done|lia].
  - intros a e. apply Number_orZero_id.
  - eapply Forall_impl; [exact Hrange|]. by intros e (_ & _ & H & _).
Qed.

Lemma slice_last_length {A} n (l : list A) :
  length (slice_last n l) = (n `min` length l)%nat.
Proof. unfold slice_last. rewrite length_drop. lia. Qed.

Lemma slice_last_suffix {A} n (l : list A) : slice_last n l `suffix_of` l.
Proof. apply suffix_drop. Qed.

(** The messages of the three rating and completion thresholds and of the
    streak, as the code pushes them. *)
Lemma insights_unfold savedEntries :
  savedEntries ≠ [] →
  let recentEntries := slice_last 7 savedEntries in
  let avgMood := windowAvgMood double recentEntries in
  let avgProductivity := windowAvgProductivity double recentEntries in
  let completionRate := windowCompletionRate double recentEntries in
  let fired :=
    (if Qle_bool 4 avgMood then [GreatSpirits]
     else if Qle_bool avgMood 2 then [SelfCare] else [])
    ++ (if Qle_bool 80 completionRate then [ExcellentCompletion]
        else if Qle_bool completionRate 50 then [BreakDownTasks] else [])
    ++ (if Qle_bool 4 avgProductivity then [StrongProductivity] else [])
    ++ (if (7 <=? length savedEntries)%nat then [Streak (length savedEntries)] else []) in
  insights savedEntries = if (length fired =? 0)%nat then [KeepJournaling] else fired.
Proof.
  intros Hne. unfold Stats.insights.
  assert (Hpos : (0 <? length (slice_last 7 savedEntries))%nat = true).
  { apply Nat.ltb_lt. rewrite slice_last_length. destruct savedEntries; [done|simpl; lia]. }
  by rewrite Hpos.
Qed.

Lemma mood_part (m : Q) x :
  x ∈ (if Qle_bool 4 m then [GreatSpirits] else if Qle_bool m 2 then [SelfCare] else [])
  ↔ x = GreatSpirits ∧ (4 <= m)%Q ∨ x = SelfCare ∧ (m <= 2)%Q.
Proof.
  destruct (Qle_bool 4 m) eqn:H4; [apply Qle_bool_iff in H4|];
    (destruct (Qle_bool m 2) eqn:H2; [apply Qle_bool_iff in H2|]);
    rewrite <- ?not_true_iff_false, ?Qle_bool_iff in *;
    rewrite ?elem_of_cons, ?elem_of_nil; intuition (try lra; try discriminate).
Qed.

Lemma completion_part (r : Q) x :
  x ∈ (if Qle_bool 80 r then [ExcellentCompletion]
       else if Qle_bool r 50 then [BreakDownTasks] else [])
  ↔ x = ExcellentCompletion ∧ (80 <= r)%Q ∨ x = BreakDownTasks ∧ (r <= 50)%Q.
Proof.
  destruct (Qle_bool 80 r) eqn:H4; [apply Qle_bool_iff in H4|];
    (destruct (Qle_bool r 50) eqn:H2; [apply Qle_bool_iff in H2|]);
    rewrite <- ?not_true_iff_false, ?Qle_bool_iff in *;
    rewrite ?elem_of_cons, ?elem_of_nil; intuition (try lra; try discriminate).
Qed.

Lemma productivity_part (p : Q) x :
  x ∈ (if Qle_bool 4 p then [StrongProductivity] else [])
  ↔ x = StrongProductivity ∧ (4 <= p)%Q.
Proof.
  destruct (Qle_bool 4 p) eqn:H4; [apply Qle_bool_iff in H4|];
    rewrite <- ?not_true_iff_false, ?Qle_bool_iff in *;
    rewrite ?elem_of_cons, ?elem_of_nil; intuition.
Qed.

Lemma streak_part (days : nat) x :
  x ∈ (if (7 <=? days)%nat then [Streak days] else [])
  ↔ x = Streak days ∧ (7 <= days)%nat.
Proof.
  destruct (7 <=? days)%nat eqn:H7; [apply Nat.leb_le in H7 | apply Nat.leb_gt in H7];
    rewrite ?elem_of_cons, ?elem_of_nil; intuition lia.
Qed.

(** No message is pushed twice. *)
Lemma fired_NoDup (b1 b2 b3 b4 b5 b6 : bool) (days : nat) :
  NoDup ((if b1 then [GreatSpirits] else if b2 then [SelfCare] else [])
         ++ (if b3 then [ExcellentCompletion] else if b4 then [BreakDownTasks] else [])
         ++ (if b5 then [StrongProductivity] else [])
         ++ (if b6 then [Streak days] else [])).
Proof.
  destruct b1, b2, b3, b4, b5, b6; simpl;
    repeat (apply NoDup_cons_2;
            [rewrite ?elem_of_cons, ?elem_of_nil; intuition discriminate|]);
    apply NoDup_nil_2.
Qed.

(** The result of the block, given the messages pushed so far. *)
Lemma default_when_empty (fired : list Insight) x :
  x ∈ (if (length fired =? 0)%nat then [KeepJournaling] else fired)
  ↔ fired = [] ∧ x = KeepJournaling ∨ x ∈ fired.
Proof.
  destruct fired as [|y l]; simpl.
  - rewrite elem_of_cons, !elem_of_nil. intuition.
  - intuition discriminate.
Qed.

(** The messages pushed before the default is considered. *)
Lemma fired_elem_of savedEntries x :
  let recentEntries := slice_last 7 savedEntries in
  let avgMood := windowAvgMood double recentEntries in
  let avgProductivity := windowAvgProductivity double recentEntries in
  let completionRate := windowCompletionRate double recentEntries in
  x ∈ (if Qle_bool 4 avgMood then [GreatSpirits]
       else if Qle_bool avgMood 2 then [SelfCare] else [])
      ++ (if Qle_bool 80 completionRate then [ExcellentCompletion]
          else if Qle_bool completionRate 50 then [BreakDownTasks] else [])
      ++ (if Qle_bool 4 avgProductivity then [StrongProductivity] else [])
      ++ (if (7 <=? length savedEntries)%nat then [Streak (length savedEntries)] else [])
  ↔ (x = GreatSpirits ∧ (4 <= avgMood)%Q ∨ x = SelfCare ∧ (avgMood <= 2)%Q) ∨
    (x = ExcellentCompletion ∧ (80 <= completionRate)%Q ∨
     x = BreakDownTasks ∧ (completionRate <= 50)%Q) ∨
    (x = StrongProductivity ∧ (4 <= avgProductivity)%Q) ∨
    (x = Streak (length savedEntries) ∧ (7 <= length savedEntries)%nat).
Proof.
  cbv zeta.
  by rewrite !elem_of_app, mood_part, completion_part, productivity_part, streak_part.
Qed.

(** The messages of a non-empty store: those whose threshold fires, or the
    default one if the list of those is empty. *)
Lemma insights_elem_of savedEntries x :
  savedEntries ≠ [] →
  let recentEntries := slice_last 7 savedEntries in
  let avgMood := windowAvgMood double recentEntries in
  let avgProductivity := windowAvgProductivity double recentEntries in
  let completionRate := windowCompletionRate double recentEntries in
  x ∈ insights savedEntries ↔
  (x = KeepJournaling ∧
   ¬ (4 <= avgMood)%Q ∧ ¬ (avgMood <= 2)%Q ∧
   ¬ (80 <= completionRate)%Q ∧ ¬ (completionRate <= 50)%Q ∧
   ¬ (4 <= avgProductivity)%Q ∧ ¬ (7 <= length savedEntries)%nat) ∨
  (x = GreatSpirits ∧ (4 <= avgMood)%Q ∨ x = SelfCare ∧ (avgMood <= 2)%Q) ∨
  (x = ExcellentCompletion ∧ (80 <= completionRate)%Q ∨
   x = BreakDownTasks ∧ (completionRate <= 50)%Q) ∨
  (x = StrongProductivity ∧ (4 <= avgProductivity)%Q) ∨
  (x = Streak (length savedEntries) ∧ (7 <= length savedEntries)%nat).
Proof.
  intros Hne recentEntries avgMood avgProductivity completionRate.
  rewrite (insights_unfold savedEntries Hne). cbv zeta.
  fold recentEntries. fold avgMood. fold avgProductivity. fold completionRate.
  pose proof (fired_elem_of savedEntries) as Hfired. cbv zeta in Hfired.
  fold recentEntries in Hfired. fold avgMood in Hfired.
  fold avgProductivity in Hfired. fold completionRate in Hfired.
  set (fired := _ ++ _ ++ _ ++ _) in *.
  rewrite default_when_empty, Hfired.
  split.
  - intros [[Hnil ->]|Hx]; [left|by right].
    split; [done|].
    repeat apply conj; intros Hfire.
    + assert (GreatSpirits ∈ fired) as Hin by (apply Hfired; auto).
      rewrite Hnil in Hin. by apply elem_of_nil in Hin.
    + assert (SelfCare ∈ fired) as Hin by (apply Hfired; auto).
      rewrite Hnil in Hin. by apply elem_of_nil in Hin.
    + assert (ExcellentCompletion ∈ fired) as Hin by (apply Hfired; auto).
      rewrite Hnil in Hin. by apply elem_of_nil in Hin.
    + assert (BreakDownTasks ∈ fired) as Hin by (apply Hfired; auto).
      rewrite Hnil in Hin. by apply elem_of_nil in Hin.
    + assert (StrongProductivity ∈ fired) as Hin by (apply Hfired; auto).
      rewrite Hnil in Hin. by apply elem_of_nil in Hin.
    + assert (Streak (length savedEntries) ∈ fired) as Hin by (apply Hfired; auto 6).
      rewrite Hnil in Hin. by apply elem_of_nil in Hin.
  - intros [(-> & H1 & H2 & H3 & H4 & H5 & H6)|Hx]; [left|by right].
    split; [|done].
    destruct fired as [|y l] eqn:Hf; [done|].
    assert (y ∈ y :: l) as Hin by left.
    apply Hfired in Hin. intuition.
Qed.

(** *** The thresholds in exact terms

    The averages compared with the thresholds are doubles.  For ratings in
    their range and a window of at most 7 entries the comparison of the
    double agrees with the comparison of the exact mean. *)

Lemma quotient_threshold (s len k : Z) :
  0 < len <= 7 → 0 <= s <= 5 * len → 0 <= k <= 5 →
  let avg := Number_div double (inject_Z s) (inject_Z len) in
  ((inject_Z k <= avg)%Q ↔ k * len <= s) ∧ ((avg <= inject_Z k)%Q ↔ s <= k * len).
Proof.
  intros Hlen Hs Hk. unfold Number_div. cbv zeta.
  assert (HL : (0 < inject_Z len)%Q) by (change 0%Q with (inject_Z 0); rewrite <- Zlt_Qlt; lia).
  assert (HL7 : (inject_Z len <= 7)%Q) by (change 7%Q with (inject_Z 7); rewrite <- Zle_Qle; lia).
  assert (HK0 : (0 <= inject_Z k)%Q) by (change 0%Q with (inject_Z 0); rewrite <- Zle_Qle; lia).
  assert (HK5 : (inject_Z k <= 5)%Q) by (change 5%Q with (inject_Z 5); rewrite <- Zle_Qle; lia).
  assert (Hq : (inject_Z s / inject_Z len * inject_Z len == inject_Z s)%Q) by (field; lra).
  destruct (Z.lt_trichotomy s (k * len)) as [Hlt|[Heq|Hgt]].
  - (* the mean is below [k] by at least 1/7 *)
    assert (Hbelow : (double (inject_Z s / inject_Z len) < inject_Z k)%Q).
    { destruct (decide (s = 0)) as [->|Hs0].
      - rewrite (double_of_zero (inject_Z 0 / inject_Z len));
          [|unfold Qdiv; apply Qmult_0_l].
        change 0%Q with (inject_Z 0). rewrite <- Zlt_Qlt. nia.
      - assert (HS1 : (1 <= inject_Z s)%Q)
          by (change 1%Q with (inject_Z 1); rewrite <- Zle_Qle; lia).
        assert (HSK : (inject_Z s + 1 <= inject_Z k * inject_Z len)%Q).
        { change 1%Q with (inject_Z 1).
          rewrite <- inject_Z_plus, <- inject_Z_mult, <- Zle_Qle. lia. }
        revert Hq. generalize (inject_Z s / inject_Z len)%Q. intros q Hq.
        assert ((1 # 7) <= q)%Q by nra.
        assert (q * 7 <= inject_Z k * 7 - 1)%Q by nra.
        destruct (double_error q) as [_ Hd2]; [lra..|]. lra. }
    split; split; intros H.
    + exfalso. lra.
    + lia.
    + lia.
    + by apply Qlt_le_weak.
  - assert (Hexact : (double (inject_Z s / inject_Z len) == inject_Z k)%Q).
    { rewrite (double_proper _ (inject_Z k)); [apply double_integer; lia|].
      subst s. rewrite inject_Z_mult. field. lra. }
    rewrite Hexact. split; (split; [lia|intros _; lra]).
  - (* the mean is above [k] by at least 1/7 *)
    assert (Habove : (inject_Z k < double (inject_Z s / inject_Z len))%Q).
    { assert (HSK : (inject_Z k * inject_Z len + 1 <= inject_Z s)%Q).
      { change 1%Q with (inject_Z 1).
        rewrite <- inject_Z_mult, <- inject_Z_plus, <- Zle_Qle. lia. }
      assert (HS5 : (inject_Z s <= 5 * inject_Z len)%Q).
      { change 5%Q with (inject_Z 5). rewrite <- inject_Z_mult, <- Zle_Qle. lia. }
      revert Hq. generalize (inject_Z s / inject_Z len)%Q. intros q Hq.
      assert (inject_Z k * 7 + 1 <= q * 7)%Q by nra.
      assert (q <= 5)%Q by nra.
      destruct (double_error q) as [Hd1 _]; [lra..|]. lra. }
    split; split; intros H.
    + lia.
    + by apply Qlt_le_weak.
    + exfalso. lra.
    + lia.
Qed.


Lemma sumOf_le {A} (f g : A → Z) (l : list A) :
  (∀ e, 0 <= f e <= g e) → 0 <= sumOf f l <= sumOf g l.
Proof.
  intros Hfg. induction l as [|x l IH]; [done|].
  rewrite !sumOf_cons. pose proof (Hfg x). lia.
Qed.

(** The rating thresholds in exact terms: the comparisons of the averages
    are those of the sum of the rating over the window with 4 times, or
    twice, its size. *)
Lemma window_rating_thresholds recentEntries :
  (0 < length recentEntries <= 7)%nat → Forall ratings_in_range recentEntries →
  let size := Z.of_nat (length recentEntries) in
  let moodSum := sumOf (λ e, mood (ratings e)) recentEntries in
  let productivitySum := sumOf (λ e, productivity (ratings e)) recentEntries in
  ((4 <= windowAvgMood double recentEntries)%Q ↔ 4 * size <= moodSum) ∧
  ((windowAvgMood double recentEntries <= 2)%Q ↔ moodSum <= 2 * size) ∧
  ((4 <= windowAvgProductivity double recentEntries)%Q ↔ 4 * size <= productivitySum).
Proof.
  intros Hlen Hrecent size moodSum productivitySum.
  assert (Hsize : 0 < size <= 7) by (unfold size; lia).
  assert (Hmood : 0 <= moodSum <= 5 * size).
  { apply sumOf_range. eapply Forall_impl; [exact Hrecent|].
    by intros e (_ & _ & _ & H). }
  assert (Hprod : 0 <= productivitySum <= 5 * size).
  { apply sumOf_range. eapply Forall_impl; [exact Hrecent|].
    by intros e (_ & _ & H & _). }
  destruct (quotient_threshold moodSum size 4 Hsize Hmood) as [Hm4 _]; [lia|].
  destruct (quotient_threshold moodSum size 2 Hsize Hmood) as [_ Hm2]; [lia|].
  destruct (quotient_threshold productivitySum size 4 Hsize Hprod) as [Hp4 _]; [lia|].
  cbv zeta in Hm4, Hm2, Hp4.
  pose proof (windowAvgMood_mean recentEntries Hrecent ltac:(lia)) as HavgM.
  pose proof (windowAvgProductivity_mean recentEntries Hrecent ltac:(lia)) as HavgP.
  unfold Number_of_nat in HavgM, HavgP.
  fold size in HavgM, HavgP. fold moodSum in HavgM. fold productivitySum in HavgP.
  change (inject_Z 4) with 4%Q in *. change (inject_Z 2) with 2%Q in *.
  rewrite HavgM, HavgP. done.
Qed.

Section Binary64.

(** Two facts on doubles that the two completion thresholds need at the
    point of equality: four fifths and one half, as percentages, are 80 and
    50. *)
Hypothesis double_four_fifths : (double (double (4 # 5) * 100) == 80)%Q.
Hypothesis double_one_half : (double (double (1 # 2) * 100) == 50)%Q.

(** The computed percentage [(c / t) * 100] is within 2^-40 of the exact
    one. *)
Lemma rate_error (c t : Z) :
  0 < c <= t → t < 2 ^ 32 →
  let rate := Number_mul double (Number_div double (inject_Z c) (inject_Z t)) 100 in
  (- (1 # 1099511627776) <= rate - 100 * (inject_Z c / inject_Z t))%Q ∧
  (rate - 100 * (inject_Z c / inject_Z t) <= 1 # 1099511627776)%Q.
Proof.
  intros Hc Ht. unfold Number_mul, Number_div. cbv zeta.
  assert (HT : (0 < inject_Z t)%Q) by (change 0%Q with (inject_Z 0); rewrite <- Zlt_Qlt; lia).
  assert (HT32 : (inject_Z t < 4294967296)%Q)
    by (change 4294967296%Q with (inject_Z (2 ^ 32)); by rewrite <- Zlt_Qlt).
  assert (HC1 : (1 <= inject_Z c)%Q) by (change 1%Q with (inject_Z 1); rewrite <- Zle_Qle; lia).
  assert (HCT : (inject_Z c <= inject_Z t)%Q) by (rewrite <- Zle_Qle; lia).
  assert (Hq : (inject_Z c / inject_Z t * inject_Z t == inject_Z c)%Q) by (field; lra).
  revert Hq. generalize (inject_Z c / inject_Z t)%Q. intros q Hq.
  assert (Hq0 : (1 # 4294967296 <= q)%Q) by nra.
  assert (Hq1 : (q <= 1)%Q) by nra.
  destruct (double_error q) as [Hd1 Hd2]; [lra..|].
  destruct (double_error (double q * 100)) as [He1 He2]; [lra..|].
  split; lra.
Qed.

(** The completion rate of the window reaches 80 exactly when 5 times the
    completed tasks reach 4 times the tasks, and is at most 50 exactly when
    twice the completed tasks are at most the tasks. *)
Lemma rate_threshold (c t : Z) :
  0 <= c <= t → 0 < t < 2 ^ 32 →
  let rate := Number_mul double (Number_div double (inject_Z c) (inject_Z t)) 100 in
  ((80 <= rate)%Q ↔ 4 * t <= 5 * c) ∧ ((rate <= 50)%Q ↔ 2 * c <= t).
Proof.
  intros Hc Ht. cbv zeta.
  assert (HT : (0 < inject_Z t)%Q) by (change 0%Q with (inject_Z 0); rewrite <- Zlt_Qlt; lia).
  assert (HT32 : (inject_Z t < 4294967296)%Q)
    by (change 4294967296%Q with (inject_Z (2 ^ 32)); rewrite <- Zlt_Qlt; lia).
  destruct (decide (c = 0)) as [->|Hc0].
  { (* nothing completed: the rate is 0 *)
    assert (Hzero : (Number_mul double (Number_div double (inject_Z 0) (inject_Z t)) 100 == 0)%Q).
    { unfold Number_mul, Number_div. apply double_of_zero.
      rewrite (double_of_zero (inject_Z 0 / inject_Z t)); [lra|].
      unfold Qdiv. apply Qmult_0_l. }
    rewrite Hzero. split; split; intros H; try lia; lra. }
  destruct (rate_error c t) as [He1 He2]; [lia..|]. cbv zeta in He1, He2.
  assert (Hq : (inject_Z c / inject_Z t * inject_Z t == inject_Z c)%Q) by (field; lra).
  (* an exact rate other than 80, or 50, is at least 2^-33 away from it *)
  assert (Hgap : ∀ a b : Z, 0 < b <= 5 →
            (a * t < b * c → (inject_Z a / inject_Z b + (1 # 42949672960)
                              <= inject_Z c / inject_Z t)%Q) ∧
            (b * c < a * t → (inject_Z c / inject_Z t
                              <= inject_Z a / inject_Z b - (1 # 42949672960))%Q)).
  { intros a b Hb.
    assert (HB : (0 < inject_Z b)%Q) by (change 0%Q with (inject_Z 0); rewrite <- Zlt_Qlt; lia).
    assert (HB5 : (inject_Z b <= 5)%Q) by (change 5%Q with (inject_Z 5); rewrite <- Zle_Qle; lia).
    assert (Hab : (inject_Z a / inject_Z b * inject_Z b == inject_Z a)%Q) by (field; lra).
    split; intros Hlt.
    - assert (H1 : (inject_Z a * inject_Z t + 1 <= inject_Z b * inject_Z c)%Q).
      { change 1%Q with (inject_Z 1).
        rewrite <- !inject_Z_mult, <- inject_Z_plus, <- Zle_Qle. lia. }
      set (q := (inject_Z c / inject_Z t)%Q) in *.
      set (r := (inject_Z a / inject_Z b)%Q) in *. clearbody q r.
      set (A := inject_Z a) in *. set (B := inject_Z b) in *.
      set (C := inject_Z c) in *. set (T := inject_Z t) in *. clearbody A B C T.
      assert (0 < B * T)%Q by nra.
      assert (B * T < 21474836480)%Q by nra.
      assert (q * T * B == C * B)%Q by by rewrite Hq.
      assert (r * B * T == A * T)%Q by by rewrite Hab.
      assert ((q - r) * (B * T) >= 1)%Q by nra.
      nra.
    - assert (H1 : (inject_Z b * inject_Z c + 1 <= inject_Z a * inject_Z t)%Q).
      { change 1%Q with (inject_Z 1).
        rewrite <- !inject_Z_mult, <- inject_Z_plus, <- Zle_Qle. lia. }
      set (q := (inject_Z c / inject_Z t)%Q) in *.
      set (r := (inject_Z a / inject_Z b)%Q) in *. clearbody q r.
      set (A := inject_Z a) in *. set (B := inject_Z b) in *.
      set (C := inject_Z c) in *. set (T := inject_Z t) in *. clearbody A B C T.
      assert (0 < B * T)%Q by nra.
      assert (B * T < 21474836480)%Q by nra.
      assert (q * T * B == C * B)%Q by by rewrite Hq.
      assert (r * B * T == A * T)%Q by by rewrite Hab.
      assert ((r - q) * (B * T) >= 1)%Q by nra.
      nra. }
  split.
  - destruct (Z.lt_trichotomy (4 * t) (5 * c)) as [Hlt|[Heq|Hgt]].
    + destruct (Hgap 4 5) as [Hup _]; [lia|]. specialize (Hup Hlt).
      change (inject_Z 4 / inject_Z 5)%Q with (4 / 5)%Q in Hup.
      split; intros _; [lia|]. 
      assert ((4 / 5 == 4 # 5)%Q) by reflexivity. lra.
    + assert (Hexact : (Number_mul double (Number_div double (inject_Z c) (inject_Z t)) 100
                        == 80)%Q).
      { unfold Number_mul, Number_div. rewrite <- double_four_fifths.
        apply double_proper.
        rewrite (double_proper (inject_Z c / inject_Z t) (4 # 5)); [reflexivity|].
        apply Qmult_inj_r with (z := inject_Z t); [lra|]. rewrite Hq.
        assert (H5 : (5 * inject_Z c == 4 * inject_Z t)%Q).
        { change 5%Q with (inject_Z 5). change 4%Q with (inject_Z 4).
          rewrite <- !inject_Z_mult. by rewrite Heq. }
        lra. }
      rewrite Hexact. split; intros _; [lia|lra].
    + destruct (Hgap 4 5) as [_ Hdown]; [lia|]. specialize (Hdown Hgt).
      change (inject_Z 4 / inject_Z 5)%Q with (4 / 5)%Q in Hdown.
      assert ((4 / 5 == 4 # 5)%Q) by reflexivity.
      split; intros H'; [exfalso; lra|lia].
  - destruct (Z.lt_trichotomy t (2 * c)) as [Hlt|[Heq|Hgt]].
    + destruct (Hgap 1 2) as [Hup _]; [lia|].
      specialize (Hup ltac:(lia)).
      change (inject_Z 1 / inject_Z 2)%Q with (1 / 2)%Q in Hup.
      assert ((1 / 2 == 1 # 2)%Q) by reflexivity.
      split; intros H'; [exfalso; lra|lia].
    + assert (Hexact : (Number_mul double (Number_div double (inject_Z c) (inject_Z t)) 100
                        == 50)%Q).
      { unfold Number_mul, Number_div. rewrite <- double_one_half.
        apply double_proper.
        rewrite (double_proper (inject_Z c / inject_Z t) (1 # 2)); [reflexivity|].
        apply Qmult_inj_r with (z := inject_Z t); [lra|]. rewrite Hq.
        assert (H2 : (2 * inject_Z c == inject_Z t)%Q).
        { change 2%Q with (inject_Z 2). rewrite <- !inject_Z_mult. by rewrite Heq. }
        lra. }
      rewrite Hexact. split; intros _; [lia|lra].
    + destruct (Hgap 1 2) as [_ Hdown]; [lia|].
      specialize (Hdown ltac:(lia)).
      change (inject_Z 1 / inject_Z 2)%Q with (1 / 2)%Q in Hdown.
      assert ((1 / 2 == 1 # 2)%Q) by reflexivity.
      split; intros _; [lia|lra].
Qed.

(** The completion thresholds in exact terms, for a window with fewer than
    2^32 tasks: the rate reaches 80 when there are tasks and at least four
    fifths of them are completed, and is at most 50 when at most half of
    them are, a window without tasks counting as rate 0. *)
Lemma window_completion_thresholds recentEntries :
  let totalTasks := sumOf (λ e, Z.of_nat (length (todos e))) recentEntries in
  let completedTasks :=
    sumOf (λ e, Z.of_nat (length (List.filter completed (todos e)))) recentEntries in
  totalTasks < 2 ^ 32 →
  ((80 <= windowCompletionRate double recentEntries)%Q
   ↔ 0 < totalTasks ∧ 4 * totalTasks <= 5 * completedTasks) ∧
  ((windowCompletionRate double recentEntries <= 50)%Q
   ↔ totalTasks = 0 ∨ 2 * completedTasks <= totalTasks).
Proof.
  intros totalTasks completedTasks H32.
  assert (Hct : 0 <= completedTasks <= totalTasks).
  { apply sumOf_le. intros e. split; [lia|].
    apply Nat2Z.inj_le, List.filter_length_le. }
  unfold windowCompletionRate, windowTotalTasks, windowCompletedTasks.
  fold totalTasks. fold completedTasks.
  destruct (0 <? totalTasks) eqn:Hpos.
  - apply Z.ltb_lt in Hpos.
    destruct (rate_threshold completedTasks totalTasks) as [H80 H50]; [lia..|].
    cbv zeta in H80, H50. rewrite H80, H50. split; split; lia.
  - apply Z.ltb_ge in Hpos. split; split; intros H; try lia; try lra.
Qed.

(** C9.  The insights are computed over the last 7 saved entries (all of
    them if there are fewer), and each message is there exactly when its
    threshold fires on that window:
    - the praise of the mood when the moods of the window add up to at least
      4 times its size (average mood at least 4), the self-care suggestion
      when they add up to at most twice its size (average at most 2);
    - the praise of the completion when the window has tasks and at least
      four fifths of them are completed (rate at least 80), the suggestion
      to break tasks down when at most half of them are completed (rate at
      most 50), a window without tasks counting as rate 0;
    - the praise of the productivity when the productivity ratings add up
      to at least 4 times the size of the window;
    - the streak message, with the number of saved entries, when there are
      at least 7 saved entries.
    The default message is there exactly when none of these fires, and then
    it is the only message; no message is there twice.  Without saved
    entries the default message is the only one.  (Ratings of the window in
    their range 0..5, and fewer than 2^32 tasks in the window.) *)
Theorem insights_thresholds savedEntries :
  let recentEntries := slice_last 7 savedEntries in
  let size := Z.of_nat (length recentEntries) in
  let moodSum := sumOf (λ e, mood (ratings e)) recentEntries in
  let productivitySum := sumOf (λ e, productivity (ratings e)) recentEntries in
  let totalTasks := sumOf (λ e, Z.of_nat (length (todos e))) recentEntries in
  let completedTasks :=
    sumOf (λ e, Z.of_nat (length (List.filter completed (todos e)))) recentEntries in
  let quiet :=
    ¬ 4 * size <= moodSum ∧ ¬ moodSum <= 2 * size ∧
    ¬ (0 < totalTasks ∧ 4 * totalTasks <= 5 * completedTasks) ∧
    ¬ (totalTasks = 0 ∨ 2 * completedTasks <= totalTasks) ∧
    ¬ 4 * size <= productivitySum ∧ ¬ (7 <= length savedEntries)%nat in
  Forall ratings_in_range recentEntries → totalTasks < 2 ^ 32 →
  recentEntries `suffix_of` savedEntries ∧
  length recentEntries = (7 `min` length savedEntries)%nat ∧
  (savedEntries = [] → insights savedEntries = [KeepJournaling]) ∧
  (savedEntries ≠ [] →
   (windowAvgMood double recentEntries
    == Number_div double (inject_Z moodSum) (inject_Z size))%Q ∧
   (windowAvgProductivity double recentEntries
    == Number_div double (inject_Z productivitySum) (inject_Z size))%Q ∧
   windowCompletionRate double recentEntries
   = (if 0 <? totalTasks
      then Number_mul double (Number_div double (inject_Z completedTasks)
                                                (inject_Z totalTasks)) 100
      else 0%Q) ∧
   (GreatSpirits ∈ insights savedEntries ↔ 4 * size <= moodSum) ∧
   (SelfCare ∈ insights savedEntries ↔ moodSum <= 2 * size) ∧
   (ExcellentCompletion ∈ insights savedEntries
    ↔ 0 < totalTasks ∧ 4 * totalTasks <= 5 * completedTasks) ∧
   (BreakDownTasks ∈ insights savedEntries
    ↔ totalTasks = 0 ∨ 2 * completedTasks <= totalTasks) ∧
   (StrongProductivity ∈ insights savedEntries ↔ 4 * size <= productivitySum) ∧
   (∀ n, Streak n ∈ insights savedEntries ↔ n = length savedEntries ∧ (7 <= n)%nat) ∧
   (KeepJournaling ∈ insights savedEntries ↔ quiet) ∧
   (quiet → insights savedEntries = [KeepJournaling]) ∧
   NoDup (insights savedEntries)).
Proof.
  intros recentEntries size moodSum productivitySum totalTasks completedTasks quiet
         Hrange H32.
  split; [apply slice_last_suffix|]. split; [apply slice_last_length|].
  split; [by intros ->|]. intros Hne.
  assert (Hlen : (0 < length recentEntries <= 7)%nat).
  { unfold recentEntries. rewrite slice_last_length.
    destruct savedEntries; [done|]. rewrite length_cons. lia. }
  destruct (window_rating_thresholds recentEntries Hlen Hrange) as (Hm4 & Hm2 & Hp4).
  destruct (window_completion_thresholds recentEntries H32) as (H80 & H50).
  cbv zeta in Hm4, Hm2, Hp4, H80, H50.
  fold size in Hm4, Hm2, Hp4. fold moodSum in Hm4, Hm2. fold productivitySum in Hp4.
  fold totalTasks in H80, H50. fold completedTasks in H80, H50.
  pose proof (λ x, insights_elem_of savedEntries x Hne) as Hin. cbv zeta in Hin.
  fold recentEntries in Hin.
  assert (Honly : quiet → insights savedEntries = [KeepJournaling]).
  { intros (Q1 & Q2 & Q3 & Q4 & Q5 & Q6).
    rewrite (insights_unfold savedEntries Hne). cbv zeta. fold recentEntries.
    rewrite <- Hm4 in Q1. rewrite <- Hm2 in Q2. rewrite <- H80 in Q3.
    rewrite <- H50 in Q4. rewrite <- Hp4 in Q5.
    rewrite <- Qle_bool_iff in Q1, Q2, Q3, Q4, Q5.
    apply not_true_is_false in Q1, Q2, Q3, Q4, Q5.
    rewrite Q1, Q2, Q3, Q4, Q5.
    by rewrite (proj2 (Nat.leb_gt 7 (length savedEntries))) by lia. }
  refine (conj _ (conj _ (conj _ (conj _ (conj _ (conj _ (conj _ (conj _
            (conj _ (conj _ (conj Honly _))))))))))).
  - rewrite (windowAvgMood_mean recentEntries Hrange) by lia. reflexivity.
  - rewrite (windowAvgProductivity_mean recentEntries Hrange) by lia. reflexivity.
  - reflexivity.
  - rewrite Hin, <- Hm4. intuition discriminate.
  - rewrite Hin, <- Hm2. intuition discriminate.
  - rewrite Hin, <- H80. intuition discriminate.
  - rewrite Hin, <- H50. intuition discriminate.
  - rewrite Hin, <- Hp4. intuition discriminate.
  - intros n. rewrite Hin. intuition (try discriminate; try congruence; try lia).
  - rewrite Hin. unfold quiet. rewrite <- Hm4, <- Hm2, <- H80, <- H50, <- Hp4.
    intuition discriminate.
  - rewrite (insights_unfold savedEntries Hne). cbv zeta.
    destruct (length _ =? 0)%nat; [apply NoDup_singleton|]. apply fired_NoDup.
Qed.

End Binary64.

End Arithmetic.
End StatsFacts.

(** ** The concrete runtime

    [Runtime.double] has the three properties the statistics ask of the
    rounding to doubles. *)

Module RuntimeFacts.
Import Runtime.

Local Open Scope Q_scope.

Lemma pow2_pos (e : Z) : 0 < 2 ^ e.
Proof. by apply Qpower_0_lt. Qed.

Lemma pow2_succ (e : Z) : 2 ^ (e + 1) == 2 * 2 ^ e.
Proof. rewrite Qpower_plus by done. change (2 ^ 1) with 2. lra. Qed.

Lemma pow2_inject (k : Z) : (0 <= k)%Z → inject_Z (2 ^ k) == 2 ^ k.
Proof. intros Hk. by rewrite Zpower_Qpower. Qed.

(** Between a power of two and the next: the bounds [Z.log2] gives, in [Q]. *)
Lemma log2_bounds (n : Z) :
  (0 < n)%Z → 2 ^ Z.log2 n <= inject_Z n ∧ inject_Z n < 2 * 2 ^ Z.log2 n.
Proof.
  intros Hn. destruct (Z.log2_spec n Hn) as [Hlo Hhi].
  pose proof (Z.log2_nonneg n) as Hl.
  rewrite <- pow2_succ, <- !pow2_inject by lia. split.
  - by rewrite <- Zle_Qle.
  - rewrite <- Zlt_Qlt. by rewrite <- Z.add_1_r in Hhi.
Qed.

Lemma scale_bounds (N D A B X : Q) :
  0 < A → 0 < B → A <= N → N < 2 * A → B <= D → D < 2 * B →
  X * (D * A) == N * B * 9007199254740992 →
  4503599627370496 <= X ∧ X < 18014398509481984.
Proof.
  intros HA HB HN1 HN2 HD1 HD2 HX.
  assert (0 < D * A) by nra.
  assert (D * A < 2 * (B * N)) by nra.
  assert (N * B < 2 * (D * A)) by nra.
  split; nra.
Qed.

(** The scaled magnitude lies from 2^52 up to, not including, 2^53. *)
Lemma exponent_spec (a : Q) :
  0 < a →
  4503599627370496 <= a / 2 ^ exponent a ∧ a / 2 ^ exponent a < 9007199254740992.
Proof.
  intros Ha.
  assert (Hn : (0 < Qnum a)%Z) by (destruct a as [n d]; unfold Qlt in Ha; simpl in *; lia).
  destruct (log2_bounds (Qnum a) Hn) as [HN1 HN2].
  destruct (log2_bounds (Zpos (Qden a)) eq_refl) as [HD1 HD2].
  set (e0 := (Z.log2 (Qnum a) - Z.log2 (Zpos (Qden a)) - 53)%Z).
  assert (He0 : 2 ^ e0 * 2 ^ Z.log2 (Zpos (Qden a)) * 9007199254740992
                == 2 ^ Z.log2 (Qnum a)).
  { assert (Hsum : (Z.log2 (Qnum a) = e0 + Z.log2 (Zpos (Qden a)) + 53)%Z)
      by (unfold e0; lia).
    rewrite Hsum. rewrite !Qpower_plus by done. reflexivity. }
  pose proof (pow2_pos e0) as Hp0.
  pose proof (pow2_pos (Z.log2 (Qnum a))) as HpA.
  pose proof (pow2_pos (Z.log2 (Zpos (Qden a)))) as HpB.
  assert (Hq : a * inject_Z (Zpos (Qden a)) == inject_Z (Qnum a)).
  { destruct a as [n d]. unfold Qeq. simpl. lia. }
  assert (HDpos : 0 < inject_Z (Zpos (Qden a))) by done.
  assert (Hscaled : 4503599627370496 <= a / 2 ^ e0 ∧ a / 2 ^ e0 < 18014398509481984).
  { apply (scale_bounds (inject_Z (Qnum a)) (inject_Z (Zpos (Qden a)))
                        (2 ^ Z.log2 (Qnum a)) (2 ^ Z.log2 (Zpos (Qden a)))); try done.
    rewrite <- He0, <- Hq. field. lra. }
  destruct Hscaled as [Hs1 Hs2].
  unfold exponent. fold e0.
  destruct (Qle_bool (inject_Z (2 ^ 53)) (a / 2 ^ e0)) eqn:Hbig.
  - apply Qle_bool_iff in Hbig. change (inject_Z (2 ^ 53)) with 9007199254740992 in Hbig.
    assert (Hhalf : a / 2 ^ (e0 + 1) == a / 2 ^ e0 * (1 # 2)).
    { rewrite pow2_succ. field. lra. }
    rewrite Hhalf. split; lra.
  - assert (Hsmall : ¬ inject_Z (2 ^ 53) <= a / 2 ^ e0)
      by (rewrite <- Qle_bool_iff; congruence).
    change (inject_Z (2 ^ 53)) with 9007199254740992 in Hsmall.
    split; lra.
Qed.

Lemma roundHalfEven_near (s : Q) :
  - (1 # 2) <= inject_Z (roundHalfEven s) - s ∧ inject_Z (roundHalfEven s) - s <= 1 # 2.
Proof.
  unfold roundHalfEven.
  pose proof (Qfloor_le s) as Hlo. pose proof (Qlt_floor s) as Hhi.
  rewrite inject_Z_plus in Hhi. change (inject_Z 1) with 1 in Hhi.
  destruct (Qcompare_spec (s - inject_Z (Qfloor s)) (1 # 2)) as [Heq|Hlt|Hgt].
  - destruct (Z.even (Qfloor s)); rewrite ?inject_Z_plus; change (inject_Z 1) with 1;
      split; lra.
  - split; lra.
  - rewrite inject_Z_plus. change (inject_Z 1) with 1. split; lra.
Qed.

(** Rounding a positive number keeps it to within the fraction 2^-53. *)
Lemma roundPositive_accurate (a : Q) :
  0 < a →
  - (a * (1 # 9007199254740992)) <= roundPositive a - a ∧
  roundPositive a - a <= a * (1 # 9007199254740992).
Proof.
  intros Ha. unfold roundPositive.
  destruct (exponent_spec a Ha) as [Hs1 _].
  destruct (roundHalfEven_near (a / 2 ^ exponent a)) as [Hm1 Hm2].
  pose proof (pow2_pos (exponent a)) as Hp.
  assert (Hs : a / 2 ^ exponent a * 2 ^ exponent a == a) by (field; lra).
  set (P := 2 ^ exponent a) in *. set (s := a / P) in *.
  set (m := inject_Z (roundHalfEven s)) in *. clearbody m. clearbody s. clearbody P.
  assert (0 <= (m - s + (1 # 2)) * P) by nra.
  assert (0 <= ((1 # 2) - (m - s)) * P) by nra.
  assert (0 <= (s - 4503599627370496) * P) by nra.
  split; nra.
Qed.

Lemma double_positive (x : Q) : 0 < x → double x == roundPositive (Qred x).
Proof.
  intros Hx. unfold double.
  assert (Hr : 0 < Qred x) by by rewrite Qred_correct.
  destruct (Qeq_bool (Qred x) 0) eqn:Hz.
  - apply Qeq_bool_iff in Hz. lra.
  - rewrite (proj2 (Qle_bool_iff 0 (Qred x))) by lra. apply Qred_correct.
Qed.

Lemma double_negative (x : Q) : x < 0 → double x == - roundPositive (- Qred x).
Proof.
  intros Hx. unfold double.
  assert (Hr : Qred x < 0) by by rewrite Qred_correct.
  destruct (Qeq_bool (Qred x) 0) eqn:Hz.
  - apply Qeq_bool_iff in Hz. lra.
  - destruct (Qle_bool 0 (Qred x)) eqn:Hle.
    + apply Qle_bool_iff in Hle. lra.
    + apply Qred_correct.
Qed.

Lemma Qred_inject_Z (z : Z) : Qred (inject_Z z) = inject_Z z.
Proof.
  unfold Qred, inject_Z.
  pose proof (Z.ggcd_gcd z 1) as Hg.
  pose proof (Z.ggcd_correct_divisors z 1) as Hdiv.
  destruct (Z.ggcd z 1) as [g [q1 q2]]. simpl in *.
  rewrite Z.gcd_1_r in Hg. subst g. destruct Hdiv as [H1 H2].
  assert (q1 = z) as -> by lia. assert (q2 = 1%Z) as -> by lia. done.
Qed.

(** Rounding leaves an integer as it is. *)
Lemma roundHalfEven_integer (s : Q) (k : Z) : s == inject_Z k → roundHalfEven s = k.
Proof.
  intros Hs. unfold roundHalfEven.
  assert (Hf : Qfloor s = k) by (rewrite (Qfloor_comp _ _ Hs); apply Qfloor_Z).
  rewrite Hf.
  destruct (Qcompare_spec (s - inject_Z k) (1 # 2)) as [Heq|Hlt|Hgt]; [lra|done|lra].
Qed.

(** For a positive integer the scaling is by 2^(log2 z - 52). *)
Lemma exponent_integer (z : Z) :
  (0 < z)%Z → exponent (inject_Z z) = (Z.log2 z - 52)%Z.
Proof.
  intros Hz. unfold exponent.
  change (Qnum (inject_Z z)) with z. change (Z.log2 (Zpos (Qden (inject_Z z)))) with 0%Z.
  destruct (log2_bounds z Hz) as [Hlo _].
  pose proof (pow2_pos (Z.log2 z - 0 - 53)) as Hp.
  assert (He : 2 ^ (Z.log2 z - 0 - 53) * 9007199254740992 == 2 ^ Z.log2 z).
  { assert (Hsum : Z.log2 z = (Z.log2 z - 0 - 53 + 53)%Z) by lia.
    rewrite Hsum at 2. rewrite Qpower_plus by done. reflexivity. }
  assert (Hbig : Qle_bool (inject_Z (2 ^ 53)) (inject_Z z / 2 ^ (Z.log2 z - 0 - 53)) = true).
  { apply Qle_bool_iff. change (inject_Z (2 ^ 53)) with 9007199254740992.
    apply Qle_shift_div_l; [done|]. lra. }
  rewrite Hbig. lia.
Qed.

Lemma roundPositive_integer (z : Z) :
  (0 < z <= 2 ^ 53)%Z → roundPositive (inject_Z z) == inject_Z z.
Proof.
  intros [Hz Hmax].
  assert (Hl : (0 <= Z.log2 z <= 53)%Z).
  { split; [apply Z.log2_nonneg|]. change 53%Z with (Z.log2 (2 ^ 53)). by apply Z.log2_le_mono. }
  destruct (decide (Z.log2 z = 53%Z)) as [H53|H53].
  - assert (z = 2 ^ 53)%Z as ->; [|reflexivity].
    destruct (Z.log2_spec z Hz) as [Hlo _]. rewrite H53 in Hlo. lia.
  - unfold roundPositive. rewrite (exponent_integer z Hz).
    pose proof (pow2_pos (Z.log2 z - 52)) as Hp.
    assert (Hinv : 2 ^ (Z.log2 z - 52) * 2 ^ (52 - Z.log2 z) == 1).
    { rewrite <- Qpower_plus by done. by replace (Z.log2 z - 52 + (52 - Z.log2 z))%Z with 0%Z by lia. }
    assert (Hs : inject_Z z / 2 ^ (Z.log2 z - 52) == inject_Z (z * 2 ^ (52 - Z.log2 z))).
    { rewrite inject_Z_mult, pow2_inject by lia.
      apply Qmult_inj_r with (z := 2 ^ (Z.log2 z - 52)); [lra|].
      field_simplify; [|lra]. 
      set (P := 2 ^ (Z.log2 z - 52)) in *. set (R := 2 ^ (52 - Z.log2 z)) in *.
      clearbody P R. rewrite <- Qmult_assoc, Hinv. lra. }
    rewrite (roundHalfEven_integer _ _ Hs), <- Hs. field. lra.
Qed.

Lemma runtime_double_proper (x y : Q) : x == y → double x == double y.
Proof. intros Hxy. unfold double. by rewrite (Qred_complete _ _ Hxy). Qed.

Lemma runtime_double_integer (z : Z) :
  (Z.abs z <= 2 ^ 53)%Z → double (inject_Z z) == inject_Z z.
Proof.
  intros Hz.
  destruct (Z.lt_trichotomy z 0) as [Hneg|[->|Hpos]].
  - rewrite double_negative by (change 0 with (inject_Z 0); by rewrite <- Zlt_Qlt).
    rewrite Qred_inject_Z. change (- inject_Z z) with (inject_Z (- z)).
    rewrite roundPositive_integer by lia. rewrite inject_Z_opp. lra.
  - reflexivity.
  - rewrite double_positive by (change 0 with (inject_Z 0); by rewrite <- Zlt_Qlt).
    rewrite Qred_inject_Z. apply roundPositive_integer. lia.
Qed.

Lemma runtime_double_accurate (x : Q) :
  1 # 2 ^ 64 <= x → x <= inject_Z (2 ^ 64) →
  Qabs (double x - x) <= x * (1 # 2 ^ 53).
Proof.
  intros Hlo _.
  assert (Hx : 0 < x) by (eapply Qlt_le_trans; [|exact Hlo]; done).
  assert (Hr : 0 < Qred x) by by rewrite Qred_correct.
  destruct (roundPositive_accurate (Qred x) Hr) as [H1 H2].
  rewrite (double_positive x Hx).
  pose proof (Qred_correct x) as Hred.
  apply Qabs_Qle_condition.
  change (1 # 2 ^ 53) with (1 # 9007199254740992).
  set (r := roundPositive (Qred x)) in *. clearbody r.
  set (xr := Qred x) in *. clearbody xr.
  split; lra.
Qed.

Lemma runtime_double_four_fifths : double (double (4 # 5) * 100) == 80.
Proof. vm_compute. reflexivity. Qed.

Lemma runtime_double_one_half : double (double (1 # 2) * 100) == 50.
Proof. vm_compute. reflexivity. Qed.

End RuntimeFacts.

(** ** The working entry *)

Module EditorFacts.
Import Editor.

(** *** [trim] *)

Lemma blank_nil : blank "".
Proof. constructor. Qed.

Lemma blank_cons c s : blank (String c s) ↔ isWhiteSpace c = true ∧ blank s.
Proof. unfold blank. simpl. by rewrite Forall_cons. Qed.

Lemma trimStart_blank s : trimStart s = "" ↔ blank s.
Proof.
  induction s as [|c s IH]; simpl.
  - split; [intros _; apply blank_nil | done].
  - rewrite blank_cons. destruct (isWhiteSpace c).
    + rewrite IH. intuition.
    + split; [discriminate | intros [? _]; discriminate].
Qed.

(** What [trimStart] leaves starts with a character that is not white
    space. *)
Lemma trimStart_head s :
  trimStart s = "" ∨ ∃ c rest, trimStart s = String c rest ∧ isWhiteSpace c = false.
Proof.
  induction s as [|c s IH]; simpl; [by left|].
  destruct (isWhiteSpace c) eqn:Hc; [done|]. right. by exists c, s.
Qed.

Lemma trimEnd_head c rest : isWhiteSpace c = false → trimEnd (String c rest) ≠ "".
Proof. intros Hc. simpl. rewrite Hc. by destruct (trimEnd rest). Qed.

(** [trim] leaves the empty string exactly of a blank text. *)
Lemma trim_blank s : trim s = "" ↔ blank s.
Proof.
  unfold trim. rewrite <- trimStart_blank.
  destruct (trimStart_head s) as [->|(c & rest & -> & Hc)]; [done|].
  split; [|discriminate]. intros H. by apply trimEnd_head in H.
Qed.

Lemma truthy_trim s : truthy (JSString (trim s)) = true ↔ ¬ blank s.
Proof.
  rewrite <- trim_blank. simpl.
  destruct (String.eqb_spec (trim s) ""); simpl; split; try done; intros H; by destruct H.
Qed.

(** *** Record updates *)

Lemma withTodos_id entry : withTodos entry (todos entry) = entry.
Proof. by destruct entry. Qed.

Lemma toggled_involutive todo : toggled (toggled todo) = todo.
Proof. destruct todo as [t c p]. unfold toggled. simpl. by rewrite negb_involutive. Qed.

(** *** Lists with positions *)

Lemma filter_from_all {A} (p : A → nat → bool) k (l : list A) :
  (∀ x j, (k <= j)%nat → p x j = true) → filter_from p k l = l.
Proof.
  revert k. induction l as [|x l IH]; intros k H; simpl; [done|].
  rewrite (H x k) by lia. f_equal. apply IH. intros y j Hj. apply H. lia.
Qed.

(** Keeping every position but [k + i], counting from [k], deletes the
    element at [i]. *)
Lemma filter_from_delete {A} (i k : nat) (l : list A) :
  filter_from (λ _ j, negb (Z.of_nat j =? Z.of_nat (k + i))) k l = delete i l.
Proof.
  revert i k. induction l as [|x l IH]; intros i k; simpl; [done|].
  destruct i as [|i]; simpl.
  - rewrite Nat.add_0_r, Z.eqb_refl. simpl.
    apply filter_from_all. intros y j Hj.
    apply negb_true_iff, Z.eqb_neq. lia.
  - assert ((Z.of_nat k =? Z.of_nat (k + S i)) = false) as -> by (apply Z.eqb_neq; lia).
    simpl. f_equal. rewrite <- (IH i (S k)).
    by replace (S k + i)%nat with (k + S i)%nat by lia.
Qed.

Lemma delete_beyond {A} (i : nat) (l : list A) : (length l <= i)%nat → delete i l = l.
Proof.
  revert i. induction l as [|x l IH]; intros i Hi; [by destruct i|].
  destruct i as [|i]; simpl in *; [lia|]. f_equal. apply IH. lia.
Qed.

(** Flipping the todo at position [i] with [map] is an update at [i]. *)
Lemma imap_toggle (i : nat) todo (l : list Todo) :
  l !! i = Some todo →
  imap (λ j t, if Z.of_nat j =? Z.of_nat i then toggled t else t) l
  = <[i := toggled todo]> l.
Proof.
  intros Hi. apply list_eq. intros j. rewrite list_lookup_imap.
  destruct (decide (j = i)) as [->|Hne].
  - rewrite Hi, list_lookup_insert_eq by by eapply lookup_lt_Some.
    simpl. by rewrite Z.eqb_refl.
  - rewrite list_lookup_insert_ne by done.
    destruct (l !! j); simpl; [|done].
    by assert ((Z.of_nat j =? Z.of_nat i) = false) as -> by (apply Z.eqb_neq; lia).
Qed.

(** A number that is the index of no todo selects nothing. *)
Lemma imap_toggle_none (index : Z) (l : list Todo) :
  index < 0 ∨ Z.of_nat (length l) <= index →
  imap (λ j t, if Z.of_nat j =? index then toggled t else t) l = l.
Proof.
  intros Hout. apply list_eq. intros j. rewrite list_lookup_imap.
  destruct (l !! j) eqn:Hj; simpl; [|done].
  apply lookup_lt_Some in Hj.
  by assert ((Z.of_nat j =? index) = false) as -> by (apply Z.eqb_neq; lia).
Qed.

Lemma imap_toggle_twice (index : Z) (l : list Todo) :
  imap (λ j t, if Z.of_nat j =? index then toggled t else t)
       (imap (λ j t, if Z.of_nat j =? index then toggled t else t) l) = l.
Proof.
  apply list_eq. intros j. rewrite !list_lookup_imap.
  destruct (l !! j); simpl; [|done].
  destruct (Z.of_nat j =? index); [|done]. by rewrite toggled_involutive.
Qed.

Lemma filter_length_insert {A} (p : A → bool) (l : list A) i old new :
  l !! i = Some old →
  (length (List.filter p (<[i := new]> l)) + (if p old then 1 else 0)
   = length (List.filter p l) + (if p new then 1 else 0))%nat.
Proof.
  intros Hi.
  rewrite insert_take_drop by by eapply lookup_lt_Some.
  rewrite <- (take_drop_middle l i old Hi) at 3.
  rewrite !List.filter_app, !length_app. simpl.
  destruct (p old), (p new); simpl; lia.
Qed.

Lemma filter_length_delete {A} (p : A → bool) (l : list A) i x :
  l !! i = Some x →
  (length (List.filter p (delete i l)) + (if p x then 1 else 0)
   = length (List.filter p l))%nat.
Proof.
  intros Hi. rewrite delete_take_drop.
  rewrite <- (take_drop_middle l i x Hi) at 3.
  rewrite !List.filter_app, !length_app. simpl.
  destruct (p x); simpl; lia.
Qed.

Section WithArithmetic.

Variable double : Q → Q.

Local Abbreviation stats := (Stats.getProductivityStats double).

(** *** The todo handlers *)

(** X1.  [addTodo] does nothing when the text of the input field is blank
    (empty or white space only): the entry and the field stay as they are.
    Otherwise it appends one todo, not completed, of the selected priority,
    whose text is the field's text as typed (it is not trimmed), and clears
    the field; the entry then has one todo more and as many completed ones
    as before. *)
Theorem addTodo_effect newTodo todoPriority prev :
  (blank newTodo → addTodo newTodo todoPriority prev = (prev, newTodo)) ∧
  (¬ blank newTodo →
   let next := (addTodo newTodo todoPriority prev).1 in
   addTodo newTodo todoPriority prev
   = (withTodos prev
        (todos prev ++ [{| text := newTodo; completed := false; priority := todoPriority |}]),
      "") ∧
   Stats.total (stats next) = S (Stats.total (stats prev)) ∧
   Stats.completedCount (stats next) = Stats.completedCount (stats prev)).
Proof.
  unfold addTodo. split; intros Hb.
  - destruct (truthy _) eqn:Ht; [|done]. by apply truthy_trim in Ht.
  - apply truthy_trim in Hb. rewrite Hb. simpl. repeat split.
    + rewrite length_app. simpl. lia.
    + rewrite List.filter_app, length_app. simpl. lia.
Qed.

(** X2.  Ticking a todo twice gives the entry back: [toggleTodo] with the
    same number is its own inverse, whatever the number. *)
Theorem toggleTodo_involutive index entry :
  toggleTodo index (toggleTodo index entry) = entry.
Proof.
  destruct entry. unfold toggleTodo, withTodos. simpl. f_equal.
  apply imap_toggle_twice.
Qed.

(** X3.  [toggleTodo] with the index of a todo flips the completion of that
    todo and changes nothing else: no other todo, no other field, not the
    text or the priority of the todo.  The number of todos and of
    high-priority todos stays, and the number of completed todos goes up by
    one if the todo was open and down by one if it was completed. *)
Theorem toggleTodo_flips (i : nat) todo entry :
  todos entry !! i = Some todo →
  let next := toggleTodo (Z.of_nat i) entry in
  next = withTodos entry (<[i := toggled todo]> (todos entry)) ∧
  text (toggled todo) = text todo ∧ priority (toggled todo) = priority todo ∧
  completed (toggled todo) = negb (completed todo) ∧
  Stats.total (stats next) = Stats.total (stats entry) ∧
  Stats.highPriority (stats next) = Stats.highPriority (stats entry) ∧
  (completed todo = false →
   Stats.completedCount (stats next) = S (Stats.completedCount (stats entry))) ∧
  (completed todo = true →
   S (Stats.completedCount (stats next)) = Stats.completedCount (stats entry)).
Proof.
  intros Hi next.
  assert (Hnext : next = withTodos entry (<[i := toggled todo]> (todos entry))).
  { unfold next, toggleTodo. by rewrite (imap_toggle i todo). }
  rewrite Hnext. simpl.
  pose proof (filter_length_insert completed _ i todo (toggled todo) Hi) as Hc.
  pose proof (filter_length_insert Stats.isHigh _ i todo (toggled todo) Hi) as Hh.
  change (Stats.isHigh (toggled todo)) with (Stats.isHigh todo) in Hh.
  simpl in Hc.
  repeat split; try done.
  - apply length_insert.
  - destruct (Stats.isHigh todo); lia.
  - intros Hopen. rewrite Hopen in Hc. simpl in Hc. lia.
  - intros Hdone. rewrite Hdone in Hc. simpl in Hc. lia.
Qed.

(** X4.  [removeTodo] with a position deletes the todo at that position:
    the todos before it stay where they are, those after it move up by
    one, and no other field changes.  With the index of a todo the entry
    has one todo less, and one completed todo less if that todo was
    completed. *)
Theorem removeTodo_deletes (i : nat) entry :
  let next := removeTodo (Z.of_nat i) entry in
  next = withTodos entry (delete i (todos entry)) ∧
  (∀ j, (j < i)%nat → todos next !! j = todos entry !! j) ∧
  (∀ j, (i <= j)%nat → todos next !! j = todos entry !! S j) ∧
  (∀ todo, todos entry !! i = Some todo →
     S (Stats.total (stats next)) = Stats.total (stats entry) ∧
     (Stats.completedCount (stats next) + (if completed todo then 1 else 0))%nat
     = Stats.completedCount (stats entry)).
Proof.
  intros next.
  assert (Hnext : next = withTodos entry (delete i (todos entry))).
  { unfold next, removeTodo. by rewrite <- (filter_from_delete i 0). }
  rewrite Hnext. simpl. refine (conj eq_refl (conj _ (conj _ _))).
  - intros j Hj. by apply list_lookup_delete_lt.
  - intros j Hj. by apply list_lookup_delete_ge.
  - intros todo Hi. split.
    + rewrite length_delete by done. apply lookup_lt_Some in Hi. lia.
    + by apply filter_length_delete.
Qed.

(** X5.  A number that is the index of no todo (negative, or not below the
    number of todos) makes [toggleTodo] and [removeTodo] leave the entry
    as it is. *)
Theorem todo_handlers_out_of_range index entry :
  index < 0 ∨ Z.of_nat (length (todos entry)) <= index →
  toggleTodo index entry = entry ∧ removeTodo index entry = entry.
Proof.
  intros Hout. unfold toggleTodo, removeTodo. split.
  - rewrite imap_toggle_none by done. apply withTodos_id.
  - assert (filter_from (λ (_ : Todo) i, negb (Z.of_nat i =? index)) 0 (todos entry)
            = todos entry) as ->; [|apply withTodos_id].
    destruct (decide (index < 0)) as [Hneg|Hpos].
    + apply filter_from_all. intros x j _. apply negb_true_iff, Z.eqb_neq. lia.
    + replace index with (Z.of_nat (0 + Z.to_nat index)) by lia.
      rewrite filter_from_delete. apply delete_beyond. lia.
Qed.

(** X6.  Removing the todo that [addTodo] has just added (the last one)
    gives back the entry as it was before the addition. *)
Theorem addTodo_removeTodo newTodo todoPriority prev :
  ¬ blank newTodo →
  removeTodo (Z.of_nat (length (todos prev))) (addTodo newTodo todoPriority prev).1 = prev.
Proof.
  intros Hb%truthy_trim. unfold addTodo. rewrite Hb. simpl.
  unfold removeTodo. simpl.
  rewrite (filter_from_delete (length (todos prev)) 0).
  rewrite delete_middle with (l1 := todos prev) (l2 := []) by done.
  rewrite app_nil_r. by destruct prev.
Qed.

End WithArithmetic.

(** *** Ratings and stars *)

Lemma stars_range star : star ∈ stars ↔ 1 <= star <= 5.
Proof. unfold stars. rewrite !elem_of_cons, elem_of_nil. lia. Qed.

(** The filled stars are the first ones, as many as the rating says, none
    below 0 and all five above 5. *)
Lemma filledStars_prefix rating :
  filledStars rating = take (Z.to_nat rating) stars.
Proof.
  unfold filledStars, stars. simpl.
  destruct (Z.leb_spec 1 rating), (Z.leb_spec 2 rating), (Z.leb_spec 3 rating),
    (Z.leb_spec 4 rating), (Z.leb_spec 5 rating); try lia.
  - rewrite take_ge; [done|simpl; lia].
  - by replace rating with 4 by lia.
  - by replace rating with 3 by lia.
  - by replace rating with 2 by lia.
  - by replace rating with 1 by lia.
  - by replace (Z.to_nat rating) with 0%nat by lia.
Qed.

Lemma filledStars_length rating :
  Z.of_nat (length (filledStars rating)) = Z.max 0 (Z.min 5 rating).
Proof. rewrite filledStars_prefix, length_take. unfold stars. simpl. lia. Qed.

Lemma getRating_setRating r type rating other :
  getRating (setRating r type rating) other
  = if decide (other = type) then rating else getRating r other.
Proof. by destruct type, other. Qed.

(** X7.  A click on a star of a [StarRating] sets that rating to the
    number of the star and leaves the other three ratings and every other
    field of the entry as they are; the [StarRating] then shows exactly the
    stars up to the clicked one filled. *)
Theorem click_star type star prev :
  star ∈ stars →
  let next := updateRating type star prev in
  getRating (ratings next) type = star ∧
  (∀ other, other ≠ type →
            getRating (ratings next) other = getRating (ratings prev) other) ∧
  withRatings next (ratings prev) = prev ∧
  (∀ s, s ∈ filledStars (getRating (ratings next) type) ↔ s ∈ stars ∧ s <= star) ∧
  Z.of_nat (length (filledStars (getRating (ratings next) type))) = star.
Proof.
  intros Hstar next. apply stars_range in Hstar.
  assert (Hget : getRating (ratings next) type = star).
  { unfold next, updateRating. simpl. rewrite getRating_setRating. by rewrite decide_True. }
  rewrite Hget. refine (conj eq_refl (conj _ (conj _ (conj _ _)))).
  - intros other Hne. unfold next, updateRating. simpl.
    rewrite getRating_setRating. by rewrite decide_False.
  - by destruct prev.
  - intros s. unfold filledStars. rewrite StoreFacts.filter_elem_of. by rewrite Z.leb_le.
  - rewrite filledStars_length. lia.
Qed.

(** *** Runs of edits *)

Lemma act_date a entry :
  date (act entry a) = date entry ∧ timestamp (act entry a) = timestamp entry.
Proof.
  destruct a as [newTodo p| | | |]; simpl; try done.
  unfold addTodo. by destruct (truthy _).
Qed.

Lemma act_ratings a entry :
  (∀ type star, a ≠ ClickStar type star) → ratings (act entry a) = ratings entry.
Proof.
  destruct a as [newTodo p| | |type star|]; simpl; intros Ha; try done.
  - unfold addTodo. by destruct (truthy _).
  - by destruct (Ha type star).
Qed.

Lemma act_in_range a entry :
  offered a → ratings_in_range entry → ratings_in_range (act entry a).
Proof.
  unfold ratings_in_range.
  destruct a as [newTodo p| | |type star|]; simpl; intros Ha Hr; try done.
  - unfold addTodo. by destruct (truthy _).
  - apply stars_range in Ha. unfold rating_in_range in *.
    destruct type; simpl; lia.
Qed.

Lemma isRated_getRating entry :
  Stats.isRated entry = true ↔ ∃ type, 0 < getRating (ratings entry) type.
Proof.
  unfold Stats.isRated. rewrite !orb_true_iff, !Z.ltb_lt. split.
  - intros [[[H|H]|H]|H];
      [exists key_overall|exists key_energy|exists key_productivity|exists key_mood]; done.
  - intros [[] H]; simpl in H; tauto.
Qed.

Lemma act_rated a entry :
  offered a → Stats.isRated entry = true → Stats.isRated (act entry a) = true.
Proof.
  rewrite !isRated_getRating.
  destruct a as [newTodo p| | |type star|]; simpl; intros Ha Hr; try done.
  - unfold addTodo. by destruct (truthy _).
  - apply stars_range in Ha. destruct Hr as [k Hk].
    destruct (decide (k = type)) as [->|Hne].
    + exists type. rewrite getRating_setRating, decide_True by done. lia.
    + exists k. by rewrite getRating_setRating, decide_False.
Qed.

Lemma edit_snoc actions a entry : edit (actions ++ [a]) entry = act (edit actions entry) a.
Proof. unfold edit. by rewrite foldl_app. Qed.

(** X8.  Whatever the user does to the working entry, starting from the
    initial entry (adding, ticking and deleting todos, clicking stars,
    typing into the text fields), its ratings stay in the range 0..5 and
    its date and timestamp stay those of the initial entry: no handler
    edits them. *)
Theorem edit_invariant today now actions :
  Forall offered actions →
  let entry := edit actions (initialEntry today now) in
  ratings_in_range entry ∧ date entry = today ∧ timestamp entry = now.
Proof.
  induction actions as [|a actions IH] using rev_ind; intros Hoff entry.
  - unfold entry, ratings_in_range, rating_in_range. simpl. repeat split; lia.
  - apply Forall_app in Hoff as [Hactions [Ha _]%Forall_cons].
    destruct (IH Hactions) as (Hr & Hd & Ht).
    unfold entry. rewrite edit_snoc.
    destruct (act_date a (edit actions (initialEntry today now))) as [-> ->].
    split; [|done]. by apply act_in_range.
Qed.


End EditorFacts.

(** ** Theme, storage and the store across reloads *)

Module SessionFacts.
Import JSFacts Store Page.

Section WithRuntime.

Variable JSON_parse : string → option JSValue.
Variable JSON_stringify : JSValue → nat → string.
Variable Date_getTime : JSValue → option Z.

Local Abbreviation mount := (Page.mount JSON_parse).
Local Abbreviation saveEntry := (Store.saveEntry JSON_stringify).
Local Abbreviation saveAll := (Store.saveAll JSON_stringify).
Local Abbreviation exportData := (Store.exportData JSON_stringify).
Local Abbreviation importData := (Store.importData JSON_parse JSON_stringify Date_getTime).

(** X10.  The theme effect stores the theme so that the next mount reads
    it back: after the effect has run for [isDarkMode], a mount sets the
    theme to [isDarkMode], and reads the entries as it would have read them
    before (the effect does not touch them).  After [toggleTheme] and the
    effect it triggers, a mount sets the other theme, and toggling twice
    gives the theme back. *)
Theorem theme_survives_reload isDarkMode storage :
  let stored := (themeEffect isDarkMode storage).2 in
  let toggled := (themeEffect (toggleTheme isDarkMode) stored).2 in
  journalEntries stored = journalEntries storage ∧
  mount stored = ('(savedEntries, _) ← mount storage; Normal (savedEntries, isDarkMode)) ∧
  mount toggled
  = ('(savedEntries, _) ← mount storage; Normal (savedEntries, negb isDarkMode)) ∧
  toggleTheme (toggleTheme isDarkMode) = isDarkMode.
Proof.
  split; [done|]. unfold Page.mount, load, toggleTheme. simpl.
  rewrite negb_involutive.
  destruct (journalEntries storage) as [text|]; simpl.
  - destruct (negb (text =? "")%string); simpl.
    + destruct (parseJSON JSON_parse text); simpl; [|done]. by destruct isDarkMode.
    + by destruct isDarkMode.
  - by destruct isDarkMode.
Qed.

(** X11.  [clearAllData] empties the store in memory and in the storage
    alike: the next mount completes and loads the empty store that
    [clearAllData] has set, whatever text was stored before, text that is
    not JSON included.  The stored theme is left as it is, so the mount
    sets the theme it would have set before, and the working entry is the
    initial entry. *)
Theorem clearAllData_then_mount initialEntry storage :
  let cleared := clearAllData initialEntry storage in
  savedEntries cleared = [] ∧ entry cleared = initialEntry ∧
  journalTheme (Page.storage cleared) = journalTheme storage ∧
  ∃ isDarkMode,
    mount (Page.storage cleared) = Normal (entriesJSON (savedEntries cleared), isDarkMode) ∧
    ∀ v d, mount storage = Normal (v, d) → d = isDarkMode.
Proof.
  simpl. do 3 (split; [done|]). unfold Page.mount, load. simpl.
  eexists. split; [done|]. intros v d.
  destruct (journalEntries storage) as [text|]; simpl.
  - destruct (negb (text =? "")%string); simpl.
    + destruct (parseJSON JSON_parse text); simpl; [|done]. by intros [= ? ?].
    + by intros [= ? ?].
  - by intros [= ? ?].
Qed.

(** *** Saves *)

(** The store after a save is the store as it was, or the store with the
    working entry under its new timestamp put at one position, or appended. *)
Lemma afterSave_cases entry now confirmOverwrite savedEntries :
  let after := afterSave savedEntries (saveEntry entry now confirmOverwrite savedEntries) in
  after = savedEntries ∨
  (∃ i, after = <[i := withTimestamp entry now]> savedEntries) ∨
  after = savedEntries ++ [withTimestamp entry now].
Proof.
  unfold Store.saveEntry. simpl.
  destruct (findIndex _ savedEntries) as [i|]; [|by right; right].
  destruct confirmOverwrite; simpl; [right; left; by exists i|by left].
Qed.

Lemma elem_of_insert {A} (l : list A) i x y : y ∈ <[i := x]> l → y = x ∨ y ∈ l.
Proof.
  intros (j & Hj)%list_elem_of_lookup_1.
  destruct (decide (i = j)) as [->|Hne].
  - destruct (decide (j < length l)%nat) as [Hlt|Hge].
    + rewrite list_lookup_insert_eq in Hj by done. left. congruence.
    + rewrite list_insert_ge in Hj by lia. right. by eapply list_elem_of_lookup_2.
  - rewrite list_lookup_insert_ne in Hj by done. right. by eapply list_elem_of_lookup_2.
Qed.

Lemma saveAll_elem_of steps savedEntries e :
  e ∈ saveAll steps savedEntries →
  e ∈ savedEntries ∨
  ∃ entry now confirmOverwrite,
    (entry, now, confirmOverwrite) ∈ steps ∧ e = withTimestamp entry now.
Proof.
  revert savedEntries.
  induction steps as [|[[entry now] c] steps IH]; intros saved; simpl; [by left|].
  intros [He|(entry' & now' & c' & Hstep & ->)]%IH.
  - destruct (afterSave_cases entry now c saved) as [H|[[i H]|H]];
      cbv zeta in H; rewrite H in He.
    + by left.
    + apply elem_of_insert in He as [->|He]; [|by left].
      right. exists entry, now, c. split; [left|done].
    + apply elem_of_app in He as [He|He%list_elem_of_singleton]; [by left|].
      subst e. right. exists entry, now, c. split; [left|done].
  - right. exists entry', now', c'. split; [by right|done].
Qed.

(** X12.  Saves put nothing in the store but working entries: after any
    run of saves every stored entry is one that was stored before, or a
    working entry of the run that differs from what was saved in the
    timestamp only.  So if the working entries have their ratings in 0..5
    (as all entries made in the editor have), a store with all ratings in
    range stays such a store. *)
Theorem saveAll_entries steps savedEntries :
  (∀ e, e ∈ saveAll steps savedEntries →
        e ∈ savedEntries ∨
        ∃ entry now confirmOverwrite,
          (entry, now, confirmOverwrite) ∈ steps ∧
          e = withTimestamp entry now ∧ withTimestamp e (timestamp entry) = entry) ∧
  (Forall ratings_in_range savedEntries →
   Forall (λ step, ratings_in_range step.1.1) steps →
   Forall ratings_in_range (saveAll steps savedEntries)).
Proof.
  split.
  - intros e [He|(entry & now & c & Hstep & ->)]%saveAll_elem_of; [by left|].
    right. exists entry, now, c. repeat split; [done|]. by destruct entry.
  - rewrite !Forall_forall. intros Hsaved Hsteps e.
    intros [He|(entry & now & c & Hstep & ->)]%saveAll_elem_of; [by apply Hsaved|].
    apply (Hsteps _ Hstep).
Qed.

Lemma edit_date actions entry :
  date (Editor.edit actions entry) = date entry.
Proof.
  induction actions as [|a actions IH] using rev_ind; [done|].
  rewrite EditorFacts.edit_snoc.
  by destruct (EditorFacts.act_date a (Editor.edit actions entry)) as [-> _].
Qed.

(** The date of a saved entry is a stored date. *)
Lemma saveEntry_stores_date entry now confirmOverwrite savedEntries newEntries written :
  saveEntry entry now confirmOverwrite savedEntries = Saved newEntries written →
  date entry ∈ date <$> newEntries.
Proof.
  unfold Store.saveEntry.
  destruct (findIndex _ savedEntries) as [i|] eqn:Hfind.
  - destruct confirmOverwrite; [|done]. intros [= <- _].
    apply StoreFacts.findIndex_Some in Hfind as (old & Hi & _).
    apply (list_elem_of_fmap_2' _ _ (withTimestamp entry now)); [|done].
    apply list_elem_of_lookup. exists i.
    apply list_lookup_insert_eq. by eapply lookup_lt_Some.
  - intros [= <- _]. apply (list_elem_of_fmap_2' _ _ (withTimestamp entry now)); [|done].
    apply elem_of_app. right. by left.
Qed.


(** *** Imports *)

Lemma collides_toJS savedEntries e :
  collides savedEntries (toJS e) = bool_decide (date e ∈ date <$> savedEntries).
Proof. reflexivity. Qed.

Lemma newItems_nothing savedEntries items :
  (∀ v, v ∈ items → collides savedEntries v = true) → newItems savedEntries items = [].
Proof.
  intros H. apply StoreFacts.filter_none. intros v Hv. by rewrite (H v Hv).
Qed.

(** X14.  Importing the export of a store into that store adds nothing:
    every entry of the file is skipped, none is imported, and the store
    holds the entries it held (the import sorts them by date).  The file is
    read back by a [JSON.parse] that inverts [JSON.stringify] on the
    exported document. *)
Theorem export_import_same_store savedEntries exportDate fileDate :
  JSON_parse (content (exportData exportDate fileDate savedEntries))
  = Some (dataToExport exportDate savedEntries) →
  ∃ mergedEntries written,
    importData savedEntries (content (exportData exportDate fileDate savedEntries))
    = Imported mergedEntries written 0 (length savedEntries) ∧
    mergedEntries ≡ₚ toJS <$> savedEntries.
Proof.
  intros Hparse.
  assert (Hread : Forall (λ v, readable v = true) (toJS <$> savedEntries)).
  { apply Forall_forall. by intros v (e & -> & _)%list_elem_of_fmap. }
  destruct (StoreFacts.importData_readable JSON_parse JSON_stringify Date_getTime
              savedEntries _ _ (toJS <$> savedEntries) Hparse eq_refl Hread)
    as [Hout Hperm].
  assert (Hnone : newItems savedEntries (toJS <$> savedEntries) = []).
  { apply newItems_nothing. intros v (e & -> & He)%list_elem_of_fmap.
    rewrite collides_toJS. apply bool_decide_eq_true. by apply list_elem_of_fmap_2. }
  rewrite Hnone in Hout, Hperm. rewrite app_nil_r in Hout, Hperm.
  simpl in Hout. rewrite length_fmap, Nat.sub_0_r in Hout.
  by eexists _, _.
Qed.

(** X15.  An import reads nothing of the file but its [entries]: two files
    that parse to values with the same [entries] have the same outcome,
    whatever else they hold.  The export date and the count [totalEntries]
    of an export are never looked at. *)
Theorem importData_reads_entries_only savedEntries file1 file2 data1 data2 :
  JSON_parse file1 = Some data1 → JSON_parse file2 = Some data2 →
  get_entries data1 = get_entries data2 →
  importData savedEntries file1 = importData savedEntries file2.
Proof.
  intros H1 H2 Hsame. unfold Store.importData, tryImport, parseJSON.
  rewrite H1, H2. simpl. by rewrite Hsame.
Qed.

Lemma fmap_map {A B} (f : A → B) (l : list A) : f <$> l = map f l.
Proof. induction l as [|x l IH]; [done|]. rewrite fmap_cons. simpl. by rewrite IH. Qed.

(** The entries of a typed payload that an import adds. *)
Lemma newItems_toJS savedEntries (payload : list JournalEntry) :
  newItems savedEntries (toJS <$> payload)
  = toJS <$> List.filter (λ e, negb (bool_decide (date e ∈ date <$> savedEntries))) payload.
Proof.
  unfold newItems. induction payload as [|e l IH]; [done|].
  rewrite fmap_cons. cbn [List.filter]. rewrite collides_toJS, IH.
  by destruct (bool_decide _).
Qed.

Lemma toJS_date e e' : toJS e = toJS e' → date e = date e'.
Proof. by intros [= ? _]. Qed.

(** X16.  Importing a file a second time adds nothing.  After an import
    of a file of journal entries the store is a list of journal entries
    again, and importing the same file into that store skips every entry of
    the file, imports none, and leaves the store with the entries it has. *)
Theorem importData_twice savedEntries fileText importedData payload
    mergedEntries written imported skipped :
  JSON_parse fileText = Some importedData →
  get_entries importedData = Normal (entriesJSON payload) →
  importData savedEntries fileText = Imported mergedEntries written imported skipped →
  (∃ stored, mergedEntries = toJS <$> stored) ∧
  ∀ stored, mergedEntries = toJS <$> stored →
    ∃ again written',
      importData stored fileText = Imported again written' 0 (length payload) ∧
      again ≡ₚ mergedEntries.
Proof.
  intros Hparse Hentries Hfirst.
  assert (Hread : Forall (λ v, readable v = true) (toJS <$> payload)).
  { apply Forall_forall. by intros v (e & -> & _)%list_elem_of_fmap. }
  destruct (StoreFacts.importData_readable JSON_parse JSON_stringify Date_getTime
              savedEntries _ _ (toJS <$> payload) Hparse Hentries Hread)
    as [Hout Hperm].
  rewrite Hfirst in Hout. injection Hout as Hmerged _ _ _.
  rewrite <- Hmerged, newItems_toJS, <- fmap_app in Hperm.
  set (fresh := List.filter _ payload) in Hperm.
  split.
  - rewrite fmap_map in Hperm. apply Permutation_map_inv in Hperm as (stored & -> & _).
    exists stored. symmetry. apply fmap_map.
  - intros stored Hstored.
    assert (Hdates : ∀ e, e ∈ savedEntries ++ fresh → date e ∈ date <$> stored).
    { intros e He.
      assert (Hin : toJS e ∈ mergedEntries) by (rewrite Hperm; by apply list_elem_of_fmap_2).
      rewrite Hstored in Hin. apply list_elem_of_fmap in Hin as (e' & Heq & He').
      rewrite (toJS_date _ _ Heq). by apply list_elem_of_fmap_2. }
    assert (Hnone : newItems stored (toJS <$> payload) = []).
    { apply newItems_nothing. intros v (e & -> & He)%list_elem_of_fmap.
      rewrite collides_toJS. apply bool_decide_eq_true.
      destruct (decide (date e ∈ date <$> savedEntries)) as [Hold|Hnew].
      - apply list_elem_of_fmap in Hold as (e' & -> & He').
        apply Hdates, elem_of_app. by left.
      - apply Hdates, elem_of_app. right. apply StoreFacts.filter_elem_of.
        split; [done|]. apply negb_true_iff. by apply bool_decide_eq_false. }
    destruct (StoreFacts.importData_readable JSON_parse JSON_stringify Date_getTime
                stored _ _ (toJS <$> payload) Hparse Hentries Hread)
      as [Hout' Hperm'].
    rewrite Hnone in Hout', Hperm'. rewrite app_nil_r in Hout', Hperm'.
    simpl in Hout'. rewrite length_fmap, Nat.sub_0_r in Hout'.
    eexists _, _. split; [exact Hout'|]. by rewrite Hperm', Hstored.
Qed.

(** *** Reloads *)

(** X17.  What a save or an import writes is what the next mount loads.
    A save that goes through writes the text of the store it sets, and an
    import writes the text of the merged store it sets; a mount on the
    storage after that write loads that store, with the theme the storage
    had.  The text is read back by a [JSON.parse] that inverts
    [JSON.stringify] on the store that was set, and the text of a store is
    not the empty text (no JSON text is). *)
Theorem written_store_survives_reload savedEntries storage :
  (∀ entry now confirmOverwrite newEntries written,
     saveEntry entry now confirmOverwrite savedEntries = Saved newEntries written →
     JSON_parse (JSON_stringify (entriesJSON newEntries) 0) = Some (entriesJSON newEntries) →
     JSON_stringify (entriesJSON newEntries) 0 ≠ "" →
     written = JSON_stringify (entriesJSON newEntries) 0 ∧
     ∃ isDarkMode,
       mount (setEntries written storage) = Normal (entriesJSON newEntries, isDarkMode) ∧
       ∀ v d, mount storage = Normal (v, d) → d = isDarkMode) ∧
  (∀ fileText mergedEntries written imported skipped,
     importData savedEntries fileText = Imported mergedEntries written imported skipped →
     JSON_parse (JSON_stringify (JSArray mergedEntries) 0) = Some (JSArray mergedEntries) →
     JSON_stringify (JSArray mergedEntries) 0 ≠ "" →
     written = JSON_stringify (JSArray mergedEntries) 0 ∧
     ∃ isDarkMode,
       mount (setEntries written storage) = Normal (JSArray mergedEntries, isDarkMode) ∧
       ∀ v d, mount storage = Normal (v, d) → d = isDarkMode).
Proof.
  assert (Hreload : ∀ store written,
            JSON_parse written = Some store → written ≠ "" →
            ∃ isDarkMode,
              mount (setEntries written storage) = Normal (store, isDarkMode) ∧
              ∀ v d, mount storage = Normal (v, d) → d = isDarkMode).
  { intros store written Hparse Hne. unfold Page.mount, load, parseJSON. simpl.
    destruct (String.eqb_spec written ""); [done|]. simpl. rewrite Hparse. simpl.
    eexists. split; [done|]. intros v d.
    destruct (journalEntries storage) as [text|]; simpl.
    - destruct (negb (text =? "")%string); simpl.
      + destruct (JSON_parse text); simpl; [|done]. by intros [= ? ?].
      + by intros [= ? ?].
    - by intros [= ? ?]. }
  split.
  - intros entry now c newEntries written Hsaved Hparse Hne.
    assert (Hwritten : written = JSON_stringify (entriesJSON newEntries) 0).
    { unfold Store.saveEntry in Hsaved.
      destruct (findIndex _ savedEntries) as [i|]; [destruct c|];
        simpl in Hsaved; try discriminate; by injection Hsaved as <- <-. }
    split; [done|]. rewrite Hwritten. by apply Hreload.
  - intros fileText mergedEntries written imported skipped Himported Hparse Hne.
    assert (Hwritten : written = JSON_stringify (JSArray mergedEntries) 0).
    { unfold Store.importData in Himported.
      destruct (tryImport _ _ savedEntries fileText) as [[[m i] s]|]; [|done].
      by injection Himported as <- <- _ _. }
    split; [done|]. rewrite Hwritten. by apply Hreload.
Qed.

End WithRuntime.
End SessionFacts.

(** ** What is displayed *)

Module ViewFacts.
Import Stats Editor View.

(** *** The todo list by priority *)

Lemma hasPriority_spec P todo : hasPriority P todo = true ↔ priority todo = P.
Proof. unfold hasPriority. destruct (priority todo), P; split; congruence. Qed.

Lemma hasPriority_toggled P todo : hasPriority P (toggled todo) = hasPriority P todo.
Proof. reflexivity. Qed.

(** The rows carry the todos in the order of the list. *)
Lemma rows_fst (l : list Todo) : (imap (λ index todo, (todo, index)) l).*1 = l.
Proof.
  rewrite fmap_imap. apply list_eq. intros i. rewrite list_lookup_imap.
  by destruct (l !! i).
Qed.

(** They carry the positions 0, 1, 2, ... *)
Lemma rows_snd (l : list Todo) :
  (imap (λ index todo, (todo, index)) l).*2 = seq 0 (length l).
Proof.
  rewrite fmap_imap. rewrite <- (list_fmap_id (seq 0 (length l))).
  apply (imap_seq_0 l (λ j, j)).
Qed.

Lemma filter_fmap {A B} (p : B → bool) (f : A → B) (l : list A) :
  List.filter p (f <$> l) = f <$> List.filter (λ x, p (f x)) l.
Proof.
  induction l as [|x l IH]; [done|]. rewrite fmap_cons. cbn [List.filter].
  rewrite IH. by destruct (p (f x)).
Qed.

Lemma filter_ext_in {A} (p q : A → bool) (l : list A) :
  (∀ x, x ∈ l → p x = q x) → List.filter p l = List.filter q l.
Proof.
  induction l as [|x l IH]; intros H; simpl; [done|].
  rewrite (H x) by left. rewrite IH; [done|]. intros y Hy. apply H. by right.
Qed.

(** The todos of the rows of a group are the todos of that priority. *)
Lemma groupRows_fst P (l : list Todo) :
  (groupRows P l).*1 = List.filter (hasPriority P) l.
Proof.
  unfold groupRows. rewrite <- (rows_fst l) at 2.
  by rewrite filter_fmap.
Qed.

Lemma groupRows_elem_of P (l : list Todo) todo index :
  (todo, index) ∈ groupRows P l ↔ l !! index = Some todo ∧ priority todo = P.
Proof.
  unfold groupRows. rewrite StoreFacts.filter_elem_of, elem_of_lookup_imap. simpl.
  rewrite hasPriority_spec. split.
  - intros [(i & x & [= -> ->] & Hi) HP]. done.
  - intros [Hi HP]. split; [|done]. by exists index, todo.
Qed.

(** Three lists that sort the elements of a list by priority hold each
    element once. *)
Lemma by_priority_Permutation {A} (f : A → Todo) (rows : list A) :
  List.filter (λ row, hasPriority high (f row)) rows
  ++ List.filter (λ row, hasPriority medium (f row)) rows
  ++ List.filter (λ row, hasPriority low (f row)) rows
  ≡ₚ rows.
Proof.
  induction rows as [|row rows IH]; [done|]. cbn [List.filter].
  destruct (hasPriority high (f row)) eqn:H1, (hasPriority medium (f row)) eqn:H2,
    (hasPriority low (f row)) eqn:H3;
    try (exfalso; unfold hasPriority in H1, H2, H3;
         destruct (priority (f row)); discriminate).
  - simpl. by rewrite IH.
  - rewrite <- app_comm_cons, <- Permutation_middle. by rewrite IH.
  - rewrite app_assoc, <- Permutation_middle, <- app_assoc. by rewrite IH.
Qed.

Lemma increasing_filter (p : nat → bool) (l : list nat) :
  StronglySorted lt l → StronglySorted lt (List.filter p l).
Proof.
  induction 1 as [|x l Hl IH Hx]; simpl; [constructor|].
  destruct (p x); [|done]. constructor; [done|].
  apply Forall_forall. intros y [Hy _]%StoreFacts.filter_elem_of.
  by apply (proj1 (Forall_forall _ _) Hx).
Qed.

Lemma increasing_seq (k n : nat) : StronglySorted lt (seq k n).
Proof.
  revert k. induction n as [|n IH]; intros k; simpl; constructor; [apply IH|].
  apply Forall_forall. intros j Hj%elem_of_seq. lia.
Qed.

Lemma groupRows_snd P (l : list Todo) : StronglySorted lt (groupRows P l).*2.
Proof.
  assert (H : ∀ (rows : list (Todo * nat)),
             StronglySorted lt rows.*2 →
             StronglySorted lt (List.filter (λ row, hasPriority P row.1) rows).*2).
  { induction rows as [|row rows IH]; simpl; [done|].
    intros [Hrows Hrow]%StronglySorted_inv.
    destruct (hasPriority P row.1); [|by apply IH]. rewrite fmap_cons.
    constructor; [by apply IH|].
    apply Forall_forall. intros j (r & -> & [Hr _]%StoreFacts.filter_elem_of)%list_elem_of_fmap.
    apply (proj1 (Forall_forall _ _) Hrow). by apply list_elem_of_fmap_2. }
  apply H. rewrite rows_snd. apply increasing_seq.
Qed.

(** X18.  The todo list by priority shows every todo of the entry in
    exactly one row, in the group of its priority, and each row carries the
    index its todo has in the entry: that is the todo its checkbox toggles
    and its button removes.  Within a group the rows are in the order of the
    entry.  A group and its heading are shown exactly when the group has a
    row; the placeholder is shown instead of the groups exactly when the
    entry has no todo, and otherwise at least one group is shown. *)
Theorem todoList_rows entry :
  (∀ P todo index,
     (todo, index) ∈ groupRows P (todos entry)
     ↔ todos entry !! index = Some todo ∧ priority todo = P) ∧
  groupRows high (todos entry) ++ groupRows medium (todos entry)
    ++ groupRows low (todos entry)
  ≡ₚ imap (λ index todo, (todo, index)) (todos entry) ∧
  (∀ P, StronglySorted lt (groupRows P (todos entry)).*2) ∧
  (∀ P, group P (todos entry) = None ↔ groupRows P (todos entry) = []) ∧
  (∀ P rows, group P (todos entry) = Some rows
             ↔ rows = groupRows P (todos entry) ∧ rows ≠ []) ∧
  (todoList entry = NoTasksYet ↔ todos entry = []) ∧
  (todos entry ≠ [] →
   todoList entry = Groups (group high (todos entry)) (group medium (todos entry))
                           (group low (todos entry)) ∧
   ∃ P, is_Some (group P (todos entry))).
Proof.
  assert (Hshown : ∀ P, (0 <? length (List.filter (hasPriority P) (todos entry)))%nat
                        = negb (bool_decide (groupRows P (todos entry) = []))).
  { intros P. rewrite <- groupRows_fst, length_fmap.
    destruct (groupRows P (todos entry)); by simpl. }
  refine (conj _ (conj _ (conj _ (conj _ (conj _ (conj _ _)))))).
  - intros P todo index. apply groupRows_elem_of.
  - apply (by_priority_Permutation fst).
  - intros P. apply groupRows_snd.
  - intros P. unfold group. rewrite Hshown.
    destruct (groupRows P (todos entry)); simpl; split; done.
  - intros P rows. unfold group. rewrite Hshown.
    destruct (groupRows P (todos entry)) eqn:E; simpl; split; try done.
    + by intros [-> ?].
    + by intros [= <-].
    + by intros [-> _].
  - unfold todoList. destruct (todos entry); simpl; split; done.
  - intros Hne. split.
    + unfold todoList. by destruct (todos entry).
    + destruct (todos entry) as [|todo rest]; [done|].
      exists (priority todo). unfold group. rewrite Hshown.
      assert (Hrow : (todo, 0%nat) ∈ groupRows (priority todo) (todo :: rest))
        by by apply groupRows_elem_of.
      destruct (groupRows (priority todo) (todo :: rest)); [by apply elem_of_nil in Hrow|].
      simpl. by eexists.
Qed.

Lemma imap_imap {A B C} (f : nat → B → C) (g : nat → A → B) (l : list A) :
  imap f (imap g l) = imap (λ i x, f i (g i x)) l.
Proof.
  apply list_eq. intros i. rewrite !list_lookup_imap. by destruct (l !! i).
Qed.

(** X19.  Ticking the checkbox of a row flips the todo of that row where
    it stands: every group has the rows it had, in the same order and
    with the same indices, and only the row with the index that was passed
    has its todo flipped. *)
Theorem toggleTodo_rows (index : nat) entry P :
  groupRows P (todos (toggleTodo (Z.of_nat index) entry))
  = (λ row, if (row.2 =? index)%nat then (toggled row.1, row.2) else row)
    <$> groupRows P (todos entry).
Proof.
  unfold toggleTodo, groupRows. simpl. rewrite imap_imap.
  set (flip := λ row : Todo * nat,
                 if (row.2 =? index)%nat then (toggled row.1, row.2) else row).
  assert (imap (λ i x, (if Z.of_nat i =? Z.of_nat index then toggled x else x, i))
               (todos entry)
          = flip <$> imap (λ i todo, (todo, i)) (todos entry)) as ->.
  { rewrite fmap_imap. apply imap_ext. intros i x _. unfold flip. simpl.
    destruct (Nat.eqb_spec i index) as [->|Hne].
    - by rewrite Z.eqb_refl.
    - by assert ((Z.of_nat i =? Z.of_nat index) = false) as -> by (apply Z.eqb_neq; lia). }
  rewrite filter_fmap. f_equal. apply filter_ext_in. intros row _.
  unfold flip. by destruct (row.2 =? index)%nat.
Qed.

(** The badge of a row: each priority has a class of its own, and none has
    the class of the default branch. *)
Lemma getPriorityColor_priorities :
  NoDup [getPriorityColor "high"; getPriorityColor "medium"; getPriorityColor "low";
         getPriorityColor ""].
Proof. apply (bool_decide_unpack _). vm_compute. exact I. Qed.

(** *** The recent entries *)

Lemma slice_last_lookup {A} (n k : nat) (l : list A) :
  (k < n `min` length l)%nat →
  reverse (slice_last n l) !! k = l !! (length l - 1 - k)%nat.
Proof.
  intros Hk. rewrite reverse_lookup by (rewrite StatsFacts.slice_last_length; lia).
  rewrite StatsFacts.slice_last_length. unfold slice_last. rewrite lookup_drop.
  f_equal. lia.
Qed.

(** X20.  The recent entries are shown exactly when the store is not
    empty.  They are the last five entries of the store (all of them if
    there are fewer), the last one first.  In each row the number of
    completed todos is at most the number of todos; the badge of completed
    high-priority todos is there exactly when there is such a todo, and its
    number is at most the number of completed todos; the main goal is shown
    as it is unless it is empty, and then the placeholder is shown. *)
Theorem recentEntries_rows savedEntries :
  (recentEntries savedEntries = None ↔ savedEntries = []) ∧
  ∀ rows, recentEntries savedEntries = Some rows →
    length rows = (5 `min` length savedEntries)%nat ∧
    (∀ k, (k < length rows)%nat →
          rows !! k = recentRow <$> savedEntries !! (length savedEntries - 1 - k)%nat) ∧
    Forall (λ row, (rowCompleted row <= rowTotal row)%nat ∧ rowGoal row ≠ "" ∧
                   match rowHighCompleted row with
                   | Some n => (0 < n <= rowCompleted row)%nat
                   | None => True
                   end) rows ∧
    (∀ e, e ∈ savedEntries →
          (rowHighCompleted (recentRow e) = None ↔
           ∀ todo, todo ∈ todos e → priority todo = high → completed todo = false) ∧
          (mainGoal e ≠ "" → rowGoal (recentRow e) = mainGoal e)).
Proof.
  unfold recentEntries. split.
  - destruct savedEntries; simpl; split; done.
  - intros rows. destruct savedEntries as [|e0 l0] eqn:E; [done|]. rewrite <- E.
    assert (Hpos : (0 <? length savedEntries)%nat = true) by by rewrite E.
    rewrite Hpos. clear E Hpos e0 l0. intros [= <-].
    assert (Hlen : length (recentRow <$> reverse (slice_last 5 savedEntries))
                   = (5 `min` length savedEntries)%nat).
    { by rewrite length_fmap, length_reverse, StatsFacts.slice_last_length. }
    refine (conj Hlen (conj _ (conj _ _))).
    + intros k Hk. rewrite list_lookup_fmap, slice_last_lookup; [done|lia].
    + apply Forall_fmap, Forall_forall. intros e _. simpl.
      refine (conj _ (conj _ _)).
      * apply List.filter_length_le.
      * destruct (String.eqb_spec (mainGoal e) ""); simpl; done.
      * destruct (0 <? _)%nat eqn:Hh; [|done]. apply Nat.ltb_lt in Hh.
        split; [done|].
        etrans; [|apply (StatsFacts.filter_and_length completed isHigh)].
        apply Nat.eq_le_incl. f_equal. apply filter_ext_in. intros x _. apply andb_comm.
    + intros e _. simpl. split.
      * destruct (0 <? _)%nat eqn:Hh.
        -- apply Nat.ltb_lt in Hh. split; [done|]. intros Hnone. exfalso.
           destruct (List.filter _ (todos e)) as [|todo rest] eqn:Hf; [simpl in Hh; lia|].
           assert (Hin : todo ∈ List.filter (λ t, isHigh t && completed t) (todos e))
             by (rewrite Hf; left).
           apply StoreFacts.filter_elem_of in Hin as [Hin [Hhigh Hdone]%andb_true_iff].
           rewrite (Hnone todo Hin) in Hdone; [done|].
           unfold isHigh in Hhigh. by destruct (priority todo).
        -- split; [|done]. intros _ todo Hin Hhigh.
           apply Nat.ltb_ge in Hh.
           destruct (completed todo) eqn:Hdone; [|done]. exfalso.
           assert (Hmem : todo ∈ List.filter (λ t, isHigh t && completed t) (todos e)).
           { apply StoreFacts.filter_elem_of. split; [done|].
             unfold isHigh. by rewrite Hhigh, Hdone. }
           destruct (List.filter _ (todos e)); [by apply elem_of_nil in Hmem|simpl in Hh; lia].
      * intros Hgoal. by destruct (String.eqb_spec (mainGoal e) "").
Qed.

Section Arithmetic.

Variable double : Q → Q.

Hypothesis double_proper : ∀ x y : Q, (x == y)%Q → (double x == double y)%Q.
Hypothesis double_integer :
  ∀ z : Z, Z.abs z <= 2 ^ 53 → (double (inject_Z z) == inject_Z z)%Q.
Hypothesis double_accurate :
  ∀ x : Q, (1 # 2 ^ 64 <= x)%Q → (x <= inject_Z (2 ^ 64))%Q →
           (Qabs (double x - x) <= x * (1 # 2 ^ 53))%Q.

Local Abbreviation percent := (Stats.percent double).
Local Abbreviation getProductivityStats := (Stats.getProductivityStats double).
Local Abbreviation ratingAverages := (Stats.ratingAverages double).
Local Abbreviation completionTrend := (View.completionTrend double).
Local Abbreviation insights := (Stats.insights double).

(** *** The recent trends *)

(** X21.  The task completion trend has a row for each of the last seven
    entries of the store (for all of them if there are fewer), in the order
    of the store.  The rate of a row is the completion rate the productivity
    card shows for that entry, and it is an integer from 0 to 100, so the
    bar of the row is never wider than its track.  (Entries with fewer than
    2^32 todos, as every array.) *)
Theorem completionTrend_rows savedEntries :
  Forall (λ e, Z.of_nat (length (todos e)) < 2 ^ 32) savedEntries →
  length (completionTrend savedEntries) = (7 `min` length savedEntries)%nat ∧
  completionTrend savedEntries
  = (λ e, completionRate (getProductivityStats e)) <$> slice_last 7 savedEntries ∧
  slice_last 7 savedEntries `suffix_of` savedEntries ∧
  Forall (λ rate, 0 <= rate <= 100) (completionTrend savedEntries).
Proof.
  intros Hsize. unfold View.completionTrend.
  refine (conj _ (conj eq_refl (conj _ _))).
  - by rewrite length_fmap, StatsFacts.slice_last_length.
  - apply StatsFacts.slice_last_suffix.
  - apply Forall_fmap, Forall_forall. intros e He.
    assert (H32 : Z.of_nat (length (todos e)) < 2 ^ 32).
    { apply (proj1 (Forall_forall _ _) Hsize).
      destruct (StatsFacts.slice_last_suffix 7 savedEntries) as [pre Hpre].
      rewrite Hpre. apply elem_of_app. by right. }
    simpl. unfold trendCompletionRate.
    destruct (0 <? length (todos e))%nat eqn:Hpos; [|lia].
    apply Nat.ltb_lt in Hpos.
    apply StatsFacts.percent_range; try done. apply List.filter_length_le.
Qed.

(** X22.  The mood trend has a row for each of the last seven entries of
    the store, in the order of the store; a row shows the mood of its entry
    as a number and as stars, and for a mood in the range 0..5 the number of
    filled stars is that number. *)
Theorem moodTrend_rows savedEntries :
  Forall ratings_in_range savedEntries →
  length (moodTrend savedEntries) = (7 `min` length savedEntries)%nat ∧
  moodTrend savedEntries
  = (λ e, (filledStars (mood (ratings e)), mood (ratings e))) <$> slice_last 7 savedEntries ∧
  Forall (λ row, Z.of_nat (length row.1) = row.2 ∧ ∀ star, star ∈ row.1 ↔ 1 <= star <= row.2)
         (moodTrend savedEntries).
Proof.
  intros Hrange.
  assert (Heq : moodTrend savedEntries
                = (λ e, (filledStars (mood (ratings e)), mood (ratings e)))
                  <$> slice_last 7 savedEntries).
  { unfold moodTrend. apply list_fmap_ext. intros _ e _. by rewrite StatsFacts.orZero_id. }
  refine (conj _ (conj Heq _)).
  - by rewrite Heq, length_fmap, StatsFacts.slice_last_length.
  - rewrite Heq. apply Forall_fmap, Forall_forall. intros e He. simpl.
    assert (Hmood : 0 <= mood (ratings e) <= 5).
    { destruct (StatsFacts.slice_last_suffix 7 savedEntries) as [pre Hpre].
      assert (Hin : e ∈ savedEntries) by (rewrite Hpre; apply elem_of_app; by right).
      apply (proj1 (Forall_forall _ _) Hrange e Hin). }
    split.
    + rewrite EditorFacts.filledStars_length. lia.
    + intros star. unfold filledStars.
      rewrite StoreFacts.filter_elem_of, EditorFacts.stars_range, Z.leb_le. lia.
Qed.

(** *** The stars of the averages *)

Lemma tenth (n : Z) : (n # 10 == inject_Z n * (1 # 10))%Q.
Proof. unfold Qeq. simpl. lia. Qed.

(** The mean of values from 0 to 5, as the code computes and rounds it,
    lies between 0 and 5. *)
Lemma average1_range (f : JournalEntry → Z) (l : list JournalEntry) :
  (0 < length l)%nat → Z.of_nat (length l) < 2 ^ 32 →
  Forall (λ e, 0 <= f e <= 5) l →
  (0 <= Stats.average1 double f l)%Q ∧ (Stats.average1 double f l <= 5)%Q.
Proof.
  intros Hpos H32 Hrange.
  destruct (StatsFacts.average1_rounded double double_proper double_integer
              double_accurate f l Hpos H32 Hrange) as (n & -> & Hn).
  pose proof (StatsFacts.sumOf_range f l Hrange) as [HS0 HS5].
  assert (HT : (0 < inject_Z (Z.of_nat (length l)))%Q)
    by (change 0%Q with (inject_Z 0); rewrite <- Zlt_Qlt; lia).
  assert (HS0' : (0 <= inject_Z (sumOf f l))%Q)
    by (change 0%Q with (inject_Z 0); by rewrite <- Zle_Qle).
  assert (HS5' : (inject_Z (sumOf f l) <= 5 * inject_Z (Z.of_nat (length l)))%Q).
  { change 5%Q with (inject_Z 5). by rewrite <- inject_Z_mult, <- Zle_Qle. }
  assert (Hq : (inject_Z (sumOf f l) / inject_Z (Z.of_nat (length l))
                * inject_Z (Z.of_nat (length l)) == inject_Z (sumOf f l))%Q) by (field; lra).
  apply Qabs_Qle_condition in Hn as [Hn1 Hn2].
  revert Hq Hn1 Hn2.
  generalize (inject_Z (sumOf f l) / inject_Z (Z.of_nat (length l)))%Q.
  intros q Hq Hn1 Hn2.
  assert (Hq0 : (0 <= q)%Q) by nra. assert (Hq5 : (q <= 5)%Q) by nra.
  pose proof (tenth n) as Hten.
  assert (Hn0 : 0 <= n).
  { assert (-1 < n); [|lia]. rewrite Zlt_Qlt. change (inject_Z (-1)) with (-1)%Q. lra. }
  assert (Hn50 : n <= 50).
  { assert (n < 51); [|lia]. rewrite Zlt_Qlt. change (inject_Z 51) with 51%Q. lra. }
  destruct (decide (n = 0)) as [->|Hne0].
  - rewrite (double_proper (0 # 10) (inject_Z 0)) by done.
    rewrite double_integer by done. done.
  - destruct (decide (n = 50)) as [->|Hne50].
    + rewrite (double_proper (50 # 10) (inject_Z 5)) by done.
      rewrite double_integer by done. done.
    + assert (H1 : (1 <= inject_Z n)%Q)
        by (change 1%Q with (inject_Z 1); rewrite <- Zle_Qle; lia).
      assert (H49 : (inject_Z n <= 49)%Q)
        by (change 49%Q with (inject_Z 49); rewrite <- Zle_Qle; lia).
      destruct (StatsFacts.double_error double double_accurate (n # 10)) as [Hd1 Hd2];
        [lra..|].
      split; lra.
Qed.

Lemma Math_round_nearest x : nearestInteger (Math_round x) x.
Proof.
  destruct (StatsFacts.Math_round_bounds x) as [Hlo Hhi].
  unfold nearestInteger. apply Qabs_Qle_condition. split; lra.
Qed.

Lemma Math_round_range x (a b : Z) :
  (inject_Z a <= x)%Q → (x <= inject_Z b)%Q → a <= Math_round x <= b.
Proof.
  intros Ha Hb. destruct (StatsFacts.Math_round_bounds x) as [Hlo Hhi]. split.
  - assert (a < Math_round x + 1); [|lia].
    rewrite Zlt_Qlt, inject_Z_plus. change (inject_Z 1) with 1%Q. lra.
  - assert (Math_round x < b + 1); [|lia].
    rewrite Zlt_Qlt, inject_Z_plus. change (inject_Z 1) with 1%Q. lra.
Qed.

(** X23.  Every rating average shown lies between 0 and 5, and the stars
    under it are filled up to the integer nearest to it: their number is
    [Math.round] of the average, an integer from 0 to 5.  (Ratings in their
    range 0..5, fewer than 2^32 entries.) *)
Theorem ratingAverages_stars savedEntries entry a :
  Forall ratings_in_range (savedEntries ++ [entry]) →
  Z.of_nat (length (savedEntries ++ [entry])) < 2 ^ 32 →
  ratingAverages savedEntries entry = Some a →
  Forall (λ avg, (0 <= avg)%Q ∧ (avg <= 5)%Q ∧
                 nearestInteger (Math_round avg) avg ∧
                 0 <= Math_round avg <= 5 ∧
                 Z.of_nat (length (averageStars avg)) = Math_round avg)
         [avgOverall a; avgEnergy a; avgProductivity a; avgMood a].
Proof.
  intros Hrange H32. unfold Stats.ratingAverages.
  set (population := List.filter isRated (savedEntries ++ [entry])).
  destruct (length population =? 0)%nat eqn:Hlen; [done|].
  apply Nat.eqb_neq in Hlen. intros [= <-]. simpl.
  assert (Hle : (length population <= length (savedEntries ++ [entry]))%nat)
    by apply List.filter_length_le.
  assert (Hpop : Forall ratings_in_range population).
  { apply Forall_forall. intros e [He _]%StoreFacts.filter_elem_of.
    by apply (proj1 (Forall_forall _ _) Hrange). }
  assert (Hstars : ∀ f : JournalEntry → Z,
             Forall (λ e, 0 <= f e <= 5) population →
             let avg := Stats.average1 double f population in
             (0 <= avg)%Q ∧ (avg <= 5)%Q ∧ nearestInteger (Math_round avg) avg ∧
             0 <= Math_round avg <= 5 ∧
             Z.of_nat (length (averageStars avg)) = Math_round avg).
  { intros f Hf avg.
    destruct (average1_range f population) as [H0 H5]; [lia|lia|done|].
    fold avg in H0, H5.
    assert (Hr : 0 <= Math_round avg <= 5) by by apply Math_round_range.
    refine (conj H0 (conj H5 (conj (Math_round_nearest avg) (conj Hr _)))).
    unfold averageStars. rewrite EditorFacts.filledStars_length. lia. }
  repeat apply Forall_cons_2; [..|apply Forall_nil_2]; apply Hstars;
    (eapply Forall_impl; [exact Hpop|]); intros e (H1 & H2 & H3 & H4); done.
Qed.

(** *** The rates at their ends *)

(** An integer nearest to a quotient, in integer terms. *)
Lemma nearest_cross (r p t : Z) :
  0 < t → nearestInteger r (inject_Z p / inject_Z t) →
  2 * p - t <= 2 * r * t <= 2 * p + t.
Proof.
  intros Ht Hnear. unfold nearestInteger in Hnear.
  assert (HT : (0 < inject_Z t)%Q) by (change 0%Q with (inject_Z 0); by rewrite <- Zlt_Qlt).
  assert (Hx : (inject_Z p / inject_Z t * inject_Z t == inject_Z p)%Q) by (field; lra).
  apply Qabs_Qle_condition in Hnear as [H1 H2].
  revert Hx H1 H2. generalize (inject_Z p / inject_Z t)%Q. intros q Hx H1 H2.
  assert (Hup : ((inject_Z r - q) * inject_Z t <= (1 # 2) * inject_Z t)%Q) by nra.
  assert (Hdown : (- (1 # 2) * inject_Z t <= (inject_Z r - q) * inject_Z t)%Q) by nra.
  split.
  - rewrite Zle_Qle. unfold Z.sub.
    rewrite !inject_Z_plus, !inject_Z_opp, !inject_Z_mult.
    change (inject_Z 2) with 2%Q. lra.
  - rewrite Zle_Qle, !inject_Z_plus, !inject_Z_mult.
    change (inject_Z 2) with 2%Q. lra.
Qed.

(** A percentage of fewer than 200 is 100 only of the whole and 0 only of
    nothing. *)
Lemma percent_ends (part whole : nat) :
  (0 < whole < 200)%nat → (part <= whole)%nat →
  (percent part whole = 100 ↔ part = whole) ∧ (percent part whole = 0 ↔ part = 0%nat).
Proof.
  intros [Hpos H200] Hle.
  assert (H32 : Z.of_nat whole < 2 ^ 32) by lia.
  pose proof (StatsFacts.percent_nearest double double_proper double_integer
                double_accurate part whole Hpos Hle H32) as Hnear.
  apply nearest_cross in Hnear; [|lia].
  split; split.
  - intros Hr. rewrite Hr in Hnear. lia.
  - intros ->. by apply StatsFacts.percent_of_all.
  - intros Hr. rewrite Hr in Hnear. lia.
  - intros ->. by apply StatsFacts.percent_of_nothing.
Qed.

Lemma filter_length_all {A} (p : A → bool) (l : list A) :
  length (List.filter p l) = length l ↔ ∀ x, x ∈ l → p x = true.
Proof.
  induction l as [|x l IH]; simpl.
  - split; [by intros _ y Hy%elem_of_nil|done].
  - pose proof (List.filter_length_le p l) as Hle.
    destruct (p x) eqn:Hx; simpl.
    + rewrite Nat.succ_inj_wd, IH. split.
      * intros H y [->|Hy]%elem_of_cons; auto.
      * intros H y Hy. apply H. by right.
    + split; [lia|]. intros H. rewrite (H x) in Hx by left. done.
Qed.

Lemma filter_length_none {A} (p : A → bool) (l : list A) :
  length (List.filter p l) = 0%nat ↔ ∀ x, x ∈ l → p x = false.
Proof.
  induction l as [|x l IH]; simpl.
  - split; [by intros _ y Hy%elem_of_nil|done].
  - destruct (p x) eqn:Hx; simpl.
    + split; [done|]. intros H. rewrite (H x) in Hx by left. done.
    + rewrite IH. split.
      * intros H y [->|Hy]%elem_of_cons; auto.
      * intros H y Hy. apply H. by right.
Qed.

Lemma filter_and {A} (p q : A → bool) (l : list A) :
  List.filter (λ x, p x && q x) l = List.filter q (List.filter p l).
Proof.
  induction l as [|x l IH]; simpl; [done|].
  destruct (p x); simpl; [|done]. destruct (q x); by rewrite IH.
Qed.

Lemma length_pos_elem {A} (l : list A) : (0 < length l)%nat ↔ ∃ x, x ∈ l.
Proof.
  destruct l as [|x l]; simpl; split.
  - lia.
  - by intros [y Hy%elem_of_nil].
  - intros _. exists x. by left.
  - lia.
Qed.

Lemma isHigh_spec todo : isHigh todo = true ↔ priority todo = high.
Proof. unfold isHigh. destruct (priority todo); split; congruence. Qed.

(** X24.  For an entry with fewer than 200 todos the completion rate is
    100 exactly when the entry has a todo and every todo is completed, and 0
    exactly when no todo is completed: the rounding shows neither end for
    anything else.  Likewise the high-priority rate is 100 exactly when
    there is a todo of high priority and every such todo is completed, and
    0 exactly when no todo of high priority is completed. *)
Theorem rates_at_the_ends entry :
  (length (todos entry) < 200)%nat →
  let stats := getProductivityStats entry in
  (completionRate stats = 100
   ↔ todos entry ≠ [] ∧ ∀ todo, todo ∈ todos entry → completed todo = true) ∧
  (completionRate stats = 0 ↔ ∀ todo, todo ∈ todos entry → completed todo = false) ∧
  (highPriorityRate stats = 100
   ↔ (∃ todo, todo ∈ todos entry ∧ priority todo = high) ∧
     ∀ todo, todo ∈ todos entry → priority todo = high → completed todo = true) ∧
  (highPriorityRate stats = 0
   ↔ ∀ todo, todo ∈ todos entry → priority todo = high → completed todo = false).
Proof.
  intros H200. simpl.
  assert (Hhigh : ∀ todo, todo ∈ List.filter isHigh (todos entry)
                          ↔ todo ∈ todos entry ∧ priority todo = high).
  { intros todo. by rewrite StoreFacts.filter_elem_of, isHigh_spec. }
  assert (Hlen : (length (List.filter isHigh (todos entry)) < 200)%nat).
  { eapply Nat.le_lt_trans; [apply List.filter_length_le|done]. }
  refine (conj _ (conj _ (conj _ _))).
  - destruct (0 <? length (todos entry))%nat eqn:Hpos.
    + apply Nat.ltb_lt in Hpos.
      destruct (percent_ends (length (List.filter completed (todos entry)))
                  (length (todos entry))) as [H100 _];
        [lia|apply List.filter_length_le|].
      rewrite H100, filter_length_all. split; [|by intros [_ H]].
      intros H. split; [|done]. intros Hnil. rewrite Hnil in Hpos. simpl in Hpos. lia.
    + apply Nat.ltb_ge in Hpos. split; [done|]. intros [Hne _].
      destruct (todos entry); [done|simpl in Hpos; lia].
  - destruct (0 <? length (todos entry))%nat eqn:Hpos.
    + apply Nat.ltb_lt in Hpos.
      destruct (percent_ends (length (List.filter completed (todos entry)))
                  (length (todos entry))) as [_ H0];
        [lia|apply List.filter_length_le|].
      by rewrite H0, filter_length_none.
    + apply Nat.ltb_ge in Hpos. split; [|done]. intros _ todo Hin.
      destruct (todos entry); [by apply elem_of_nil in Hin|simpl in Hpos; lia].
  - rewrite filter_and.
    destruct (0 <? length (List.filter isHigh (todos entry)))%nat eqn:Hpos.
    + apply Nat.ltb_lt in Hpos.
      destruct (percent_ends
                  (length (List.filter completed (List.filter isHigh (todos entry))))
                  (length (List.filter isHigh (todos entry)))) as [H100 _];
        [lia|apply List.filter_length_le|].
      rewrite H100, filter_length_all. split.
      * intros H. split.
        -- apply length_pos_elem in Hpos as [todo Hin]. exists todo. by apply Hhigh.
        -- intros todo Hin Hp. apply H, Hhigh. done.
      * intros [_ H] todo [Hin Hp]%Hhigh. by apply H.
    + apply Nat.ltb_ge in Hpos. split; [done|]. intros [(todo & Hin & Hp) _].
      assert (Hmem : (0 < length (List.filter isHigh (todos entry)))%nat).
      { apply length_pos_elem. exists todo. by apply Hhigh. }
      lia.
  - rewrite filter_and.
    destruct (0 <? length (List.filter isHigh (todos entry)))%nat eqn:Hpos.
    + apply Nat.ltb_lt in Hpos.
      destruct (percent_ends
                  (length (List.filter completed (List.filter isHigh (todos entry))))
                  (length (List.filter isHigh (todos entry)))) as [_ H0];
        [lia|apply List.filter_length_le|].
      rewrite H0, filter_length_none. split.
      * intros H todo Hin Hp. apply H, Hhigh. done.
      * intros H todo [Hin Hp]%Hhigh. by apply H.
    + apply Nat.ltb_ge in Hpos. split; [|done]. intros _ todo Hin Hp.
      assert (Hmem : (0 < length (List.filter isHigh (todos entry)))%nat).
      { apply length_pos_elem. exists todo. by apply Hhigh. }
      lia.
Qed.

(** *** The insights *)

(** X25.  The insights card is never empty and never shows more than four
    messages. *)
Theorem insights_count savedEntries :
  (1 <= length (insights savedEntries) <= 4)%nat.
Proof.
  unfold Stats.insights.
  destruct (0 <? length (slice_last 7 savedEntries))%nat; [|simpl; lia].
  cbv zeta.
  repeat match goal with
         | |- context [if Qle_bool ?x ?y then _ else _] => destruct (Qle_bool x y)
         end;
    destruct (7 <=? length savedEntries)%nat; simpl; lia.
Qed.

End Arithmetic.

End ViewFacts.

(** ** The scenarios of the specification, on the concrete runtime *)

Module Scenarios.
Import Runtime Store Stats Sample.

Local Abbreviation importData := (Store.importData parse stringify getTime).
Local Abbreviation saveEntry := (Store.saveEntry stringify).


Example importData_scenario :
  ∃ written, importData [jan1] mixedFile = Imported [toJS jan1; toJS jan2] written 1 1.
Proof. eexists. vm_compute. reflexivity. Qed.

(** A file with two entries under 2024-01-01, imported into an empty store:
    both are in the store afterwards. *)
Lemma importData_keeps_payload_duplicates_witness :
  ∃ mergedEntries written imported skipped,
    importData [] twinFile = Imported mergedEntries written imported skipped ∧
    toJS jan1 ∈ mergedEntries ∧ toJS jan1' ∈ mergedEntries ∧
    (2 <= length (List.filter (hasDate "2024-01-01") mergedEntries))%nat.
Proof.
  destruct (StoreFacts.importData_keeps_payload_duplicates parse stringify getTime
              [] twinFile twinDocument [toJS jan1; toJS jan1'] "2024-01-01")
    as (m & w & i & s & Hout & Hin & _ & Htwo).
  - vm_compute. reflexivity.
  - reflexivity.
  - repeat constructor.
  - apply not_elem_of_nil.
  - vm_compute. lia.
  - exists m, w, i, s. repeat apply conj.
    + exact Hout.
    + apply Hin; [left|reflexivity].
    + apply Hin; [right; left|reflexivity].
    + exact Htwo.
Defined.

Example importData_twins :
  ∃ written, importData [] twinFile = Imported [toJS jan1; toJS jan1'] written 2 0.
Proof. eexists. vm_compute. reflexivity. Qed.

(** The file [{"foo": 1}] is rejected and the store is as before. *)
Lemma importData_rejects_bad_format_witness :
  importData [jan1] fooFile = ImportFailed ∧
  afterImport [jan1] (importData [jan1] fooFile) = [toJS jan1].
Proof.
  destruct (StoreFacts.importData_rejects_bad_format parse stringify getTime [jan1] fooFile)
    as (_ & Hfail & Hsame).
  - right. exists (JSObject [("foo", JSNumber 1)]). split; [vm_compute|]; reflexivity.
  - split; [exact Hfail | exact Hsame].
Defined.

(** Text that is not JSON is rejected too. *)
Example importData_not_json : importData [jan1] "journal" = ImportFailed.
Proof. reflexivity. Qed.

(** Exporting two entries and importing the file into an empty store. *)
Lemma export_import_roundtrip_witness :
  ∃ mergedEntries written,
    importData [] (content (exportData stringify "2024-01-03T10:00:00.000Z"
                                       "2024-01-03T10:00:00.001Z" [jan2; jan1]))
    = Imported mergedEntries written 2 0 ∧
    mergedEntries ≡ₚ [toJS jan2; toJS jan1].
Proof.
  destruct (StoreFacts.export_import_roundtrip parse stringify getTime [jan2; jan1]
              "2024-01-03T10:00:00.000Z" "2024-01-03T10:00:00.001Z")
    as (m & w & Hout & Hperm & _).
  - vm_compute. reflexivity.
  - exists m, w. split; [exact Hout | exact Hperm].
Defined.

Example exportData_fileName :
  fileName (exportData stringify "2024-01-03T10:00:00.000Z" "2024-01-03T10:00:00.001Z" [jan1])
  = "journal-entries-2024-01-03.json".
Proof. reflexivity. Qed.

(** Saves on a store with distinct dates. *)
Lemma saveEntry_no_duplicate_dates_witness :
  NoDup (date <$> Store.saveAll stringify
                    [(jan1', "1/3/2024, 8:00:00 AM", true); (jan2, "1/3/2024, 8:05:00 AM", false)]
                    [jan1; jan2]).
Proof.
  refine (proj1 (StoreFacts.saveEntry_no_duplicate_dates stringify [jan1; jan2] _) _).
  apply (bool_decide_unpack _). vm_compute. exact I.
Defined.

(** Overwriting the entry of 2024-01-01 in a store that holds it once. *)
Lemma saveEntry_overwrite_witness :
  ∃ i newEntries written,
    saveEntry jan1' "1/3/2024, 8:00:00 AM" true [jan2; jan1] = Saved newEntries written ∧
    [jan2; jan1] !! i = Some jan1 ∧
    newEntries !! i = Some (withTimestamp jan1' "1/3/2024, 8:00:00 AM") ∧
    List.filter (λ e, String.eqb (date e) "2024-01-01") newEntries
    = [withTimestamp jan1' "1/3/2024, 8:00:00 AM"].
Proof.
  destruct (StoreFacts.saveEntry_overwrite stringify [jan2; jan1] jan1'
              "1/3/2024, 8:00:00 AM" jan1)
    as (i & newEntries & w & Hout & Hold & Hnew & _ & _ & Honce & _).
  - reflexivity.
  - exists i, newEntries, w. repeat apply conj; [exact Hout|exact Hold|exact Hnew|exact Honce].
Defined.

(** C3, as stated, fails on a store that holds a date twice, as the store
    does after the import of [twinFile]: the confirmed save replaces the
    first of the two entries and leaves the second, so two entries are
    under the date. *)
Lemma saveEntry_overwrite_leaves_twin :
  (∃ written, importData [] twinFile = Imported (toJS <$> [jan1; jan1']) written 2 0) ∧
  date jan2 ≠ date jan1 ∧
  let edited := withTimestamp jan1 "draft" in
  date edited ∈ date <$> [jan1; jan1'] ∧
  (∃ written,
     saveEntry edited "1/3/2024, 8:00:00 AM" true [jan1; jan1']
     = Saved [withTimestamp edited "1/3/2024, 8:00:00 AM"; jan1'] written) ∧
  length (List.filter (λ e, String.eqb (date e) (date edited))
                      [withTimestamp edited "1/3/2024, 8:00:00 AM"; jan1']) = 2%nat.
Proof.
  split; [eexists; vm_compute; reflexivity|].
  split; [discriminate|]. cbv zeta.
  split; [left|]. split; [eexists; reflexivity|reflexivity].
Qed.

(** C4 fails on the code.  Stored text that is not JSON makes the mount
    effect throw, and stored JSON that is not a list of entries becomes the
    store as it is. *)
Lemma load_does_not_fail_soft :
  Store.load parse (Some "{") None = Throw SyntaxError ∧
  Store.load parse (Some fooFile) None = Normal (JSObject [("foo", JSNumber 1)], true) ∧
  Store.load parse None None = Normal (JSArray [], true).
Proof. repeat split; vm_compute; reflexivity. Qed.

(** The statistics of the scenario entry, and two of three todos
    completed: 200 / 3 is not half-way, and the rate is its rounding, 67. *)
Lemma getProductivityStats_rates_witness :
  getProductivityStats double jan1
  = {| total := 1; completedCount := 1; completionRate := 100;
       highPriority := 1; completedHigh := 1; highPriorityRate := 100 |} ∧
  total (getProductivityStats double (withTasks 2 1)) = 3%nat ∧
  completionRate (getProductivityStats double (withTasks 2 1))
  = Math_round (inject_Z (100 * 2) / inject_Z 3) ∧
  Math_round (inject_Z (100 * 2) / inject_Z 3) = 67.
Proof.
  destruct (StatsFacts.getProductivityStats_rates double
              RuntimeFacts.runtime_double_proper RuntimeFacts.runtime_double_integer
              RuntimeFacts.runtime_double_accurate jan1)
    as (_ & _ & _ & _ & _ & _ & _ & _ & _ & _ & _ & Hscenario); [done|].
  destruct (StatsFacts.getProductivityStats_rates double
              RuntimeFacts.runtime_double_proper RuntimeFacts.runtime_double_integer
              RuntimeFacts.runtime_double_accurate (withTasks 2 1))
    as (_ & Htotal & _ & _ & _ & _ & Hrate & _); [done|].
  destruct Hrate as (_ & Hround & _); [simpl; lia|].
  assert (Hx : ¬ halfway (200 # 3)).
  { intros [k Hk]. unfold Qeq in Hk. simpl in Hk. lia. }
  split; [by apply Hscenario|]. split; [exact Htotal|]. split; [|reflexivity].
  exact (Hround Hx).
Defined.

(** C7, as stated, fails on an entry with 40 todos of which 23 are
    completed: 100 * 23 / 40 is 57.5, whose rounding is 58, and the
    completion rate is 57, because the double nearest to 23 / 40 lies below
    it.  No other rule for the half-way case describes the rates either: 1
    of 8 (12.5) gives 13 and 3 of 8 (37.5) gives 38. *)
Lemma completionRate_is_not_round :
  let stats := getProductivityStats double (withTasks 23 17) in
  total stats = 40%nat ∧ completedCount stats = 23%nat ∧
  (inject_Z (100 * 23) / inject_Z 40 == 57 + (1 # 2))%Q ∧
  Math_round (inject_Z (100 * 23) / inject_Z 40) = 58 ∧
  completionRate stats = 57 ∧
  completionRate (getProductivityStats double (withTasks 1 7)) = 13 ∧
  completionRate (getProductivityStats double (withTasks 3 5)) = 38.
Proof. repeat split; vm_compute; reflexivity. Qed.

(** No todos: both rates are 0. *)
Example getProductivityStats_empty :
  getProductivityStats double (initialEntry "2024-01-01" "1/1/2024, 9:00:00 AM")
  = {| total := 0; completedCount := 0; completionRate := 0;
       highPriority := 0; completedHigh := 0; highPriorityRate := 0 |}.
Proof. reflexivity. Qed.

(** 23 of 40 is 57.5 percent; the double nearest to 23/40 lies below it, and
    the rate is 57. *)
Example percent_tie : percent double 23 40 = 57 ∧ percent double 1 8 = 13.
Proof. split; vm_compute; reflexivity. Qed.


Example ratingAverages_values :
  ratingAverages double [jan1'; jan2] jan1
  = Some {| avgOverall := double (20 # 10); avgEnergy := double (13 # 10);
            avgProductivity := double (13 # 10); avgMood := double (37 # 10) |}.
Proof. vm_compute. reflexivity. Qed.

(** The store of [jan1] alone, whose mood is 5 and whose one task is done:
    the two praises.  Two saved entries with moods 2 and 4, no completed
    task and productivity 0 and 4: only the completion suggestion. *)
Lemma insights_thresholds_witness :
  GreatSpirits ∈ insights double [jan1] ∧
  ExcellentCompletion ∈ insights double [jan1] ∧
  (BreakDownTasks ∉ insights double [jan1]) ∧
  insights double [jan1] = [GreatSpirits; ExcellentCompletion] ∧
  insights double [jan1'; jan2] = [BreakDownTasks].
Proof.
  destruct (StatsFacts.insights_thresholds double
              RuntimeFacts.runtime_double_proper RuntimeFacts.runtime_double_integer
              RuntimeFacts.runtime_double_accurate
              RuntimeFacts.runtime_double_four_fifths RuntimeFacts.runtime_double_one_half
              [jan1])
    as (_ & _ & _ & Hfires).
  - repeat constructor; vm_compute; congruence.
  - done.
  - destruct Hfires as (_ & _ & _ & Hmood & _ & Hpraise & Hbreak & _); [discriminate|].
    split; [apply Hmood; vm_compute; discriminate|].
    split; [apply Hpraise; split; vm_compute; congruence|].
    split.
    + intros [H|H]%Hbreak; vm_compute in H; [discriminate|by apply H].
    + split; vm_compute; reflexivity.
Defined.

(** Average mood 3 and completion rate 2 of 3 over three entries without
    high productivity: no threshold fires, and the default message is the
    only one. *)
Example insights_default :
  let e := {| date := "2024-01-05"; timestamp := ""; 
              todos := [{| text := "a"; completed := true; priority := low |};
                        {| text := "b"; completed := true; priority := low |};
                        {| text := "c"; completed := false; priority := low |}];
              mainGoal := ""; accomplishments := ""; goodThings := ""; grateful := "";
              kindness := "";
              ratings := {| overall := 3; energy := 3; productivity := 3; mood := 3 |};
              lessons := ""; improvements := ""; challenges := ""; emotions := "";
              futureImprovements := ""; tomorrowGoals := ""; affirmation := "" |} in
  insights double [e] = [KeepJournaling] ∧ insights double [] = [KeepJournaling].
Proof. split; vm_compute; reflexivity. Qed.

End Scenarios.

(** ** The editor, the page and the views on the sample entries *)

Module Walkthrough.
Import Runtime Store Stats Sample Editor Page View.

Local Abbreviation importData := (Store.importData parse stringify getTime).
Local Abbreviation exportData := (Store.exportData stringify).
Local Abbreviation saveAll := (Store.saveAll stringify).
Local Abbreviation mount := (Page.mount parse).
Local Abbreviation stats := (Stats.getProductivityStats double).

(** A text of two spaces adds nothing; a text with a leading space is added
    with the space. *)
Lemma addTodo_effect_witness :
  addTodo "  " medium jan2 = (jan2, "  ") ∧
  addTodo " Call Ann" high jan2
  = (withTodos jan2 [{| text := "B"; completed := false; priority := low |};
                     {| text := " Call Ann"; completed := false; priority := high |}], "").
Proof.
  destruct (EditorFacts.addTodo_effect double "  " medium jan2) as [Hblank _].
  destruct (EditorFacts.addTodo_effect double " Call Ann" high jan2) as [_ Htext].
  split.
  - apply Hblank. repeat constructor.
  - apply Htext. intros [_ [H _]%Forall_cons]%Forall_cons. discriminate.
Defined.

(** Ticking the open todo of [jan2]. *)
Lemma toggleTodo_flips_witness :
  toggleTodo 0 jan2
  = withTodos jan2 [{| text := "B"; completed := true; priority := low |}] ∧
  completedCount (stats (toggleTodo 0 jan2)) = 1%nat.
Proof.
  destruct (EditorFacts.toggleTodo_flips double 0 {| text := "B"; completed := false; priority := low |} jan2)
    as (Hnext & _ & _ & _ & _ & _ & Hup & _); [reflexivity|].
  split; [exact Hnext | exact (Hup eq_refl)].
Defined.

(** Deleting the only todo of [jan1]. *)
Lemma removeTodo_deletes_witness :
  removeTodo 0 jan1 = withTodos jan1 [] ∧
  S (total (stats (removeTodo 0 jan1))) = total (stats jan1).
Proof.
  destruct (EditorFacts.removeTodo_deletes double 0 jan1) as (Hnext & _ & _ & Hcount).
  split; [exact Hnext|]. by destruct (Hcount _ eq_refl).
Defined.

(** The number -1 and the number 1 are the index of no todo of [jan1]. *)
Lemma todo_handlers_out_of_range_witness :
  toggleTodo (-1) jan1 = jan1 ∧ removeTodo 1 jan1 = jan1.
Proof.
  split.
  - apply (EditorFacts.todo_handlers_out_of_range (-1) jan1). left. lia.
  - apply (EditorFacts.todo_handlers_out_of_range 1 jan1). right. simpl. lia.
Defined.

Lemma addTodo_removeTodo_witness :
  removeTodo 1 (addTodo "Call Ann" high jan1).1 = jan1.
Proof.
  apply (EditorFacts.addTodo_removeTodo "Call Ann" high jan1).
  intros [H _]%Forall_cons. discriminate.
Defined.

(** The fourth star of the mood on a new entry. *)
Lemma click_star_witness :
  let next := updateRating key_mood 4 (initialEntry "2024-01-03" "1/3/2024, 9:00:00 AM") in
  mood (ratings next) = 4 ∧ energy (ratings next) = 0 ∧
  Z.of_nat (length (filledStars (mood (ratings next)))) = 4.
Proof.
  destruct (EditorFacts.click_star key_mood 4
              (initialEntry "2024-01-03" "1/3/2024, 9:00:00 AM"))
    as (Hset & Hothers & _ & _ & Hfilled).
  - apply EditorFacts.stars_range. lia.
  - refine (conj Hset (conj _ Hfilled)). by apply (Hothers key_energy).
Defined.

(** A short session on a new entry. *)
Lemma edit_invariant_witness :
  let entry :=
    edit [AddTodo "Call Ann" high; ClickStar key_mood 5; ToggleTodo 0;
          TypeText field_mainGoal "Ship the release"; ClickStar key_mood 2; RemoveTodo 0]
         (initialEntry "2024-01-03" "1/3/2024, 9:00:00 AM") in
  ratings_in_range entry ∧ date entry = "2024-01-03" ∧ mood (ratings entry) = 2.
Proof.
  destruct (EditorFacts.edit_invariant "2024-01-03" "1/3/2024, 9:00:00 AM"
              [AddTodo "Call Ann" high; ClickStar key_mood 5; ToggleTodo 0;
               TypeText field_mainGoal "Ship the release"; ClickStar key_mood 2; RemoveTodo 0])
    as (Hrange & Hdate & _).
  - repeat constructor; apply EditorFacts.stars_range; simpl; lia.
  - refine (conj Hrange (conj Hdate _)). reflexivity.
Defined.


(** A storage whose entries are not JSON makes the mount throw; after
    [clearAllData] the mount completes with the empty store. *)
Lemma clearAllData_then_mount_witness :
  let broken := {| journalEntries := Some "{"; journalTheme := Some "light" |} in
  mount broken = Throw SyntaxError ∧
  journalTheme (Page.storage (clearAllData jan1 broken)) = Some "light" ∧
  ∃ isDarkMode,
    mount (Page.storage (clearAllData jan1 broken)) = Normal (JSArray [], isDarkMode).
Proof.
  intros broken.
  destruct (SessionFacts.clearAllData_then_mount parse jan1 broken)
    as (_ & _ & Htheme & dark & Hmount & _).
  split; [vm_compute; reflexivity|]. split; [exact Htheme|]. by exists dark.
Defined.


(** Two saves on a store with one entry. *)
Lemma saveAll_entries_witness :
  Forall ratings_in_range
         (saveAll [(jan1', "1/3/2024, 8:00:00 AM", true); (jan2, "1/3/2024, 8:05:00 AM", false)]
                  [jan1]).
Proof.
  apply (SessionFacts.saveAll_entries stringify).
  - repeat constructor; vm_compute; congruence.
  - repeat constructor; vm_compute; congruence.
Defined.

Lemma export_import_same_store_witness :
  ∃ mergedEntries written,
    importData [jan2; jan1] (content (exportData "2024-01-03T10:00:00.000Z"
                                                 "2024-01-03T10:00:00.001Z" [jan2; jan1]))
    = Imported mergedEntries written 0 2 ∧
    mergedEntries ≡ₚ [toJS jan2; toJS jan1].
Proof.
  apply (SessionFacts.export_import_same_store parse stringify getTime [jan2; jan1]
           "2024-01-03T10:00:00.000Z" "2024-01-03T10:00:00.001Z").
  vm_compute. reflexivity.
Defined.

(** A file with the entries of [mixedFile] and nothing else. *)
Lemma importData_reads_entries_only_witness :
  importData [jan1] (print (JSObject [("entries", JSArray [toJS jan1'; toJS jan2])]))
  = importData [jan1] mixedFile.
Proof.
  apply (SessionFacts.importData_reads_entries_only parse stringify getTime [jan1] _ _
           (JSObject [("entries", JSArray [toJS jan1'; toJS jan2])]) mixedDocument).
  - vm_compute. reflexivity.
  - vm_compute. reflexivity.
  - reflexivity.
Defined.

Lemma importData_twice_witness :
  ∃ mergedEntries written again written',
    importData [jan1] mixedFile = Imported mergedEntries written 1 1 ∧
    importData [jan1; jan2] mixedFile = Imported again written' 0 2 ∧
    again ≡ₚ mergedEntries.
Proof.
  destruct (SessionFacts.importData_twice parse stringify getTime [jan1] mixedFile
              mixedDocument [jan1'; jan2] [toJS jan1; toJS jan2]
              (stringify (JSArray [toJS jan1; toJS jan2]) 0) 1 1)
    as [_ Hagain].
  - vm_compute. reflexivity.
  - reflexivity.
  - vm_compute. reflexivity.
  - destruct (Hagain [jan1; jan2] eq_refl) as (again & w & Hout & Hperm).
    eexists _, _, again, w. split; [vm_compute; reflexivity|]. split; [exact Hout|exact Hperm].
Defined.

(** The store after a save and after an import, as the next mount loads
    it from a storage with the light theme. *)
Lemma written_store_survives_reload_witness :
  let storage := {| journalEntries := None; journalTheme := Some "light" |} in
  (∃ isDarkMode,
     mount (setEntries (stringify (entriesJSON [jan1; jan2]) 0) storage)
     = Normal (entriesJSON [jan1; jan2], isDarkMode)) ∧
  (∃ isDarkMode,
     mount (setEntries (stringify (JSArray [toJS jan1; toJS jan2]) 0) storage)
     = Normal (JSArray [toJS jan1; toJS jan2], isDarkMode)).
Proof.
  intros storage.
  destruct (SessionFacts.written_store_survives_reload parse stringify getTime
              [jan1] storage) as [Hsave Himport].
  split.
  - destruct (Hsave jan2 "1/2/2024, 8:15:00 PM" false [jan1; jan2]
                (stringify (entriesJSON [jan1; jan2]) 0))
      as (_ & dark & Hmount & _);
      [reflexivity|vm_compute; reflexivity|discriminate|].
    by exists dark.
  - destruct (Himport mixedFile [toJS jan1; toJS jan2]
                (stringify (JSArray [toJS jan1; toJS jan2]) 0) 1%nat 1%nat)
      as (_ & dark & Hmount & _);
      [vm_compute; reflexivity|vm_compute; reflexivity|discriminate|].
    by exists dark.
Defined.

(** An entry with a low, a high and another low todo. *)
Lemma todoList_rows_witness :
  let a := {| text := "a"; completed := false; priority := low |} in
  let b := {| text := "b"; completed := true; priority := high |} in
  let c := {| text := "c"; completed := false; priority := low |} in
  let entry := withTodos jan1 [a; b; c] in
  group low (todos entry) = Some [(a, 0%nat); (c, 2%nat)] ∧
  group medium (todos entry) = None ∧
  ((c, 2%nat) ∈ groupRows low (todos entry) ↔ todos entry !! 2%nat = Some c ∧ priority c = low).
Proof.
  intros a b c entry.
  destruct (ViewFacts.todoList_rows entry) as (Hin & _ & _ & Hnone & Hsome & _).
  split; [by apply Hsome|]. split; [by apply Hnone|]. apply Hin.
Defined.

Lemma recentEntries_rows_witness :
  ∃ rows, recentEntries [jan1; jan2] = Some rows ∧ length rows = 2%nat ∧
          rows !! 0%nat = Some (recentRow jan2) ∧
          rowGoal (recentRow jan2) = "No main goal set" ∧
          rowHighCompleted (recentRow jan1) = Some 1%nat.
Proof.
  destruct (ViewFacts.recentEntries_rows [jan1; jan2]) as [_ Hrows].
  destruct (Hrows _ eq_refl) as (Hlen & Hlookup & _).
  eexists. split; [reflexivity|]. split; [exact Hlen|].
  split; [apply (Hlookup 0%nat); simpl; lia|]. split; reflexivity.
Defined.

Lemma completionTrend_rows_witness :
  completionTrend double [jan1; jan2] = [100; 0] ∧
  Forall (λ rate, 0 <= rate <= 100) (completionTrend double [jan1; jan2]).
Proof.
  destruct (ViewFacts.completionTrend_rows double
              RuntimeFacts.runtime_double_proper RuntimeFacts.runtime_double_integer
              RuntimeFacts.runtime_double_accurate [jan1; jan2])
    as (_ & _ & _ & Hrange).
  - repeat constructor.
  - split; [vm_compute; reflexivity | exact Hrange].
Defined.

Lemma moodTrend_rows_witness :
  moodTrend [jan1; jan2] = [([1; 2; 3; 4; 5], 5); ([1; 2; 3; 4], 4)] ∧
  Forall (λ row, Z.of_nat (length row.1) = row.2) (moodTrend [jan1; jan2]).
Proof.
  destruct (ViewFacts.moodTrend_rows [jan1; jan2]) as (_ & _ & Hrows).
  - repeat constructor; vm_compute; congruence.
  - split; [reflexivity|]. eapply Forall_impl; [exact Hrows|]. by intros row [H _].
Defined.

(** The averages over [jan1'] and [jan2]: 3, 2, 2 and 3 stars. *)
Lemma ratingAverages_stars_witness :
  ∃ a, ratingAverages double [jan1'; jan2] (initialEntry "2024-01-03" "1/3/2024, 9:00:00 AM")
       = Some a ∧
       (0 <= avgEnergy a)%Q ∧ (avgEnergy a <= 5)%Q ∧
       length (averageStars (avgOverall a)) = 3%nat ∧
       length (averageStars (avgEnergy a)) = 2%nat.
Proof.
  assert (Hrange : Forall ratings_in_range
            ([jan1'; jan2] ++ [initialEntry "2024-01-03" "1/3/2024, 9:00:00 AM"]))
    by (repeat constructor; vm_compute; congruence).
  assert (H32 : Z.of_nat (length ([jan1'; jan2]
            ++ [initialEntry "2024-01-03" "1/3/2024, 9:00:00 AM"])) < 2 ^ 32) by done.
  eexists. split; [reflexivity|].
  pose proof (ViewFacts.ratingAverages_stars double
                RuntimeFacts.runtime_double_proper RuntimeFacts.runtime_double_integer
                RuntimeFacts.runtime_double_accurate
                [jan1'; jan2] (initialEntry "2024-01-03" "1/3/2024, 9:00:00 AM") _
                Hrange H32 eq_refl) as H.
  apply Forall_cons in H as [_ [(H0 & H5 & _) _]%Forall_cons].
  split; [exact H0|]. split; [exact H5|]. split; vm_compute; reflexivity.
Defined.

Lemma rates_at_the_ends_witness :
  completionRate (stats jan1) = 100 ∧ completionRate (stats jan2) = 0 ∧
  highPriorityRate (stats jan1) = 100 ∧
  completionRate (stats (initialEntry "2024-01-03" "1/3/2024, 9:00:00 AM")) ≠ 100.
Proof.
  destruct (ViewFacts.rates_at_the_ends double
              RuntimeFacts.runtime_double_proper RuntimeFacts.runtime_double_integer
              RuntimeFacts.runtime_double_accurate jan1) as (Hall & _ & Hhigh & _);
    [simpl; lia|].
  destruct (ViewFacts.rates_at_the_ends double
              RuntimeFacts.runtime_double_proper RuntimeFacts.runtime_double_integer
              RuntimeFacts.runtime_double_accurate jan2) as (_ & Hnone & _);
    [simpl; lia|].
  destruct (ViewFacts.rates_at_the_ends double
              RuntimeFacts.runtime_double_proper RuntimeFacts.runtime_double_integer
              RuntimeFacts.runtime_double_accurate
              (initialEntry "2024-01-03" "1/3/2024, 9:00:00 AM")) as (Hempty & _);
    [simpl; lia|].
  refine (conj _ (conj _ (conj _ _))).
  - apply Hall. split; [done|]. by intros todo ->%list_elem_of_singleton.
  - apply Hnone. by intros todo ->%list_elem_of_singleton.
  - apply Hhigh. split.
    + eexists. split; [by left|done].
    + by intros todo ->%list_elem_of_singleton.
  - intros [Hne _]%Hempty. by apply Hne.
Defined.

End Walkthrough.
